(** * The version-1 scheduler of anki/sched.py, embedded in Rocq

    The development follows the Python source: Python numbers (unbounded
    integers and IEEE-754 binary64 floats) come first, then the card and
    configuration records, the collection, the scheduler state with its
    in-memory queues, a state-and-exception monad for the methods that
    mutate the scheduler, and finally the methods of [class Scheduler]
    themselves.  The methods inherited from [anki.bothSched] and the
    collaborators of other modules (collection, decks, cards, notes) are
    gathered in one interface record ([BothScheduler]). *)

From Stdlib Require Import ZArith QArith Qround Qpower List String Bool Lia.
From Stdlib Require Import Floats.SpecFloat Permutation Sorted.
Import ListNotations.

Local Open Scope Z_scope.

(** ** Python numbers *)

Module PyNum.

(** CPython floats are IEEE-754 binary64: 53 bits of mantissa, infinities
    at exponent 1024.  [spec_float] is the Standard Library's executable
    specification of them (rounding to nearest, ties to even). *)
Definition prec : Z := 53.
Definition emax : Z := 1024.

Definition float := spec_float.

Definition fmul : float -> float -> float := SFmul prec emax.
Definition fadd : float -> float -> float := SFadd prec emax.
Definition fsub : float -> float -> float := SFsub prec emax.
Definition fdiv : float -> float -> float := SFdiv prec emax.

(** The exceptions the modelled code can raise. *)
Inductive exn : Type :=
| AssertionError
| InvalidQueue          (* Exception("Invalid queue") of answerCard *)
| OverflowError
| ValueError
| ZeroDivisionError
| IndexError
| RecursionError
| UnboundLocalError
| IntegrityError        (* duplicate primary key on insert *)
| LookupError.

(** Results of pure computations that may raise. *)
Definition exc (A : Type) : Type := (exn + A)%type.

Definition ebind {A B} (x : exc A) (f : A -> exc B) : exc B :=
  match x with
  | inl e => inl e
  | inr a => f a
  end.

(** A Python number is an [int] or a [float]. *)
Inductive num : Type :=
| PInt (z : Z)
| PFloat (f : float).

(** [float(z)]: the nearest binary64, OverflowError when there is none. *)
Definition float_of_int (z : Z) : exc float :=
  match binary_normalize prec emax z 0 false with
  | S754_infinity _ => inl OverflowError
  | f => inr f
  end.

Definition to_float (x : num) : exc float :=
  match x with
  | PInt z => float_of_int z
  | PFloat f => inr f
  end.

(** The exact rational value of a finite float. *)
Definition Qpow2 (e : Z) : Q := Qpower 2 e.

Definition fvalue (f : float) : option Q :=
  match f with
  | S754_zero _ => Some 0%Q
  | S754_finite s m e =>
      Some (if s then Qopp (inject_Z (Zpos m) * Qpow2 e)
            else (inject_Z (Zpos m) * Qpow2 e))%Q
  | S754_infinity _ | S754_nan => None
  end.

(** Rounding toward zero, as [int()] does on a float. *)
Definition Qtrunc (q : Q) : Z :=
  if Qle_bool 0 q then Qfloor q else Qceiling q.

(** [int(f)]: OverflowError on an infinity, ValueError on a NaN. *)
Definition int_of_float (f : float) : exc Z :=
  match f with
  | S754_infinity _ => inl OverflowError
  | S754_nan => inl ValueError
  | _ => match fvalue f with
         | Some q => inr (Qtrunc q)
         | None => inl ValueError
         end
  end.

Definition py_int (x : num) : exc Z :=
  match x with
  | PInt z => inr z
  | PFloat f => int_of_float f
  end.

(** [a * b] and [a + b]: integer arithmetic on two ints, float arithmetic
    as soon as one operand is a float. *)
Definition mul (a b : num) : exc num :=
  match a, b with
  | PInt x, PInt y => inr (PInt (x * y))
  | _, _ =>
      ebind (to_float a) (fun fa =>
      ebind (to_float b) (fun fb => inr (PFloat (fmul fa fb))))
  end.

Definition add (a b : num) : exc num :=
  match a, b with
  | PInt x, PInt y => inr (PInt (x + y))
  | _, _ =>
      ebind (to_float a) (fun fa =>
      ebind (to_float b) (fun fb => inr (PFloat (fadd fa fb))))
  end.

Definition sub (a b : num) : exc num :=
  match a, b with
  | PInt x, PInt y => inr (PInt (x - y))
  | _, _ =>
      ebind (to_float a) (fun fa =>
      ebind (to_float b) (fun fb => inr (PFloat (fsub fa fb))))
  end.

Definition fis_zero (f : float) : bool :=
  match f with S754_zero _ => true | _ => false end.

(** [a / b] on two ints ([long_true_divide]): the exact quotient rounded
    once, to nearest, ties to even; OverflowError when it is too large for
    a float.  The quotient is taken with at least 55 significant bits and
    a sticky last bit, which rounds as the exact quotient does. *)
Definition int_truediv (a b : Z) : exc float :=
  if b =? 0 then inl ZeroDivisionError
  else
    let neg := xorb (a <? 0) (b <? 0) in
    let x := Z.abs a in
    let y := Z.abs b in
    if x =? 0 then inr (S754_zero neg)
    else
      let k := Z.max 0 (Z.log2 y + 56 - Z.log2 x) in
      let n := x * 2 ^ k in
      let m := 2 * (n / y) + (if n mod y =? 0 then 0 else 1) in
      match binary_normalize prec emax (if neg then - m else m) (- k - 1) false
      with
      | S754_infinity _ => inl OverflowError
      | f => inr f
      end.

(** [a / b], true division: [int_truediv] on two ints, float division
    once an operand is a float (an int operand is converted first). *)
Definition truediv (a b : num) : exc num :=
  match a, b with
  | PInt x, PInt y => ebind (int_truediv x y) (fun f => inr (PFloat f))
  | _, _ =>
      ebind (to_float a) (fun fa =>
      ebind (to_float b) (fun fb =>
        if fis_zero fb then inl ZeroDivisionError
        else inr (PFloat (fdiv fa fb))))
  end.

(** Comparison.  CPython compares an int with a float exactly; a NaN is
    unordered ([None]). *)
Definition fcompare_Q (f : float) (q : Q) : option comparison :=
  match f with
  | S754_nan => None
  | S754_infinity s => Some (if s then Lt else Gt)
  | _ => match fvalue f with
         | Some v => Some (Qcompare v q)
         | None => None
         end
  end.

Definition compare (a b : num) : option comparison :=
  match a, b with
  | PInt x, PInt y => Some (Z.compare x y)
  | PFloat f, PInt y => fcompare_Q f (inject_Z y)
  | PInt x, PFloat g => option_map CompOpp (fcompare_Q g (inject_Z x))
  | PFloat f, PFloat g => SFcompare f g
  end.

Definition gt (a b : num) : bool :=
  match compare a b with Some Gt => true | _ => false end.

Definition lt (a b : num) : bool :=
  match compare a b with Some Lt => true | _ => false end.

(** [max(a, b)] keeps its first argument unless the second is strictly
    greater; [min(a, b)] unless the second is strictly smaller. *)
Definition max2 (a b : num) : num := if gt b a then b else a.
Definition min2 (a b : num) : num := if lt b a then b else a.

(** Truth value of a number: non-zero. *)
Definition truthy (a : num) : bool :=
  match a with
  | PInt z => negb (z =? 0)
  | PFloat f => negb (fis_zero f)
  end.

Definition neg (a : num) : num :=
  match a with
  | PInt z => PInt (- z)
  | PFloat f => PFloat (SFopp f)
  end.

(** [a // b].  On floats CPython returns the floor of the quotient as a
    float; it is computed here from the exact values of the operands. *)
Definition floordiv (a b : num) : exc num :=
  match a, b with
  | PInt x, PInt y =>
      if y =? 0 then inl ZeroDivisionError else inr (PInt (x / y))
  | _, _ =>
      ebind (to_float a) (fun fa =>
      ebind (to_float b) (fun fb =>
        if fis_zero fb then inl ZeroDivisionError
        else match fvalue fa, fvalue fb with
             | Some va, Some vb =>
                 ebind (float_of_int (Qfloor (va / vb)))
                       (fun f => inr (PFloat f))
             | Some va, None =>
                 match fb with
                 | S754_infinity sb =>
                     if Qeq_bool va 0 || Bool.eqb (Qle_bool va 0) sb
                     then inr (PFloat (S754_zero false))
                     else ebind (float_of_int (-1))
                                (fun f => inr (PFloat f))
                 | _ => inr (PFloat S754_nan)
                 end
             | None, _ => inr (PFloat S754_nan)
             end))
  end.

(** Float literals of the source, as correctly rounded quotients. *)
Definition lit (n d : Z) : float :=
  fdiv (binary_normalize prec emax n 0 false)
       (binary_normalize prec emax d 0 false).

Definition f1_2 : float := Eval vm_compute in lit 12 10.

End PyNum.

Import PyNum.

(** ** Constants of [anki.consts]

    Only the names of the constants occur in sched.py; they are
    enumerations here.
    On disk a queue and a card type are small integers, and the SQL of the
    source writes [queue = type]: [queue_of_type] is that coercion. *)

Inductive Queue : Type :=
| QUEUE_NEW_CRAM
| QUEUE_LRN
| QUEUE_REV
| QUEUE_DAY_LRN
| QUEUE_SUSPENDED
| QUEUE_USER_BURIED
| QUEUE_SCHED_BURIED.

Inductive CardType : Type :=
| CARD_NEW
| CARD_LRN
| CARD_DUE.

Inductive LeechAction : Type :=
| LEECH_SUSPEND
| LEECH_TAGONLY.

Definition Queue_eqb (a b : Queue) : bool :=
  match a, b with
  | QUEUE_NEW_CRAM, QUEUE_NEW_CRAM
  | QUEUE_LRN, QUEUE_LRN
  | QUEUE_REV, QUEUE_REV
  | QUEUE_DAY_LRN, QUEUE_DAY_LRN
  | QUEUE_SUSPENDED, QUEUE_SUSPENDED
  | QUEUE_USER_BURIED, QUEUE_USER_BURIED
  | QUEUE_SCHED_BURIED, QUEUE_SCHED_BURIED => true
  | _, _ => false
  end.

Definition CardType_eqb (a b : CardType) : bool :=
  match a, b with
  | CARD_NEW, CARD_NEW | CARD_LRN, CARD_LRN | CARD_DUE, CARD_DUE => true
  | _, _ => false
  end.

Definition LeechAction_eqb (a b : LeechAction) : bool :=
  match a, b with
  | LEECH_SUSPEND, LEECH_SUSPEND | LEECH_TAGONLY, LEECH_TAGONLY => true
  | _, _ => false
  end.

Definition queue_of_type (t : CardType) : Queue :=
  match t with
  | CARD_NEW => QUEUE_NEW_CRAM
  | CARD_LRN => QUEUE_LRN
  | CARD_DUE => QUEUE_REV
  end.

Definition BUTTON_ONE : Z := 1.
Definition BUTTON_TWO : Z := 2.
Definition BUTTON_THREE : Z := 3.
Definition BUTTON_FOUR : Z := 4.

(** ** Cards *)

(** A card object: the columns of its row, and the two attributes
    ([lastIvl], [wasNew]) that answering sets on the object only. *)
Record Card : Type := mkCard {
  id : Z;
  nid : Z;
  did : Z;
  type : CardType;
  queue : Queue;
  due : Z;
  ivl : Z;
  factor : Z;
  reps : Z;
  lapses : Z;
  left : Z;
  odue : Z;
  odid : Z;
  mod_ : Z;
  usn : Z;
  lastIvl : Z;
  wasNew : bool
}.

Definition set_did (v : Z) (c : Card) : Card :=
  mkCard (id c) (nid c) v (type c) (queue c) (due c) (ivl c) (factor c)
         (reps c) (lapses c) (left c) (odue c) (odid c) (mod_ c) (usn c)
         (lastIvl c) (wasNew c).
Definition set_type (v : CardType) (c : Card) : Card :=
  mkCard (id c) (nid c) (did c) v (queue c) (due c) (ivl c) (factor c)
         (reps c) (lapses c) (left c) (odue c) (odid c) (mod_ c) (usn c)
         (lastIvl c) (wasNew c).
Definition set_queue (v : Queue) (c : Card) : Card :=
  mkCard (id c) (nid c) (did c) (type c) v (due c) (ivl c) (factor c)
         (reps c) (lapses c) (left c) (odue c) (odid c) (mod_ c) (usn c)
         (lastIvl c) (wasNew c).
Definition set_due (v : Z) (c : Card) : Card :=
  mkCard (id c) (nid c) (did c) (type c) (queue c) v (ivl c) (factor c)
         (reps c) (lapses c) (left c) (odue c) (odid c) (mod_ c) (usn c)
         (lastIvl c) (wasNew c).
Definition set_ivl (v : Z) (c : Card) : Card :=
  mkCard (id c) (nid c) (did c) (type c) (queue c) (due c) v (factor c)
         (reps c) (lapses c) (left c) (odue c) (odid c) (mod_ c) (usn c)
         (lastIvl c) (wasNew c).
Definition set_factor (v : Z) (c : Card) : Card :=
  mkCard (id c) (nid c) (did c) (type c) (queue c) (due c) (ivl c) v
         (reps c) (lapses c) (left c) (odue c) (odid c) (mod_ c) (usn c)
         (lastIvl c) (wasNew c).
Definition set_reps (v : Z) (c : Card) : Card :=
  mkCard (id c) (nid c) (did c) (type c) (queue c) (due c) (ivl c) (factor c)
         v (lapses c) (left c) (odue c) (odid c) (mod_ c) (usn c)
         (lastIvl c) (wasNew c).
Definition set_lapses (v : Z) (c : Card) : Card :=
  mkCard (id c) (nid c) (did c) (type c) (queue c) (due c) (ivl c) (factor c)
         (reps c) v (left c) (odue c) (odid c) (mod_ c) (usn c)
         (lastIvl c) (wasNew c).
Definition set_left (v : Z) (c : Card) : Card :=
  mkCard (id c) (nid c) (did c) (type c) (queue c) (due c) (ivl c) (factor c)
         (reps c) (lapses c) v (odue c) (odid c) (mod_ c) (usn c)
         (lastIvl c) (wasNew c).
Definition set_odue (v : Z) (c : Card) : Card :=
  mkCard (id c) (nid c) (did c) (type c) (queue c) (due c) (ivl c) (factor c)
         (reps c) (lapses c) (left c) v (odid c) (mod_ c) (usn c)
         (lastIvl c) (wasNew c).
Definition set_odid (v : Z) (c : Card) : Card :=
  mkCard (id c) (nid c) (did c) (type c) (queue c) (due c) (ivl c) (factor c)
         (reps c) (lapses c) (left c) (odue c) v (mod_ c) (usn c)
         (lastIvl c) (wasNew c).
Definition set_mod (v : Z) (c : Card) : Card :=
  mkCard (id c) (nid c) (did c) (type c) (queue c) (due c) (ivl c) (factor c)
         (reps c) (lapses c) (left c) (odue c) (odid c) v (usn c)
         (lastIvl c) (wasNew c).
Definition set_usn (v : Z) (c : Card) : Card :=
  mkCard (id c) (nid c) (did c) (type c) (queue c) (due c) (ivl c) (factor c)
         (reps c) (lapses c) (left c) (odue c) (odid c) (mod_ c) v
         (lastIvl c) (wasNew c).
Definition set_lastIvl (v : Z) (c : Card) : Card :=
  mkCard (id c) (nid c) (did c) (type c) (queue c) (due c) (ivl c) (factor c)
         (reps c) (lapses c) (left c) (odue c) (odid c) (mod_ c) (usn c)
         v (wasNew c).
Definition set_wasNew (v : bool) (c : Card) : Card :=
  mkCard (id c) (nid c) (did c) (type c) (queue c) (due c) (ivl c) (factor c)
         (reps c) (lapses c) (left c) (odue c) (odid c) (mod_ c) (usn c)
         (lastIvl c) v.

(** ** Deck configurations *)

(** [conf['rev']]: [ivlFct] may be absent ([conf.get('ivlFct', 1)]). *)
Record RevConf : Type := mkRevConf {
  rev_perDay : Z;
  ease4 : num;
  ivlFct : option num;
  maxIvl : Z
}.

(** The lapse configuration returned by [_lapseConf]. *)
Record LapseConf : Type := mkLapseConf {
  delays : list num;
  mult : num;
  minInt : Z;
  leechFails : Z;
  leechAction : LeechAction
}.

(** What [_resched] reads of [_cardConf(card)]; [resched] is only present
    (and only read) when [dyn] holds. *)
Record DeckConf : Type := mkDeckConf {
  dyn : bool;
  resched : bool
}.

(** A deck: what [_deckRevLimitSingle], [_fillRev] and [_updateCutoff]
    read, and the configuration [confForDid] resolves for it. *)
Record Deck : Type := mkDeck {
  deck_id : Z;
  deck_dyn : bool;
  newToday : Z * Z;
  revToday : Z * Z;
  lrnToday : Z * Z;
  timeToday : Z * Z;
  deck_rev_perDay : Z;          (* confForDid(id)['rev']['perDay'] *)
  deck_perDay : option Z        (* confForDid(id).get('perDay') *)
}.

Record Note : Type := mkNote {
  note_id : Z;
  tags : list string
}.

(** A row of the review log, as [_logRev] inserts it. *)
Record RevlogRow : Type := mkRevlog {
  rl_id : Z;
  rl_cid : Z;
  rl_usn : Z;
  rl_ease : Z;
  rl_ivl : num;
  rl_lastIvl : Z;
  rl_factor : Z;
  rl_time : Z;
  rl_type : Z
}.

(** [sqlite3] binds a Python int as a signed 64-bit integer and raises
    OverflowError when it does not fit; a float is bound as it is. *)
Definition sqlite_int (z : Z) : bool := (- 2 ^ 63 <=? z) && (z <? 2 ^ 63).

Definition sqlite_num (x : num) : bool :=
  match x with
  | PInt z => sqlite_int z
  | PFloat _ => true
  end.

(** Every value of the row can be bound. *)
Definition sqlite_row (r : RevlogRow) : bool :=
  sqlite_int (rl_id r) && sqlite_int (rl_cid r) && sqlite_int (rl_usn r)
  && sqlite_int (rl_ease r) && sqlite_num (rl_ivl r)
  && sqlite_int (rl_lastIvl r) && sqlite_int (rl_factor r)
  && sqlite_int (rl_time r) && sqlite_int (rl_type r).

(** ** The collection *)

Record Collection : Type := mkCol {
  cards : list Card;             (* table cards, in storage order *)
  notes : list Note;
  revlog : list RevlogRow;
  undo : list Card;              (* what col.markReview records *)
  decks : list Deck;             (* col.decks.all() *)
  active : list Z;               (* col.decks.active() *)
  crt : Z;
  col_usn : Z;                   (* col.usn() *)
  collapseTime : num;            (* col.conf['collapseTime'] *)
  lastUnburied : option Z        (* col.conf.get('lastUnburied') *)
}.

Definition set_cards (v : list Card) (c : Collection) : Collection :=
  mkCol v (notes c) (revlog c) (undo c) (decks c) (active c) (crt c)
        (col_usn c) (collapseTime c) (lastUnburied c).
Definition set_notes (v : list Note) (c : Collection) : Collection :=
  mkCol (cards c) v (revlog c) (undo c) (decks c) (active c) (crt c)
        (col_usn c) (collapseTime c) (lastUnburied c).
Definition set_revlog (v : list RevlogRow) (c : Collection) : Collection :=
  mkCol (cards c) (notes c) v (undo c) (decks c) (active c) (crt c)
        (col_usn c) (collapseTime c) (lastUnburied c).
Definition set_undo (v : list Card) (c : Collection) : Collection :=
  mkCol (cards c) (notes c) (revlog c) v (decks c) (active c) (crt c)
        (col_usn c) (collapseTime c) (lastUnburied c).
Definition set_decks (v : list Deck) (c : Collection) : Collection :=
  mkCol (cards c) (notes c) (revlog c) (undo c) v (active c) (crt c)
        (col_usn c) (collapseTime c) (lastUnburied c).
Definition set_lastUnburied (v : option Z) (c : Collection) : Collection :=
  mkCol (cards c) (notes c) (revlog c) (undo c) (decks c) (active c)
        (crt c) (col_usn c) (collapseTime c) v.

(** ** The scheduler object *)

(** The attributes of the scheduler that sched.py reads or writes, and the
    process-wide state its methods consult: the wall clock ([time.time()],
    the [ticks]-th reading is [clock ticks]), the state of the global random
    generator, the profile option read through [aqt.mw], and the hooks run
    so far. *)
Record Scheduler : Type := mkSched {
  col : Collection;
  today : Z;
  dayCutoff : Z;
  newCount : Z;
  lrnCount : Z;
  revCount : Z;
  _lrnQueue : list (Z * Z);      (* heap of (due, id) *)
  _revQueue : list Z;            (* consumed by pop() from the end *)
  _revDids : list Z;
  queueLimit : Z;
  reportLimit : Z;
  _spreadRev : bool;
  _burySiblingsOnAnswer : bool;
  clock : nat -> float;
  ticks : nat;
  rng : Z;
  limitAllCards : option bool;   (* None: no main window ([mw] is None) *)
  hooks : list string
}.

Definition set_col (v : Collection) (s : Scheduler) : Scheduler :=
  mkSched v (today s) (dayCutoff s) (newCount s) (lrnCount s) (revCount s)
          (_lrnQueue s) (_revQueue s) (_revDids s) (queueLimit s)
          (reportLimit s) (_spreadRev s) (_burySiblingsOnAnswer s) (clock s)
          (ticks s) (rng s) (limitAllCards s) (hooks s).
Definition set_today (v : Z) (s : Scheduler) : Scheduler :=
  mkSched (col s) v (dayCutoff s) (newCount s) (lrnCount s) (revCount s)
          (_lrnQueue s) (_revQueue s) (_revDids s) (queueLimit s)
          (reportLimit s) (_spreadRev s) (_burySiblingsOnAnswer s) (clock s)
          (ticks s) (rng s) (limitAllCards s) (hooks s).
Definition set_dayCutoff (v : Z) (s : Scheduler) : Scheduler :=
  mkSched (col s) (today s) v (newCount s) (lrnCount s) (revCount s)
          (_lrnQueue s) (_revQueue s) (_revDids s) (queueLimit s)
          (reportLimit s) (_spreadRev s) (_burySiblingsOnAnswer s) (clock s)
          (ticks s) (rng s) (limitAllCards s) (hooks s).
Definition set_lrnCount (v : Z) (s : Scheduler) : Scheduler :=
  mkSched (col s) (today s) (dayCutoff s) (newCount s) v (revCount s)
          (_lrnQueue s) (_revQueue s) (_revDids s) (queueLimit s)
          (reportLimit s) (_spreadRev s) (_burySiblingsOnAnswer s) (clock s)
          (ticks s) (rng s) (limitAllCards s) (hooks s).
Definition set_lrnQueue (v : list (Z * Z)) (s : Scheduler) : Scheduler :=
  mkSched (col s) (today s) (dayCutoff s) (newCount s) (lrnCount s)
          (revCount s) v (_revQueue s) (_revDids s) (queueLimit s)
          (reportLimit s) (_spreadRev s) (_burySiblingsOnAnswer s) (clock s)
          (ticks s) (rng s) (limitAllCards s) (hooks s).
Definition set_revQueue (v : list Z) (s : Scheduler) : Scheduler :=
  mkSched (col s) (today s) (dayCutoff s) (newCount s) (lrnCount s)
          (revCount s) (_lrnQueue s) v (_revDids s) (queueLimit s)
          (reportLimit s) (_spreadRev s) (_burySiblingsOnAnswer s) (clock s)
          (ticks s) (rng s) (limitAllCards s) (hooks s).
Definition set_revDids (v : list Z) (s : Scheduler) : Scheduler :=
  mkSched (col s) (today s) (dayCutoff s) (newCount s) (lrnCount s)
          (revCount s) (_lrnQueue s) (_revQueue s) v (queueLimit s)
          (reportLimit s) (_spreadRev s) (_burySiblingsOnAnswer s) (clock s)
          (ticks s) (rng s) (limitAllCards s) (hooks s).
Definition set_ticks (v : nat) (s : Scheduler) : Scheduler :=
  mkSched (col s) (today s) (dayCutoff s) (newCount s) (lrnCount s)
          (revCount s) (_lrnQueue s) (_revQueue s) (_revDids s) (queueLimit s)
          (reportLimit s) (_spreadRev s) (_burySiblingsOnAnswer s) (clock s)
          v (rng s) (limitAllCards s) (hooks s).
Definition set_rng (v : Z) (s : Scheduler) : Scheduler :=
  mkSched (col s) (today s) (dayCutoff s) (newCount s) (lrnCount s)
          (revCount s) (_lrnQueue s) (_revQueue s) (_revDids s) (queueLimit s)
          (reportLimit s) (_spreadRev s) (_burySiblingsOnAnswer s) (clock s)
          (ticks s) v (limitAllCards s) (hooks s).
Definition set_hooks (v : list string) (s : Scheduler) : Scheduler :=
  mkSched (col s) (today s) (dayCutoff s) (newCount s) (lrnCount s)
          (revCount s) (_lrnQueue s) (_revQueue s) (_revDids s) (queueLimit s)
          (reportLimit s) (_spreadRev s) (_burySiblingsOnAnswer s) (clock s)
          (ticks s) (rng s) (limitAllCards s) v.

(** ** A state-and-exception monad

    A method runs on a state and either returns a value with the new state
    or raises, leaving the state as it was when the exception left. *)

Inductive outcome (St A : Type) : Type :=
| Return (a : A) (s : St)
| Raise (e : exn) (s : St).
Arguments Return {St A} a s.
Arguments Raise {St A} e s.

Definition M (St A : Type) : Type := St -> outcome St A.

Definition ret {St A} (a : A) : M St A := fun s => Return a s.

Definition bind {St A B} (m : M St A) (k : A -> M St B) : M St B :=
  fun s => match m s with
           | Return a s' => k a s'
           | Raise e s' => Raise e s'
           end.

Definition raise {St A} (e : exn) : M St A := fun s => Raise e s.

Definition get {St} : M St St := fun s => Return s s.
Definition modify {St} (f : St -> St) : M St unit := fun s => Return tt (f s).

(** [try: m  except: h] *)
Definition try_except {St A} (m : M St A) (h : M St A) : M St A :=
  fun s => match m s with
           | Return a s' => Return a s'
           | Raise _ s' => h s'
           end.

Definition of_exc {St A} (x : exc A) : M St A :=
  match x with
  | inl e => raise e
  | inr a => ret a
  end.

Declare Scope py_scope.
Delimit Scope py_scope with py.
Notation "x <- m ;; k" := (bind m (fun x => k))
  (at level 61, m at next level, right associativity) : py_scope.
Notation "m ;; k" := (bind m (fun _ => k))
  (at level 61, right associativity) : py_scope.
Notation "'when' b 'then' m" := (if b then m else ret tt)
  (at level 60, b at level 9, m at level 59) : py_scope.
Local Open Scope py_scope.

(** The objects an answer works on: the scheduler and the card object. *)
Definition Heap : Type := (Scheduler * Card)%type.

Definition the_card : M Heap Card := fun h => Return (snd h) h.
Definition the_sched : M Heap Scheduler := fun h => Return (fst h) h.
Definition upd_card (f : Card -> Card) : M Heap unit :=
  fun h => Return tt (fst h, f (snd h)).
Definition upd_sched (f : Scheduler -> Scheduler) : M Heap unit :=
  fun h => Return tt (f (fst h), snd h).

(** Run a scheduler method while a card object is live. *)
Definition on_sched {A} (m : M Scheduler A) : M Heap A :=
  fun h => match m (fst h) with
           | Return a s' => Return a (s', snd h)
           | Raise e s' => Raise e (s', snd h)
           end.

(** [time.time()] *)
Definition time_time : M Scheduler float :=
  fun s => Return (clock s (ticks s)) (set_ticks (S (ticks s)) s).

(** ** Inherited methods and collaborators

    sched.py starts with [from anki.bothSched import *] and extends
    [BothScheduler]; it also calls the collection, the deck manager, and
    the card and note classes.  What sched.py calls of them and the spec
    does not pin down is a field of this interface.  The properties below
    hold for every implementation of it. *)
Record BothScheduler : Type := mkBoth {
  (* configuration resolution *)
  (* configuration resolution, from the decks and the ids [did], [odid]
     of the card: _cardConf, _lapseConf, _revConf, _newConf['delays'] *)
  conf_card : list Deck -> Z -> DeckConf;
  conf_lapse : list Deck -> Z -> Z -> LapseConf;
  conf_rev : list Deck -> Z -> Z -> RevConf;
  conf_new_delays : list Deck -> Z -> Z -> list num;
  (* interval fuzz: generator state and ideal interval to fuzzed interval
     and next generator state *)
  _fuzzedIvl : Z -> Z -> Z * Z;
  (* learning steps *)
  _delayForGrade : LapseConf -> Z -> num;
  _leftToday : Scheduler -> list num -> Z -> Z;
  (* statistics (the daily counters of the decks), undo and timing *)
  stats_update : Card -> string -> Z -> list Deck -> list Deck;
  undo_mark : Card -> list Card -> list Card;
  timeTaken : Scheduler -> Card -> Z;
  (* queue building *)
  super_fillLrn : Z -> M Scheduler bool;
  _getNewCard : M Scheduler (option Card);
  _getLrnDayCard : M Scheduler (option Card);
  _timeForNewCard : M Scheduler bool;
  super_resetRev : Scheduler -> Scheduler;
  _deckNewLimit : list Deck -> Z -> (Deck -> Z) -> Z;
  (* random.Random().seed(seed); shuffle(l) *)
  shuffle : Z -> list Z -> list Z;
  (* col.findCards(search, order): None when the search raises *)
  findCards : Collection -> string -> string -> option (list Z);
  _dynOrder : Z -> Z -> string
}.

(** ** Helpers on Python lists and tables *)

(** [l[i]] with Python's negative indices. *)
Definition py_index {A} (l : list A) (i : Z) : exc A :=
  let n := Z.of_nat (List.length l) in
  let j := if i <? 0 then i + n else i in
  if (j <? 0) || (n <=? j) then inl IndexError
  else match nth_error l (Z.to_nat j) with
       | Some a => inr a
       | None => inl IndexError
       end.

Definition mem (x : Z) (l : list Z) : bool := existsb (Z.eqb x) l.

(** [update cards set ... where ...]: every row that satisfies [where_]
    is rewritten by [set_], the others are kept, in storage order. *)
Definition sql_update (where_ : Card -> bool) (set_ : Card -> Card)
    (rows : list Card) : list Card :=
  map (fun c => if where_ c then set_ c else c) rows.

(** [select id from cards where ... limit ?] *)
Definition sql_select_ids (where_ : Card -> bool) (limit : Z)
    (rows : list Card) : list Z :=
  let found := map id (filter where_ rows) in
  if limit <? 0 then found (* a negative LIMIT is no limit *)
  else firstn (Z.to_nat limit) found.

(** [heappush] and [heappop] on a list kept sorted: the head is the least
    pair, as [heap[0]] is for heapq. *)
Definition pair_leb (a b : Z * Z) : bool :=
  (fst a <? fst b) || ((fst a =? fst b) && (snd a <=? snd b)).

Fixpoint heappush (h : list (Z * Z)) (x : Z * Z) : list (Z * Z) :=
  match h with
  | [] => [x]
  | y :: t => if pair_leb x y then x :: y :: t else y :: heappush t x
  end.

(** Modelled from the spec: the query of [_fillRev] has no ORDER BY and
    takes its rows as the database returns them, "SQL ascending" by [due]
    (the cards table is indexed on did, queue and due, and rows of equal
    due follow their row id).  [by_due] puts the rows in that order. *)
Fixpoint insert_due (c : Card) (l : list Card) : list Card :=
  match l with
  | [] => [c]
  | x :: t =>
      if pair_leb (due c, id c) (due x, id x) then c :: x :: t
      else x :: insert_due c t
  end.

Definition by_due (rows : list Card) : list Card :=
  fold_right insert_due [] rows.


(** Modelled from the spec: [card.flushSched()] ("Writing a Card flushes")
    writes the card object over its row. *)
Definition flushSched (card : Card) (s : Scheduler) : Scheduler :=
  set_col (set_cards
             (sql_update (fun c => id c =? id card) (fun _ => card)
                         (cards (col s))) (col s)) s.

(** Modelled from the spec: [intTime()] of [anki.utils] is the clock in
    whole seconds ("Clock: time_s()"). *)
Definition intTime : M Scheduler Z :=
  t <- time_time ;; of_exc (int_of_float t).

(** Modelled from the spec: [note.addTag(tag); note.flush()] ("tag the note
    leech"); the note class itself is in anki.notes. *)
Definition addTag (n : Z) (tag : string) (s : Scheduler) : Scheduler :=
  set_col (set_notes
    (map (fun x => if note_id x =? n
                   then if existsb (String.eqb tag) (tags x) then x
                        else mkNote (note_id x) (tags x ++ [tag])
                   else x)
         (notes (col s))) (col s)) s.

Definition runHook (name : string) (s : Scheduler) : Scheduler :=
  set_hooks (hooks s ++ [name]) s.

(** ** The methods of [class Scheduler] *)

Section Sched.

Variable B : BothScheduler.

(** [_answerLrnCard] (sched.py, learning cards) is taken as given: no
    property established below looks into the learning steps. *)
Variable _answerLrnCard : Z -> M Heap unit.

(** *** Tools *)

(** [_cardConf], [_lapseConf], [_revConf] and the delays of [_newConf],
    of the base class. *)
Definition _cardConf (s : Scheduler) (card : Card) : DeckConf :=
  conf_card B (decks (col s)) (did card).
Definition _lapseConf (s : Scheduler) (card : Card) : LapseConf :=
  conf_lapse B (decks (col s)) (did card) (odid card).
Definition _revConf (s : Scheduler) (card : Card) : RevConf :=
  conf_rev B (decks (col s)) (did card) (odid card).
Definition _newConf_delays (s : Scheduler) (card : Card) : list num :=
  conf_new_delays B (decks (col s)) (did card) (odid card).

(** [_updateStats] of the base class and [col.markReview]. *)
Definition _updateStats (card : Card) (key : string) (cnt : Z)
    (s : Scheduler) : Scheduler :=
  set_col (set_decks (stats_update B card key cnt (decks (col s)))
                     (col s)) s.
Definition markReview (card : Card) (s : Scheduler) : Scheduler :=
  set_col (set_undo (undo_mark B card (undo (col s))) (col s)) s.

(** [_resched] *)
Definition _resched (s : Scheduler) (card : Card) : bool :=
  let conf := _cardConf s card in
  if negb (dyn conf) then true else resched conf.

(** Modelled from the spec: [_daysLate] of the base class is
    "delay_days = max(0, today - due)". *)
Definition _daysLate (s : Scheduler) (card : Card) : Z :=
  Z.max 0 (today s - due card).

(** *** Interval management *)

(** [_constrainedIvl] *)
Definition _constrainedIvl (ivl_ : num) (conf : RevConf) (prev : Z)
  : exc Z :=
  ebind (mul ivl_ (match ivlFct conf with Some f => f | None => PInt 1 end))
        (fun new => py_int (max2 new (PInt (prev + 1)))).

(** [_nextRevIvl]; an ease other than 2, 3, 4 leaves [interval] unbound
    (an UnboundLocalError, a NameError). *)
Definition _nextRevIvl (s : Scheduler) (card : Card) (ease : Z) : exc Z :=
  let delay := _daysLate s card in
  let conf := _revConf s card in
  ebind (truediv (PInt (factor card)) (PInt 1000)) (fun fct =>
  ebind (mul (PInt (ivl card + delay / 4)) (PFloat f1_2)) (fun x2 =>
  ebind (_constrainedIvl x2 conf (ivl card)) (fun ivl2 =>
  ebind (mul (PInt (ivl card + delay / 2)) fct) (fun x3 =>
  ebind (_constrainedIvl x3 conf ivl2) (fun ivl3 =>
  ebind (mul (PInt (ivl card + delay)) fct) (fun x4' =>
  ebind (mul x4' (ease4 conf)) (fun x4 =>
  ebind (_constrainedIvl x4 conf ivl3) (fun ivl4 =>
  ebind (if ease =? BUTTON_TWO then inr ivl2
         else if ease =? BUTTON_THREE then inr ivl3
         else if ease =? BUTTON_FOUR then inr ivl4
         else inl UnboundLocalError) (fun interval =>
  inr (Z.min interval (maxIvl conf))))))))))).

(** [_adjRevIvl] *)
Definition _adjRevIvl (idealIvl : Z) : M Heap Z :=
  s <- the_sched ;;
  if _spreadRev s then
    let (fuzzed, g) := _fuzzedIvl B (rng s) idealIvl in
    upd_sched (set_rng g) ;; ret fuzzed
  else ret idealIvl.

(** [_updateRevIvl] *)
Definition _updateRevIvl (ease : Z) : M Heap unit :=
  s <- the_sched ;;
  card <- the_card ;;
  idealIvl <- of_exc (_nextRevIvl s card ease) ;;
  fuzzedIvl <- _adjRevIvl idealIvl ;;
  let increasedIvl := Z.max fuzzedIvl (ivl card + 1) in
  upd_card (set_ivl (Z.min increasedIvl
                           (maxIvl (_revConf s card)))).

(** [_nextLapseIvl] *)
Definition _nextLapseIvl (card : Card) (conf : LapseConf) : exc Z :=
  ebind (mul (PInt (ivl card)) (mult conf)) (fun p =>
  ebind (py_int p) (fun t => inr (Z.max (minInt conf) t))).

(** [_dynIvlBoost] *)
Definition _dynIvlBoost (s : Scheduler) (card : Card) : exc Z :=
  if negb (negb (odid card =? 0) && CardType_eqb (type card) CARD_DUE)
  then inl AssertionError
  else if factor card =? 0 then inl AssertionError
  else
    let lastReview := odue card - ivl card in
    let elapsed := today s - lastReview in
    ebind (truediv (PInt (factor card)) (PInt 1000)) (fun f0 =>
    ebind (add f0 (PFloat f1_2)) (fun f1 =>
    ebind (truediv f1 (PInt 2)) (fun factor_ =>
    ebind (mul (PInt elapsed) factor_) (fun e =>
    ebind (py_int (max2 (max2 (PInt (ivl card)) e) (PInt 1))) (fun ivl_ =>
    inr (Z.min (maxIvl (_revConf s card)) ivl_)))))).

(** [_startingLeft]; both branches of the source end in the lapse
    configuration for a review card and in the new-card configuration
    otherwise ([_lrnConf]). *)
Definition _startingLeft (s : Scheduler) (card : Card) : Z :=
  let delays_ :=
    if CardType_eqb (type card) CARD_DUE
    then delays (_lapseConf s card)
    else _newConf_delays s card in
  let tot := Z.of_nat (List.length delays_) in
  let tod := _leftToday B s delays_ tot in
  tot + tod * 1000.

(** *** Answering a review card *)

(** [_rescheduleRev] *)
Definition _rescheduleRev (ease : Z) : M Heap unit :=
  card <- the_card ;;
  upd_card (set_lastIvl (ivl card)) ;;
  s <- the_sched ;;
  card <- the_card ;;
  (if _resched s card then
     _updateRevIvl ease ;;
     adj <- of_exc (py_index [-150; 0; 150] (ease - 2)) ;;
     card <- the_card ;;
     upd_card (set_factor (Z.max 1300 (factor card + adj))) ;;
     s <- the_sched ;;
     card <- the_card ;;
     upd_card (set_due (today s + ivl card))
   else
     upd_card (set_due (odue card))) ;;
  card <- the_card ;;
  when (negb (odid card =? 0)) then
    (upd_card (set_did (odid card)) ;;
     upd_card (set_odid 0) ;;
     upd_card (set_odue 0)).

(** [_checkLeech]: "Leech handler. True if card was a leech." *)
Definition _checkLeech (conf : LapseConf) : M Heap bool :=
  card <- the_card ;;
  let lf := leechFails conf in
  if lf =? 0 then ret false
  else if (lf <=? lapses card)
          && ((lapses card - lf) mod (Z.max (lf / 2) 1) =? 0) then
    upd_sched (addTag (nid card) "leech") ;;
    when (LeechAction_eqb (leechAction conf) LEECH_SUSPEND) then
      (when (negb (odue card =? 0)) then upd_card (set_due (odue card)) ;;
       when (negb (odid card =? 0)) then upd_card (set_did (odid card)) ;;
       upd_card (set_odue 0) ;;
       upd_card (set_odid 0) ;;
       upd_card (set_queue QUEUE_SUSPENDED)) ;;
    upd_sched (runHook "leech") ;;
    ret true
  else ret false.

(** [_rescheduleLapse]: returns the delay in seconds until the card is
    shown again, 0 when it is not put back into learning. *)
Definition _rescheduleLapse : M Heap num :=
  s <- the_sched ;;
  card <- the_card ;;
  let conf := _lapseConf s card in
  upd_card (set_lastIvl (ivl card)) ;;
  card <- the_card ;;
  when (_resched s card) then
    (upd_card (set_lapses (lapses card + 1)) ;;
     card <- the_card ;;
     newIvl <- of_exc (_nextLapseIvl card conf) ;;
     upd_card (set_ivl newIvl) ;;
     upd_card (set_factor (Z.max 1300 (factor card - 200))) ;;
     card <- the_card ;;
     upd_card (set_due (today s + ivl card)) ;;
     card <- the_card ;;
     when (negb (odid card =? 0)) then upd_card (set_odue (due card))) ;;
  leech <- _checkLeech conf ;;
  card <- the_card ;;
  if leech && Queue_eqb (queue card) QUEUE_SUSPENDED then ret (PInt 0)
  else
  match delays conf with
  | [] => ret (PInt 0)
  | _ :: _ =>
    when (odue card =? 0) then upd_card (set_odue (due card)) ;;
    let delay := _delayForGrade B conf 0 in
    now <- on_sched time_time ;;
    d <- of_exc (ebind (add delay (PFloat now)) py_int) ;;
    upd_card (set_due d) ;;
    s <- the_sched ;;
    card <- the_card ;;
    upd_card (set_left (_startingLeft s card)) ;;
    card <- the_card ;;
    (if due card <? dayCutoff s then
       upd_sched (fun s => set_lrnCount (lrnCount s + left card / 1000) s) ;;
       upd_card (set_queue QUEUE_LRN) ;;
       upd_sched (fun s =>
         set_lrnQueue (heappush (_lrnQueue s) (due card, id card)) s)
     else
       let ahead := (due card - dayCutoff s) / 86400 + 1 in
       upd_card (set_due (today s + ahead)) ;;
       upd_card (set_queue QUEUE_DAY_LRN)) ;;
    ret delay
  end.

(** [_logRev]: "Log this review. Retry once if failed."  The insert
    fails with OverflowError when a value does not fit SQLite's integers
    and with IntegrityError when the id is taken. *)
Definition _logRev (ease : Z) (delay : num) : M Heap unit :=
  let log : M Heap unit :=
    now <- on_sched time_time ;;
    ms <- of_exc (ebind (mul (PFloat now) (PInt 1000)) py_int) ;;
    s <- the_sched ;;
    card <- the_card ;;
    let row :=
      mkRevlog ms (id card) (col_usn (col s)) ease
               (if truthy (neg delay) then neg delay else PInt (ivl card))
               (lastIvl card) (factor card) (timeTaken B s card) 1 in
    if negb (sqlite_row row) then raise OverflowError
    else if existsb (fun r => rl_id r =? ms) (revlog (col s))
    then raise IntegrityError
    else upd_sched (fun s =>
           set_col (set_revlog (revlog (col s) ++ [row]) (col s)) s)
  in
  try_except log log.

(** [_answerRevCard] *)
Definition _answerRevCard (ease : Z) : M Heap unit :=
  delay <- (if ease =? BUTTON_ONE then _rescheduleLapse
            else _rescheduleRev ease ;; ret (PInt 0)) ;;
  _logRev ease delay.

(** *** Sibling spacing *)

(** Modelled from the spec: [BothScheduler._burySiblings] returns the
    cards to bury, "all cards of the answered note with queue in
    {NEW, REVIEW} and id /= answered.id". *)
Definition super_burySiblings (card : Card) (s : Scheduler) : list Z :=
  map id
    (filter (fun c => (nid c =? nid card) && negb (id c =? id card)
                      && (Queue_eqb (queue c) QUEUE_NEW_CRAM
                          || Queue_eqb (queue c) QUEUE_REV))
            (cards (col s))).

(** [_burySiblings] *)
Definition _burySiblings (card : Card) : M Scheduler unit :=
  s <- get ;;
  let toBury := super_burySiblings card s in
  match toBury with
  | [] => ret tt
  | _ :: _ =>
      t <- intTime ;;
      modify (fun s =>
        set_col (set_cards
          (sql_update (fun c => mem (id c) toBury)
             (fun c => set_usn (col_usn (col s))
                         (set_mod t (set_queue QUEUE_USER_BURIED c)))
             (cards (col s))) (col s)) s)
  end.

(** [unburyCards]: "Unbury cards." *)
Definition unburyCards (s : Scheduler) : Scheduler :=
  let c := set_lastUnburied (Some (today s)) (col s) in
  set_col (set_cards
    (sql_update (fun c => Queue_eqb (queue c) QUEUE_USER_BURIED)
                (fun c => set_queue (queue_of_type (type c)) c)
                (cards c)) c) s.

(** *** Answering *)

(** [answerCard] *)
Definition answerCard (ease : Z) : M Heap unit :=
  if negb ((1 <=? ease) && (ease <=? 4)) then raise AssertionError else
  card <- the_card ;;
  upd_sched (markReview card) ;;
  s <- the_sched ;;
  when (_burySiblingsOnAnswer s) then on_sched (_burySiblings card) ;;
  upd_card (set_reps (reps card + 1)) ;;
  upd_card (set_wasNew (CardType_eqb (type card) CARD_NEW)) ;;
  let wasNewQ := Queue_eqb (queue card) QUEUE_NEW_CRAM in
  when wasNewQ then
    (upd_card (set_queue QUEUE_LRN) ;;
     when (CardType_eqb (type card) CARD_NEW) then
       upd_card (set_type CARD_LRN) ;;
     s <- the_sched ;;
     card <- the_card ;;
     upd_card (set_left (_startingLeft s card)) ;;
     card <- the_card ;;
     when (negb (odid card =? 0) && CardType_eqb (type card) CARD_DUE) then
       (when (_resched s card) then
          (boost <- of_exc (_dynIvlBoost s card) ;;
           upd_card (set_ivl boost) ;;
           upd_card (set_odue (today s + boost)))) ;;
     card <- the_card ;;
     upd_sched (_updateStats card "new" 1)) ;;
  card <- the_card ;;
  (if Queue_eqb (queue card) QUEUE_LRN
      || Queue_eqb (queue card) QUEUE_DAY_LRN then
     _answerLrnCard ease ;;
     when (negb wasNewQ) then
       (card <- the_card ;; upd_sched (_updateStats card "lrn" 1))
   else if Queue_eqb (queue card) QUEUE_REV then
     _answerRevCard ease ;;
     card <- the_card ;;
     upd_sched (_updateStats card "rev" 1)
   else raise InvalidQueue) ;;
  s <- the_sched ;;
  card <- the_card ;;
  upd_sched (_updateStats card "time" (timeTaken B s card)) ;;
  t <- on_sched intTime ;;
  upd_card (set_mod t) ;;
  s <- the_sched ;;
  upd_card (set_usn (col_usn (col s))) ;;
  card <- the_card ;;
  upd_sched (flushSched card).

(** *** Daily cutoff *)

Definition roll (today_ : Z) (x : Z * Z) : Z * Z :=
  if fst x =? today_ then x else (today_, 0).

(** [_updateCutoff] *)
Definition _updateCutoff : M Scheduler unit :=
  now <- time_time ;;
  s <- get ;;
  d <- of_exc (ebind (sub (PFloat now) (PInt (crt (col s)))) (fun e =>
               ebind (floordiv e (PInt 86400)) py_int)) ;;
  modify (set_today d) ;;
  modify (fun s => set_dayCutoff (crt (col s) + (today s + 1) * 86400) s) ;;
  modify (fun s =>
    set_col (set_decks
      (map (fun g => mkDeck (deck_id g) (deck_dyn g)
                            (roll (today s) (newToday g))
                            (roll (today s) (revToday g))
                            (roll (today s) (lrnToday g))
                            (roll (today s) (timeToday g))
                            (deck_rev_perDay g) (deck_perDay g))
           (decks (col s))) (col s)) s) ;;
  s <- get ;;
  let unburied := match lastUnburied (col s) with
                  | Some u => u
                  | None => 0
                  end in
  when (unburied <? today s) then modify unburyCards.

(** *** Getting the next card *)



(** [_deckRevLimitSingle] *)
Definition _deckRevLimitSingle (s : Scheduler) (sync : bool) (deck : Deck)
  : Z :=
  if deck_dyn deck then reportLimit s
  else
    let nbRevToSee := deck_rev_perDay deck - snd (revToday deck) in
    let limit :=
      if negb sync && match limitAllCards s with
                      | Some b => b
                      | None => false
                      end
      then
        let nbCardToSee :=
          match deck_perDay deck with Some n => n | None => 1000 end
          - snd (revToday deck) - snd (newToday deck) in
        Z.min nbRevToSee nbCardToSee
      else nbRevToSee in
    Z.max 0 limit.

(** [_deckRevLimit] *)
Definition _deckRevLimit (s : Scheduler) (did_ : Z) : Z :=
  _deckNewLimit B (decks (col s)) did_ (_deckRevLimitSingle s false).


(** [col.decks.get(did)['dyn']]; an unknown id resolves to the default
    deck, which is a regular one. *)
Definition deck_is_dyn (s : Scheduler) (did_ : Z) : bool :=
  match find (fun g => deck_id g =? did_) (decks (col s)) with
  | Some g => deck_dyn g
  | None => false
  end.

(** The loop [while self._revDids] of [_fillRev]: every turn returns or
    pops the first deck id, so the recursion is on the ids left.  [true]
    is the [return True] of the loop body, [false] its normal end. *)
Fixpoint fillRev_loop (dids : list Z) : M Scheduler bool :=
  match dids with
  | [] => ret false
  | did_ :: rest =>
      s <- get ;;
      let lim := Z.min (queueLimit s) (_deckRevLimit s did_) in
      if negb (lim =? 0) then
        let fetched :=
          sql_select_ids
            (fun c => (did c =? did_) && Queue_eqb (queue c) QUEUE_REV
                      && (due c <=? today s))
            lim (by_due (cards (col s))) in
        modify (set_revQueue fetched) ;;
        match fetched with
        | _ :: _ =>
            (if deck_is_dyn s did_
             then modify (set_revQueue (rev fetched))
             else modify (set_revQueue (shuffle B (today s) fetched))) ;;
            when (Z.of_nat (List.length fetched) <? lim) then
              modify (set_revDids rest) ;;
            ret true
        | [] =>
            modify (set_revDids rest) ;;
            fillRev_loop rest
        end
      else
        modify (set_revDids rest) ;;
        fillRev_loop rest
  end.




(** *** Dynamic deck handling *)

(** [str.strip()] leaves something: some character is not white space.
    A string is read as its code points, all below 256 here; Python's
    white space among them is 9-13, 28-32, 133 (NEL) and 160 (no-break
    space). *)
Definition is_space (a : Ascii.ascii) : bool :=
  let n := Z.of_nat (Ascii.nat_of_ascii a) in
  ((9 <=? n) && (n <=? 13)) || ((28 <=? n) && (n <=? 32))
  || (n =? 133) || (n =? 160).

Fixpoint strip_nonempty (x : string) : bool :=
  match x with
  | EmptyString => false
  | String a r => negb (is_space a) || strip_nonempty r
  end.

(** [_moveToDyn]: one UPDATE per id, in order; every right-hand side
    reads the row as it was before that UPDATE. *)
Definition moveToDyn_row (did_ today_ due_ usn_ : Z) (c : Card) : Card :=
  let queue_ :=
    if CardType_eqb (type c) CARD_DUE
       && (if negb (odue c =? 0) then odue c <=? today_
           else due c <=? today_)
    then QUEUE_REV else QUEUE_NEW_CRAM in
  set_usn usn_
    (set_due due_
      (set_queue queue_
        (set_did did_
          (set_odue (if negb (odue c =? 0) then odue c else due c)
            (set_odid (if negb (odid c =? 0) then odid c else did c)
               c))))).

Fixpoint moveToDyn_rows (did_ today_ usn_ : Z) (c0 : Z) (ids : list Z)
    (rows : list Card) : list Card :=
  match ids with
  | [] => rows
  | i :: rest =>
      moveToDyn_rows did_ today_ usn_ (c0 + 1) rest
        (sql_update (fun c => id c =? i)
                    (moveToDyn_row did_ today_ (-100000 + c0) usn_) rows)
  end.

Definition _moveToDyn (did_ : Z) (ids : list Z) : M Scheduler unit :=
  _ <- intTime ;;
  modify (fun s =>
    set_col (set_cards
      (moveToDyn_rows did_ (today s) (col_usn (col s)) 0 ids
                      (cards (col s))) (col s)) s).

(** [_fillDyn]; [search], [limit], [order] are [deck['terms'][0]]. *)
Definition _fillDyn (did_ : Z) (search : string) (limit order : Z)
  : M Scheduler (list Z) :=
  let orderlimit := _dynOrder B order limit in
  let search1 :=
    if strip_nonempty search then ("(" ++ search ++ ")")%string
    else search in
  let search2 :=
    (search1 ++ " -is:suspended -is:buried -deck:filtered -is:learn")%string
  in
  s <- get ;;
  match findCards B (col s) search2 orderlimit with
  | None => ret []
  | Some ids => _moveToDyn did_ ids ;; ret ids
  end.

(** [emptyDyn]: "Moves cram cards to their deck"; [lim] is the optional
    condition that replaces [did = ?]. *)
Definition emptyDyn_row (usn_ : Z) (c : Card) : Card :=
  set_usn usn_
    (set_odid 0
      (set_odue 0
        (set_due (odue c)
          (set_type (if CardType_eqb (type c) CARD_LRN then CARD_NEW
                     else type c)
            (set_queue (if CardType_eqb (type c) CARD_LRN
                        then QUEUE_NEW_CRAM
                        else queue_of_type (type c))
              (set_did (odid c) c)))))).

Definition emptyDyn (did_ : Z) (lim : option (Card -> bool))
  : M Scheduler unit :=
  let where_ := match lim with
                | Some p => p
                | None => fun c => did c =? did_
                end in
  modify (fun s =>
    set_col (set_cards
      (sql_update where_ (emptyDyn_row (col_usn (col s))) (cards (col s)))
      (col s)) s).

End Sched.


(** ** Specification-side definitions *)

(** The exact value of a number, when it has one. *)
Definition num_value (x : num) : option Q :=
  match x with
  | PInt z => Some (inject_Z z)
  | PFloat f => fvalue f
  end.









(** ** Concrete configurations and states

    The scenarios of the spec, and small instances of the interface on
    which the methods can be run. *)

Definition f1_0 : float := Eval vm_compute in lit 1 1.
Definition f1_3 : float := Eval vm_compute in lit 13 10.
Definition f0_5 : float := Eval vm_compute in lit 1 2.

Definition demo_rev : RevConf :=
  mkRevConf 100 (PFloat f1_3) (Some (PFloat f1_0)) 36500.

Definition demo_lapse : LapseConf :=
  mkLapseConf [] (PFloat f0_5) 1 8 LEECH_SUSPEND.

Definition demo_fillLrn (cutoff : Z) : M Scheduler bool :=
  s <- get ;;
  ret (negb (lrnCount s =? 0) && negb (Nat.eqb (List.length (_lrnQueue s)) 0)).

Definition rotate (seed : Z) (l : list Z) : list Z :=
  let k := Z.to_nat (seed mod Z.max 1 (Z.of_nat (List.length l))) in
  skipn k l ++ firstn k l.

(** An instance: regular decks only, one configuration, no fuzz noise, a
    clock that starts at 1 700 000 000 s and advances one second a call. *)
Definition demo_base (lapse : LapseConf) (rev_ : RevConf) : BothScheduler :=
  mkBoth (fun _ _ => mkDeckConf false false)
         (fun _ _ _ => lapse)
         (fun _ _ _ => rev_)
         (fun _ _ _ => [PInt 1; PInt 10])
         (fun g i => (i + g mod 2, g + 1))
         (fun _ _ => PInt 60)
         (fun _ _ n => n)
         (fun _ _ _ d => d)
         (fun c u => c :: u)
         (fun _ _ => 5000)
         demo_fillLrn
         (ret None)
         (ret None)
         (ret false)
         (fun s => set_revQueue [] s)
         (fun _ _ f => 50)
         rotate
         (fun c _ _ => Some (map id (filter (fun x => odid x =? 0) (cards c))))
         (fun _ _ => "c.due"%string).

Definition demo_lrn (ease : Z) : M Heap unit := ret tt.

Definition demo_clock (n : nat) : float :=
  binary_normalize prec emax (1700000000 + Z.of_nat n) 0 false.

Definition demo_col (cs : list Card) (ns : list Note) : Collection :=
  mkCol cs ns [] []
        [mkDeck 1 false (100, 0) (100, 0) (100, 0) (100, 0) 100 None]
        [1] 1691360000 7 (PInt 1200) (Some 100).

Definition demo_sched (cs : list Card) (ns : list Note) (spread bury : bool)
  : Scheduler :=
  mkSched (demo_col cs ns) 100 1700086400 0 0 (Z.of_nat (List.length cs))
          [] [] [1] 50 1000 spread bury demo_clock 0 0 None [].

(** Scenario S3: a review card with ivl=10, factor=2500, due=today-2. *)
Definition s3_card : Card :=
  mkCard 1 1 1 CARD_DUE QUEUE_REV 98 10 2500 4 0 0 0 0 0 0 0 false.

Definition s3_sched : Scheduler :=
  demo_sched [s3_card] [mkNote 1 []] false false.


(** The heap an answer leaves, whether it returned or raised. *)
Definition heap_of {A} (o : outcome Heap A) : Heap :=
  match o with
  | Return _ h => h
  | Raise _ h => h
  end.

Definition s3_base : BothScheduler := demo_base demo_lapse demo_rev.

Abbreviation s3_answer ease :=
  (answerCard s3_base demo_lrn ease (s3_sched, s3_card)).

(** A review card whose interval has reached the cap [maxIvl] = 36500. *)
Definition cap_card : Card :=
  mkCard 1 1 1 CARD_DUE QUEUE_REV 100 36500 2500 9 0 0 0 0 0 0 0 false.

Definition cap_sched : Scheduler :=
  demo_sched [cap_card] [mkNote 1 []] false false.

Abbreviation cap_answer ease :=
  (answerCard s3_base demo_lrn ease (cap_sched, cap_card)).

(** The leech condition of the spec, on the threshold [lf] and the lapse
    count of the card. *)
Definition is_leech (lf lapses_ : Z) : Prop :=
  lf <> 0 /\ lf <= lapses_ /\ (lapses_ - lf) mod (Z.max (lf / 2) 1) = 0.

(** A card pulled out of cram or relearning: due date and deck restored
    from [odue] and [odid] when they are set, both cleared. *)
Definition unwound (c : Card) : Card :=
  let c1 := if odue c =? 0 then c else set_due (odue c) c in
  let c2 := if odid c =? 0 then c1 else set_did (odid c) c1 in
  set_odid 0 (set_odue 0 c2).

(** The card after the rescheduling block of a lapse, [n] being the new
    interval. *)
Definition lapsed_card (today_ n : Z) (c : Card) : Card :=
  let c1 := set_due (today_ + n)
              (set_factor (Z.max 1300 (factor c - 200))
                 (set_ivl n
                    (set_lapses (lapses c + 1)
                       (set_lastIvl (ivl c) c)))) in
  if odid c =? 0 then c1 else set_odue (today_ + n) c1.

(** A number with a non-negative exact value. *)
Definition num_nonneg (x : num) : Prop :=
  exists v, num_value x = Some v /\ (0 <= v)%Q.

(** Not a negative finite float. *)
Definition fsign_ok (f : float) : Prop :=
  match f with
  | S754_finite true _ _ => False
  | _ => True
  end.

(** Scenario S4: the eighth lapse of a card, threshold 8, action suspend,
    no relearning steps. *)
Definition s4_card : Card :=
  mkCard 1 1 1 CARD_DUE QUEUE_REV 100 10 2500 20 7 0 0 0 0 0 0 false.

Definition s4_sched : Scheduler :=
  demo_sched [s4_card] [mkNote 1 []] false false.

Abbreviation s4_answer :=
  (answerCard s3_base demo_lrn 1 (s4_sched, s4_card)).

(** The first lapse of the card of scenario S3, same configuration. *)
Abbreviation s3_lapse :=
  (answerCard s3_base demo_lrn 1 (s3_sched, s3_card)).


(** The order of the index: by due, then by id. *)
Definition due_le (a b : Card) : Prop :=
  pair_leb (due a, id a) (due b, id b) = true.

(** The rows a fill fetches for deck [did_]: review cards of the deck due
    today or earlier, at most [lim] of them, in the order of the query. *)
Definition rev_fetch (s : Scheduler) (did_ lim : Z) : list Z :=
  sql_select_ids
    (fun c => (did c =? did_) && Queue_eqb (queue c) QUEUE_REV
              && (due c <=? today s))
    lim (by_due (cards (col s))).

(** Three due review cards of deck 1, seen from two processes whose clock
    and random generator differ. *)
Definition due_cards : list Card :=
  [ mkCard 11 1 1 CARD_DUE QUEUE_REV 90 10 2500 4 0 0 0 0 0 0 0 false;
    mkCard 12 2 1 CARD_DUE QUEUE_REV 95 20 2300 6 1 0 0 0 0 0 0 false;
    mkCard 13 3 1 CARD_DUE QUEUE_REV 99 30 2100 8 2 0 0 0 0 0 0 false ].

Definition det_sched_a : Scheduler := demo_sched due_cards [] true false.


(** A computation that never raises the invalid-queue error. *)
Definition exc_ok {A} (x : exc A) : Prop :=
  forall e, x = inl e -> e <> InvalidQueue.

Definition never_invalid_queue {St A} (m : M St A) : Prop :=
  forall s e s', m s = Raise e s' -> e <> InvalidQueue.

(** The queues [answerCard] accepts. *)
Definition answerable (q : Queue) : Prop :=
  q = QUEUE_NEW_CRAM \/ q = QUEUE_LRN \/ q = QUEUE_DAY_LRN \/ q = QUEUE_REV.

(** The start of [answerCard], up to the sibling bury. *)
Definition answer_prelude (B : BothScheduler) (card : Card) (s : Scheduler)
  : outcome Scheduler unit :=
  if _burySiblingsOnAnswer s then _burySiblings card (markReview B card s)
  else Return tt (markReview B card s).

(** A suspended card handed to [answerCard], siblings to bury. *)
Definition susp_card : Card :=
  mkCard 21 5 1 CARD_DUE QUEUE_SUSPENDED 90 10 2500 4 0 0 0 0 0 0 0 false.

Definition susp_sibling : Card :=
  mkCard 22 5 1 CARD_NEW QUEUE_NEW_CRAM 3 0 0 0 0 0 0 0 0 0 0 false.

Definition susp_sched : Scheduler :=
  demo_sched [susp_card; susp_sibling] [mkNote 5 []] false true.

(** The scheduler an outcome leaves. *)
Definition state_of {A} (o : outcome Scheduler A) : Scheduler :=
  match o with
  | Return _ s => s
  | Raise _ s => s
  end.

(** A review card and a new sibling of the same note, sibling bury on. *)
Definition sib_card : Card :=
  mkCard 2 1 1 CARD_NEW QUEUE_NEW_CRAM 7 0 0 0 0 0 0 0 0 0 0 false.

Definition sib_sched : Scheduler :=
  demo_sched [s3_card; sib_card] [mkNote 1 []] false true.

Abbreviation sib_answer :=
  (answerCard s3_base demo_lrn 3 (sib_sched, s3_card)).

Abbreviation sib_buried := (_burySiblings s3_card sib_sched).

(** Filling filtered deck 9 with the three due cards, then emptying it. *)
Definition dyn_sched : Scheduler := demo_sched due_cards [] false false.

Abbreviation dyn_filled := (_fillDyn s3_base 9 "" 10 0 dyn_sched).

Abbreviation dyn_emptied := (emptyDyn 9 None (state_of dyn_filled)).

(** The value an outcome returns, if it returns. *)
Definition result_of {St A} (o : outcome St A) : option A :=
  match o with
  | Return a _ => Some a
  | Raise _ _ => None
  end.

(** ** Further methods of [class Scheduler]

    The methods of sched.py around the ones above: the interval preview,
    the graduation of a learning card, the bury, suspend and unbury
    commands, and the counters of the deck list. *)

Section SchedMore.

Variable B : BothScheduler.

(** Methods of the base class and of the deck manager that the methods
    below call: [remFromDyn], [forgetCards], [col.decks.allIds()],
    [col.nextID("pos")] and [_rescheduleNew]; [Conf] is the dictionary
    [_lrnConf] returns, which [_rescheduleAsRev] only hands on.
    [_nextLrnIvl], the preview of a learning step, belongs to the learning
    handler and is taken as given like [_answerLrnCard]. *)
Variable remFromDyn : list Z -> M Scheduler unit.
Variable forgetCards : list Z -> M Scheduler unit.
Variable allIds : Collection -> list Z.
Variable nextID_pos : M Scheduler Z.
Variable Conf : Type.
Variable _rescheduleNew : Conf -> bool -> M Heap unit.
Variable _nextLrnIvl : Z -> M Heap num.

(** *** Answer buttons and next-time reports *)

(** [len(self._lrnConf(card)['delays'])]: [_lrnConf] is the lapse
    configuration of a review card and the new-card configuration
    otherwise. *)
Definition _lrnConf_delays (s : Scheduler) (card : Card) : list num :=
  if CardType_eqb (type card) CARD_DUE then delays (_lapseConf B s card)
  else _newConf_delays B s card.

(** [answerButtons]: "The number of buttons to show in the reviewer". *)
Definition answerButtons (s : Scheduler) (card : Card) : Z :=
  if negb (odue card =? 0) then
    if negb (odid card =? 0) && Queue_eqb (queue card) QUEUE_REV
    then BUTTON_FOUR
    else if CardType_eqb (type card) CARD_NEW
            || CardType_eqb (type card) CARD_LRN
            || (1 <? Z.of_nat (List.length (_lrnConf_delays s card)))
    then BUTTON_THREE
    else BUTTON_TWO
  else if Queue_eqb (queue card) QUEUE_REV then BUTTON_FOUR
  else BUTTON_THREE.

(** [nextIvl]: "Return the next interval for CARD, in seconds." *)
Definition nextIvl (ease : Z) : M Heap num :=
  card <- the_card ;;
  s <- the_sched ;;
  if Queue_eqb (queue card) QUEUE_NEW_CRAM
     || Queue_eqb (queue card) QUEUE_LRN
     || Queue_eqb (queue card) QUEUE_DAY_LRN
  then _nextLrnIvl ease
  else if ease =? BUTTON_ONE then
    let conf := _lapseConf B s card in
    match delays conf with
    | d0 :: _ => of_exc (mul d0 (PInt 60))
    | [] =>
        r <- of_exc (_nextLapseIvl card conf) ;;
        ret (PInt (r * 86400))
    end
  else
    r <- of_exc (_nextRevIvl B s card ease) ;;
    ret (PInt (r * 86400)).

(** *** Graduation of a learning card *)

(** [_rescheduleAsRev]: "Change schedule for graduation." *)
Definition _rescheduleAsRev (conf : Conf) (early : bool) : M Heap unit :=
  card <- the_card ;;
  let lapse := CardType_eqb (type card) CARD_DUE in
  (if lapse then
     s <- the_sched ;;
     (if _resched B s card
      then upd_card (set_due (Z.max (today s + 1) (odue card)))
      else upd_card (set_due (odue card))) ;;
     upd_card (set_odue 0)
   else _rescheduleNew conf early) ;;
  upd_card (set_queue QUEUE_REV) ;;
  upd_card (set_type CARD_DUE) ;;
  s <- the_sched ;;
  card <- the_card ;;
  let resched_ := _resched B s card in
  when (negb (odid card =? 0)) then
    (upd_card (set_did (odid card)) ;;
     upd_card (set_odue 0) ;;
     upd_card (set_odid 0) ;;
     when (negb resched_ && negb lapse) then
       (upd_card (set_queue QUEUE_NEW_CRAM) ;;
        upd_card (set_type CARD_NEW) ;;
        pos <- on_sched nextID_pos ;;
        upd_card (set_due pos))).

(** *** Leaving the learning queues, suspending and burying *)

(** [queue in (QUEUE_LRN, QUEUE_DAY_LRN)] *)
Definition in_lrn_queues (c : Card) : bool :=
  Queue_eqb (queue c) QUEUE_LRN || Queue_eqb (queue c) QUEUE_DAY_LRN.

(** The condition [extra] of [removeLrn]: [id in ids] when the list is
    given and not empty, [did in allIds] otherwise ([if ids:] is false
    for None and for the empty list alike). *)
Definition lrn_extra (ids : option (list Z)) (all : list Z) (c : Card)
  : bool :=
  match ids with
  | Some (i :: l) => mem (id c) (i :: l)
  | _ => mem (did c) all
  end.

(** [removeLrn]: "Remove cards from the learning queues."  [ids] is None
    when the argument is left out. *)
Definition removeLrn (ids : option (list Z)) : M Scheduler unit :=
  s <- get ;;
  let extra := lrn_extra ids (allIds (col s)) in
  t <- intTime ;;
  modify (fun s =>
    set_col (set_cards
      (sql_update
         (fun c => in_lrn_queues c && CardType_eqb (type c) CARD_DUE
                   && extra c)
         (fun c => set_odue 0
                     (set_usn (col_usn (col s))
                        (set_mod t
                           (set_queue QUEUE_REV (set_due (odue c) c)))))
         (cards (col s))) (col s)) s) ;;
  s <- get ;;
  forgetCards
    (map id (filter (fun c => in_lrn_queues c && extra c) (cards (col s)))).

(** [update cards set queue=?,mod=?,usn=? where id in ids] *)
Definition set_queue_of (q : Queue) (ids : list Z) : M Scheduler unit :=
  t <- intTime ;;
  modify (fun s =>
    set_col (set_cards
      (sql_update (fun c => mem (id c) ids)
         (fun c => set_usn (col_usn (col s)) (set_mod t (set_queue q c)))
         (cards (col s))) (col s)) s).

(** [suspendCards]: "Suspend cards." *)
Definition suspendCards (ids : list Z) : M Scheduler unit :=
  remFromDyn ids ;;
  removeLrn (Some ids) ;;
  set_queue_of QUEUE_SUSPENDED ids.

(** [unsuspendCards]: "Unsuspend cards." *)
Definition unsuspendCards (ids : list Z) : M Scheduler unit :=
  t <- intTime ;;
  modify (fun s =>
    set_col (set_cards
      (sql_update
         (fun c => Queue_eqb (queue c) QUEUE_SUSPENDED && mem (id c) ids)
         (fun c => set_usn (col_usn (col s))
                     (set_mod t (set_queue (queue_of_type (type c)) c)))
         (cards (col s))) (col s)) s).

(** [buryCards] *)
Definition buryCards (cids : list Z) : M Scheduler unit :=
  remFromDyn cids ;;
  removeLrn (Some cids) ;;
  set_queue_of QUEUE_USER_BURIED cids.

(** [unburyCardsForDeck] *)
Definition unburyCardsForDeck : M Scheduler unit :=
  s <- get ;;
  let sids := active (col s) in
  t <- intTime ;;
  modify (fun s =>
    set_col (set_cards
      (sql_update
         (fun c => Queue_eqb (queue c) QUEUE_USER_BURIED && mem (did c) sids)
         (fun c => set_queue (queue_of_type (type c))
                     (set_usn (col_usn (col s)) (set_mod t c)))
         (cards (col s))) (col s)) s).

(** *** Counting the reviews of a deck *)

(** [_revForDeck]: "number of cards to review today for deck did". *)
Definition _revForDeck (s : Scheduler) (did_ lim : Z) : Z :=
  let lim := Z.min lim (reportLimit s) in
  Z.of_nat (List.length
    (sql_select_ids
       (fun c => (did c =? did_) && Queue_eqb (queue c) QUEUE_REV
                 && (due c <=? today s))
       lim (cards (col s)))).

End SchedMore.

(** ** Exceptions a computation can raise *)

(** Every exception [x] or [m] raises satisfies [P]. *)
Definition exc_only {A} (P : exn -> Prop) (x : exc A) : Prop :=
  forall e, x = inl e -> P e.

Definition raises_only {St A} (P : exn -> Prop) (m : M St A) : Prop :=
  forall s e s', m s = Raise e s' -> P e.

(** The failures of float arithmetic ([int()] of an infinity or a NaN,
    [float()] of too large an integer) and of a repeated key in the review
    log. *)
Definition arith_or_key (e : exn) : Prop :=
  e = OverflowError \/ e = ValueError \/ e = IntegrityError.

(** ** Instances and states for the further methods *)

(** Collaborators that do nothing, a deck manager that lists the ids of
    its decks, and a learning preview that always answers 0. *)
Definition demo_remFromDyn (ids : list Z) : M Scheduler unit := ret tt.
Definition demo_forgetCards (ids : list Z) : M Scheduler unit := ret tt.
Definition demo_allIds (c : Collection) : list Z := map deck_id (decks c).
Definition demo_nextID : M Scheduler Z := ret 7.
Definition demo_rescheduleNew (conf : unit) (early : bool) : M Heap unit :=
  ret tt.
Definition demo_nextLrnIvl (ease : Z) : M Heap num := ret (PInt 0).

(** A lapse configuration with one relearning step of ten minutes. *)
Definition relrn_lapse : LapseConf :=
  mkLapseConf [PInt 10] (PFloat f0_5) 1 8 LEECH_SUSPEND.

Definition relrn_base : BothScheduler := demo_base relrn_lapse demo_rev.

(** A review card in relearning: learning queue, review due date kept in
    [odue]. *)
Definition relrn_card : Card :=
  mkCard 31 1 1 CARD_DUE QUEUE_LRN 1700000500 5 2300 9 1 1001 120 0 0 0 10
         false.

Definition relrn_sched : Scheduler :=
  demo_sched [relrn_card] [mkNote 1 []] false false.

(** A filtered deck that does not reschedule, and a review card of deck 1
    that sits in it. *)
Definition cram_base : BothScheduler :=
  mkBoth (fun _ _ => mkDeckConf true false)
         (conf_lapse s3_base) (conf_rev s3_base) (conf_new_delays s3_base)
         (_fuzzedIvl s3_base) (_delayForGrade s3_base) (_leftToday s3_base)
         (stats_update s3_base) (undo_mark s3_base) (timeTaken s3_base)
         (super_fillLrn s3_base) (_getNewCard s3_base)
         (_getLrnDayCard s3_base) (_timeForNewCard s3_base)
         (super_resetRev s3_base) (_deckNewLimit s3_base) (shuffle s3_base)
         (findCards s3_base) (_dynOrder s3_base).

Definition cram_card : Card :=
  mkCard 51 1 9 CARD_DUE QUEUE_REV (-100000) 10 2500 4 0 0 98 1 0 0 0 false.

Definition cram_sched : Scheduler :=
  demo_sched [cram_card] [mkNote 1 []] false false.

(** The card of scenario S3 before a log that already holds the stamps of
    the next two clock readings. *)
Definition dup_sched : Scheduler :=
  set_col
    (set_revlog
       [mkRevlog 1700000000000 1 7 3 (PInt 10) 8 2500 5000 1;
        mkRevlog 1700000001000 1 7 3 (PInt 12) 10 2500 5000 1]
       (col s3_sched)) s3_sched.

(** A lapsed review shown for the first time in filtered deck 9, its
    review due date (day 95) and home deck kept in [odue] and [odid]. *)
Definition boost_card : Card :=
  mkCard 41 1 9 CARD_DUE QUEUE_NEW_CRAM (-99999) 10 2500 4 0 0 95 1 0 0 0
         false.

(** The exception an outcome raises, if it raises. *)
Definition error_of {St A} (o : outcome St A) : option exn :=
  match o with
  | Return _ _ => None
  | Raise e _ => Some e
  end.

(** * Properties *)

(** ** Python numbers *)

(** Integer true division raises on a zero divisor, and otherwise only
    when the quotient is too large for a float. *)
Lemma int_truediv_raises (a b : Z) (e : exn) :
  int_truediv a b = inl e ->
  (e = ZeroDivisionError /\ b = 0) \/ (e = OverflowError /\ b <> 0).
Proof.
  unfold int_truediv. destruct (b =? 0) eqn:Eb.
  - intros H. inversion H. left. split; [reflexivity | now apply Z.eqb_eq].
  - apply Z.eqb_neq in Eb. cbv zeta.
    destruct (Z.abs a =? 0); [discriminate |].
    destruct (binary_normalize _ _ _ _ _); intros H; inversion H.
    right. split; [reflexivity | exact Eb].
Qed.

Lemma Qtrunc_inject_Z (z : Z) : Qtrunc (inject_Z z) = z.
Proof.
  unfold Qtrunc. destruct (Qle_bool 0 (inject_Z z)).
  - apply Qfloor_Z.
  - apply Qceiling_Z.
Qed.

Lemma Qtrunc_floor (q : Q) : (0 <= q)%Q -> Qtrunc q = Qfloor q.
Proof.
  intros H. unfold Qtrunc.
  apply Qle_bool_iff in H. now rewrite H.
Qed.

(** Truncation never falls below an integer the number reaches. *)
Lemma Qtrunc_ge (p : Z) (q : Q) : (inject_Z p <= q)%Q -> p <= Qtrunc q.
Proof.
  intros H. unfold Qtrunc. destruct (Qle_bool 0 q).
  - rewrite <- (Qfloor_Z p). now apply Qfloor_resp_le.
  - rewrite Zle_Qle. eapply Qle_trans; [exact H | apply Qle_ceiling].
Qed.

(** Truncation never exceeds an integer above the number. *)
Lemma Qtrunc_lt (p : Z) (q : Q) : (q < inject_Z p)%Q -> Qtrunc q <= p.
Proof.
  intros H. unfold Qtrunc. destruct (Qle_bool 0 q).
  - apply Z.lt_le_incl. rewrite Zlt_Qlt.
    eapply Qle_lt_trans; [apply Qfloor_le | exact H].
  - rewrite <- (Qceiling_Z p). apply Qceiling_resp_le.
    now apply Qlt_le_weak.
Qed.

Lemma int_of_float_value (f : float) (q : Q) :
  fvalue f = Some q -> int_of_float f = inr (Qtrunc q).
Proof.
  destruct f; simpl; intros H; try discriminate; now inversion H.
Qed.

Lemma py_int_value (x : num) (q : Q) :
  num_value x = Some q -> py_int x = inr (Qtrunc q).
Proof.
  destruct x as [z | f]; simpl; intros H.
  - inversion H. now rewrite Qtrunc_inject_Z.
  - now apply int_of_float_value.
Qed.

(** An int against a number, through the exact values. *)
Lemma gt_int_value (p : Z) (x : num) (q : Q) :
  num_value x = Some q ->
  gt (PInt p) x = match Qcompare q (inject_Z p) with
                  | Lt => true
                  | _ => false
                  end.
Proof.
  destruct x as [y | f]; simpl; intros H.
  - inversion H; subst. unfold gt; simpl.
    rewrite <- (Qcompare_antisym (inject_Z p) (inject_Z y)).
    unfold Qcompare at 1; simpl. rewrite !Z.mul_1_r.
    now destruct (p ?= y).
  - unfold gt; simpl.
    destruct f; simpl in *; try discriminate; inversion H; subst;
      now destruct (Qcompare _ _).
Qed.

(** [max(x, p)] converted by [int()], for a finite [x] and an int [p]. *)
Lemma int_max2_value (x : num) (p : Z) (q : Q) :
  num_value x = Some q ->
  py_int (max2 x (PInt p)) = inr (Z.max (Qtrunc q) p).
Proof.
  intros H. unfold max2. rewrite (gt_int_value p x q H).
  destruct (Qcompare_spec q (inject_Z p)) as [E | L | G].
  - rewrite (py_int_value x q H). f_equal.
    assert (p <= Qtrunc q) by (apply Qtrunc_ge; rewrite E; apply Qle_refl).
    lia.
  - simpl. f_equal. pose proof (Qtrunc_lt p q L). lia.
  - rewrite (py_int_value x q H). f_equal.
    assert (p <= Qtrunc q) by (apply Qtrunc_ge; now apply Qlt_le_weak).
    lia.
Qed.

(** ** Running the monad *)

Ltac unfold_monad_in H :=
  unfold bind, ret, raise, get, modify, of_exc, the_card, the_sched,
    upd_card, upd_sched, on_sched in H.

(** Case analysis on an innermost scrutinee of a run that is known to
    return. *)
Ltac step_in H :=
  match type of H with
  | context [match ?x with _ => _ end] =>
      lazymatch x with
      | context [match _ with _ => _ end] => fail
      | _ => let E := fresh "E" in
             destruct x eqn:E; simpl in H; try discriminate H
      end
  end.

(** ** Rows in due order *)

Lemma pair_leb_spec (a b : Z * Z) :
  pair_leb a b = true <->
  fst a < fst b \/ (fst a = fst b /\ snd a <= snd b).
Proof.
  unfold pair_leb. rewrite orb_true_iff, andb_true_iff.
  rewrite Z.ltb_lt, Z.eqb_eq, Z.leb_le. reflexivity.
Qed.

Lemma pair_leb_total (a b : Z * Z) :
  pair_leb a b = false -> pair_leb b a = true.
Proof.
  intros H. apply pair_leb_spec.
  destruct (pair_leb a b) eqn:E; [discriminate |].
  assert (N : ~ (fst a < fst b \/ (fst a = fst b /\ snd a <= snd b)))
    by (intros P; apply pair_leb_spec in P; congruence).
  lia.
Qed.

Lemma due_le_trans (a b c : Card) : due_le a b -> due_le b c -> due_le a c.
Proof.
  unfold due_le. rewrite !pair_leb_spec. simpl. lia.
Qed.

Lemma due_le_due (a b : Card) : due_le a b -> due a <= due b.
Proof. unfold due_le. rewrite pair_leb_spec. simpl. lia. Qed.

Lemma insert_due_perm (c : Card) (l : list Card) :
  Permutation (insert_due c l) (c :: l).
Proof.
  induction l as [| x t IH]; simpl; [reflexivity |].
  destruct (pair_leb _ _); [reflexivity |].
  rewrite IH. apply perm_swap.
Qed.

Lemma by_due_perm (rows : list Card) : Permutation (by_due rows) rows.
Proof.
  induction rows as [| c t IH]; simpl; [reflexivity |].
  rewrite insert_due_perm. now constructor.
Qed.

Lemma by_due_In (c : Card) (rows : list Card) :
  In c (by_due rows) <-> In c rows.
Proof.
  split; apply Permutation_in;
    [apply by_due_perm | symmetry; apply by_due_perm].
Qed.

Lemma filter_perm {A} (p : A -> bool) (l l' : list A) :
  Permutation l l' -> Permutation (filter p l) (filter p l').
Proof.
  induction 1 as [| x l l' _ IH | x y l | l l' l'' _ IH1 _ IH2]; simpl.
  - reflexivity.
  - destruct (p x); [now constructor | exact IH].
  - destruct (p x), (p y); try reflexivity. apply perm_swap.
  - now transitivity (filter p l').
Qed.

Lemma insert_due_sorted (c : Card) (l : list Card) :
  StronglySorted due_le l -> StronglySorted due_le (insert_due c l).
Proof.
  induction 1 as [| x t Hs IH Hx]; simpl.
  - constructor; [constructor | constructor].
  - destruct (pair_leb (due c, id c) (due x, id x)) eqn:E.
    + constructor; [now constructor |].
      constructor; [exact E |].
      eapply Forall_impl; [| exact Hx].
      intros y Hy. now apply (due_le_trans c x y).
    + constructor; [exact IH |].
      apply Forall_forall. intros y Hy.
      apply (Permutation_in _ (insert_due_perm c t)) in Hy.
      destruct Hy as [<- | Hy]; [now apply pair_leb_total |].
      rewrite Forall_forall in Hx. now apply Hx.
Qed.

Lemma by_due_sorted (rows : list Card) : StronglySorted due_le (by_due rows).
Proof.
  induction rows as [| c t IH]; simpl; [constructor |].
  now apply insert_due_sorted.
Qed.

Lemma sorted_filter {A} (R : A -> A -> Prop) (p : A -> bool) (l : list A) :
  StronglySorted R l -> StronglySorted R (filter p l).
Proof.
  induction 1 as [| x t Hs IH Hx]; simpl; [constructor |].
  destruct (p x); [| exact IH].
  constructor; [exact IH |].
  apply Forall_forall. intros y Hy. apply filter_In in Hy.
  rewrite Forall_forall in Hx. now apply Hx.
Qed.

Lemma sorted_firstn {A} (R : A -> A -> Prop) (n : nat) (l : list A) :
  StronglySorted R l -> StronglySorted R (firstn n l).
Proof.
  intros H. revert n. induction H as [| x t Hs IH Hx]; intros [| n]; simpl;
    try constructor.
  - apply IH.
  - apply Forall_forall. intros y Hy.
    rewrite Forall_forall in Hx. apply Hx.
    rewrite <- (firstn_skipn n t). apply in_or_app. now left.
Qed.

Lemma sorted_weaken {A} (R R' : A -> A -> Prop) (l : list A) :
  (forall a b, R a b -> R' a b) ->
  StronglySorted R l -> StronglySorted R' l.
Proof.
  intros HR. induction 1 as [| x t Hs IH Hx]; constructor; [exact IH |].
  eapply Forall_impl; [| exact Hx]. intros y. apply HR.
Qed.

Lemma select_length_by_due (w : Card -> bool) (lim : Z) (rows : list Card) :
  List.length (sql_select_ids w lim (by_due rows))
  = List.length (sql_select_ids w lim rows).
Proof.
  assert (L : List.length (map id (filter w (by_due rows)))
              = List.length (map id (filter w rows))).
  { rewrite !length_map. apply Permutation_length, filter_perm, by_due_perm. }
  unfold sql_select_ids. destruct (lim <? 0); [exact L |].
  rewrite !length_firstn. now rewrite L.
Qed.

Section SchedFacts.

Variable B : BothScheduler.
Variable lrn : Z -> M Heap unit.

Arguments _nextRevIvl : simpl never.
Arguments _nextLapseIvl : simpl never.
Arguments _dynIvlBoost : simpl never.
Arguments _startingLeft : simpl never.
Arguments int_of_float : simpl never.
Arguments PyNum.mul : simpl never.
Arguments PyNum.add : simpl never.
Arguments py_int : simpl never.
Arguments Z.mul : simpl never.
Arguments Z.add : simpl never.
Arguments Z.sub : simpl never.
Arguments Z.max : simpl never.
Arguments Z.min : simpl never.
Arguments Z.div : simpl never.
Arguments Z.modulo : simpl never.
Arguments Z.leb : simpl never.
Arguments Z.ltb : simpl never.
Arguments Z.eqb : simpl never.

(** *** Interval management *)

(** The candidate interval depends on the card through its deck ids,
    interval, factor and due date only. *)
Lemma nextRevIvl_ext (s s' : Scheduler) (c c' : Card) (ease : Z) :
  today s = today s' -> decks (col s) = decks (col s') ->
  did c = did c' -> odid c = odid c' -> ivl c = ivl c' ->
  factor c = factor c' -> due c = due c' ->
  _nextRevIvl B s c ease = _nextRevIvl B s' c' ease.
Proof.
  intros Ht Hd H1 H2 H3 H4 H5.
  unfold _nextRevIvl, _daysLate, _revConf.
  now rewrite Ht, Hd, H1, H2, H3, H4, H5.
Qed.

(** The selected interval is capped at [maxIvl]. *)
Lemma nextRevIvl_capped (s : Scheduler) (c : Card) (ease i : Z) :
  _nextRevIvl B s c ease = inr i -> i <= maxIvl (_revConf B s c).
Proof.
  unfold _nextRevIvl. intros H.
  repeat match type of H with
         | ebind ?x _ = _ =>
             let E := fresh "E" in
             destruct x eqn:E; simpl in H; try discriminate H
         end.
  inversion H. apply Z.le_min_r.
Qed.

(** What [_updateRevIvl] does when it returns. *)
Lemma updateRevIvl_returns (ease : Z) (s : Scheduler) (c : Card) (h : Heap) :
  _updateRevIvl B ease (s, c) = Return tt h ->
  exists ideal fuzzed,
    _nextRevIvl B s c ease = inr ideal /\
    fuzzed = (if _spreadRev s then fst (_fuzzedIvl B (rng s) ideal)
              else ideal) /\
    snd h = set_ivl (Z.min (Z.max fuzzed (ivl c + 1))
                           (maxIvl (_revConf B s c))) c /\
    fst h = (if _spreadRev s
             then set_rng (snd (_fuzzedIvl B (rng s) ideal)) s else s).
Proof.
  unfold _updateRevIvl, _adjRevIvl.
  intros H. unfold_monad_in H. simpl in H.
  destruct (_nextRevIvl B s c ease) as [e | ideal] eqn:E; simpl in H;
    try discriminate H.
  exists ideal.
  destruct (_spreadRev s) eqn:Sp; simpl in H.
  - destruct (_fuzzedIvl B (rng s) ideal) as [fz g] eqn:F. simpl in H.
    inversion H; subst; simpl. eexists; repeat split; reflexivity.
  - inversion H; subst; simpl. eexists; repeat split; reflexivity.
Qed.

Arguments _updateRevIvl : simpl never.
Arguments _rescheduleRev : simpl never.
Arguments _rescheduleLapse : simpl never.
Arguments _checkLeech : simpl never.
Arguments _logRev : simpl never.
Arguments _answerRevCard : simpl never.
Arguments _burySiblings : simpl never.
Arguments _resched : simpl never.
Arguments _revConf : simpl never.
Arguments _lapseConf : simpl never.
Arguments intTime : simpl never.
Arguments time_time : simpl never.

(** The factor adjustment [[-150, 0, 150][ease-2]] of a successful answer. *)
Lemma factor_adjustment (ease : Z) :
  2 <= ease <= 4 ->
  exists adj, py_index [-150; 0; 150] (ease - 2) = inr adj /\
              -150 <= adj <= 150 /\
              (ease = 2 -> adj = -150) /\ (ease = 3 -> adj = 0) /\
              (ease = 4 -> adj = 150).
Proof.
  intros H.
  assert (ease = 2 \/ ease = 3 \/ ease = 4) as [E | [E | E]] by lia;
    subst ease; eexists; (split; [reflexivity | repeat split; lia]).
Qed.

(** What [_rescheduleRev] does to the card when rescheduling is in effect
    and the method returns. *)
Lemma rescheduleRev_returns (ease : Z) (s : Scheduler) (c : Card) (h : Heap) :
  _resched B s c = true ->
  2 <= ease <= 4 ->
  _rescheduleRev B ease (s, c) = Return tt h ->
  exists ideal fuzzed adj,
    _nextRevIvl B s c ease = inr ideal /\
    fuzzed = (if _spreadRev s then fst (_fuzzedIvl B (rng s) ideal)
              else ideal) /\
    py_index [-150; 0; 150] (ease - 2) = inr adj /\
    let n := Z.min (Z.max fuzzed (ivl c + 1)) (maxIvl (_revConf B s c)) in
    let c1 := set_due (today s + n)
                (set_factor (Z.max 1300 (factor c + adj))
                   (set_ivl n (set_lastIvl (ivl c) c))) in
    snd h = (if negb (odid c =? 0)
             then set_odue 0 (set_odid 0 (set_did (odid c) c1)) else c1) /\
    fst h = (if _spreadRev s
             then set_rng (snd (_fuzzedIvl B (rng s) ideal)) s else s).
Proof.
  intros Hr He H.
  destruct (factor_adjustment ease He) as [adj [Hadj _]].
  unfold _rescheduleRev in H. unfold_monad_in H. simpl in H.
  change (_resched B s (set_lastIvl (ivl c) c)) with (_resched B s c) in H.
  rewrite Hr in H.
  destruct (_updateRevIvl B ease (s, set_lastIvl (ivl c) c))
    as [[] h1 | e h1] eqn:U; try discriminate H.
  apply updateRevIvl_returns in U.
  destruct U as [ideal [fuzzed [Hn [Hf [Hc Hs]]]]].
  rewrite (nextRevIvl_ext s s _ c ease) in Hn by reflexivity.
  change (_revConf B s (set_lastIvl (ivl c) c)) with (_revConf B s c) in Hc.
  change (ivl (set_lastIvl (ivl c) c)) with (ivl c) in Hc.
  exists ideal, fuzzed, adj. split; [exact Hn |]. split; [exact Hf |].
  split; [exact Hadj |].
  rewrite Hadj in H. simpl in H.
  destruct h1 as [s1 c1]. simpl in Hc, Hs. subst c1.
  simpl in H.
  assert (Ht : today s1 = today s).
  { rewrite Hs. now destruct (_spreadRev s). }
  rewrite Ht in H.
  destruct (odid c =? 0) eqn:Od; simpl in H; inversion H; subst h; simpl;
    (split; [reflexivity | assumption]).
Qed.

(** [_logRev] leaves the card object alone, and of the scheduler changes
    the review log and the clock only. *)
Lemma logRev_returns (ease : Z) (delay : num) (s : Scheduler) (c : Card)
    (h : Heap) :
  _logRev B ease delay (s, c) = Return tt h ->
  snd h = c /\ today (fst h) = today s /\
  decks (col (fst h)) = decks (col s) /\
  cards (col (fst h)) = cards (col s) /\
  notes (col (fst h)) = notes (col s) /\
  _lrnQueue (fst h) = _lrnQueue s /\ lrnCount (fst h) = lrnCount s /\
  hooks (fst h) = hooks s.
Proof.
  unfold _logRev, try_except. intros H. unfold_monad_in H.
  unfold time_time in H. simpl in H.
  repeat step_in H; inversion H; subst h; simpl; repeat split; reflexivity.
Qed.

(** [intTime] reads the clock once. *)
Lemma intTime_returns (s s' : Scheduler) (t : Z) :
  intTime s = Return t s' -> s' = set_ticks (S (ticks s)) s.
Proof.
  unfold intTime, time_time. intros H. unfold_monad_in H. simpl in H.
  repeat step_in H. now inversion H.
Qed.

(** The sibling bury touches the rows of table cards and the clock only. *)
Lemma burySiblings_returns (c : Card) (s s' : Scheduler) :
  _burySiblings c s = Return tt s' ->
  today s' = today s /\ decks (col s') = decks (col s) /\
  notes (col s') = notes (col s) /\ hooks s' = hooks s /\
  _lrnQueue s' = _lrnQueue s /\ lrnCount s' = lrnCount s /\
  _spreadRev s' = _spreadRev s /\ rng s' = rng s.
Proof.
  unfold _burySiblings, intTime, time_time. intros H. unfold_monad_in H.
  simpl in H.
  repeat step_in H; inversion H; subst s'; simpl; repeat split; reflexivity.
Qed.

Lemma resched_ext (s s' : Scheduler) (c c' : Card) :
  decks (col s) = decks (col s') -> did c = did c' ->
  _resched B s c = _resched B s' c'.
Proof.
  intros Hd Hc. unfold _resched, _cardConf. now rewrite Hd, Hc.
Qed.

Lemma revConf_ext (s s' : Scheduler) (c c' : Card) :
  decks (col s) = decks (col s') -> did c = did c' -> odid c = odid c' ->
  _revConf B s c = _revConf B s' c'.
Proof.
  intros Hd H1 H2. unfold _revConf. now rewrite Hd, H1, H2.
Qed.

Lemma lapseConf_ext (s s' : Scheduler) (c c' : Card) :
  decks (col s) = decks (col s') -> did c = did c' -> odid c = odid c' ->
  _lapseConf B s c = _lapseConf B s' c'.
Proof.
  intros Hd H1 H2. unfold _lapseConf. now rewrite Hd, H1, H2.
Qed.

(** [_answerRevCard] on a successful answer: [_rescheduleRev], then the
    log. *)
Lemma answerRevCard_success (ease : Z) (s : Scheduler) (c : Card) (h : Heap) :
  2 <= ease <= 4 ->
  _answerRevCard B ease (s, c) = Return tt h ->
  exists h1, _rescheduleRev B ease (s, c) = Return tt h1 /\
             snd h = snd h1 /\ today (fst h) = today (fst h1) /\
             decks (col (fst h)) = decks (col (fst h1)).
Proof.
  intros He H. unfold _answerRevCard in H.
  assert (E1 : (ease =? BUTTON_ONE) = false)
    by (apply Z.eqb_neq; unfold BUTTON_ONE; lia).
  rewrite E1 in H. unfold bind at 1 2 in H.
  destruct (_rescheduleRev B ease (s, c)) as [[] h1 | e h1] eqn:R;
    try discriminate H.
  unfold ret in H. apply logRev_returns in H.
  exists h1. destruct h1 as [s1 c1]. simpl in *. intuition.
Qed.

(** After the assertion and the sibling bury, an answer to a card of the
    review queue is [_answerRevCard] followed by the statistics, [mod],
    [usn] and the flush; [today] and the decks are still those of the
    start. *)
Lemma answerCard_review (ease : Z) (s : Scheduler) (c : Card) (h : Heap) :
  queue c = QUEUE_REV ->
  1 <= ease <= 4 ->
  answerCard B lrn ease (s, c) = Return tt h ->
  exists s1 h2 t u,
    today s1 = today s /\ decks (col s1) = decks (col s) /\
    notes (col s1) = notes (col s) /\ hooks s1 = hooks s /\
    _lrnQueue s1 = _lrnQueue s /\ lrnCount s1 = lrnCount s /\
    _answerRevCard B ease
      (s1, set_wasNew (CardType_eqb (type c) CARD_NEW)
             (set_reps (reps c + 1) c)) = Return tt h2 /\
    snd h = set_usn u (set_mod t (snd h2)) /\
    _lrnQueue (fst h) = _lrnQueue (fst h2) /\
    lrnCount (fst h) = lrnCount (fst h2) /\
    notes (col (fst h)) = notes (col (fst h2)) /\
    hooks (fst h) = hooks (fst h2).
Proof.
  intros Hq He H. unfold answerCard in H.
  assert (E1 : negb ((1 <=? ease) && (ease <=? 4)) = false).
  { apply negb_false_iff, andb_true_iff. split; apply Z.leb_le; lia. }
  rewrite E1 in H. unfold_monad_in H. simpl in H.
  destruct (_burySiblingsOnAnswer s); simpl in H.
  - destruct (_burySiblings c (markReview B c s)) as [[] s1 | e s1] eqn:Sb;
      simpl in H; try discriminate H.
    apply burySiblings_returns in Sb. rewrite Hq in H. simpl in H.
    exists s1. repeat (first [rewrite Hq in H; simpl in H | step_in H]).
    inversion H; subst h. simpl.
    match goal with E : _answerRevCard _ _ _ = Return ?a _ |- _ =>
      destruct a end.
    match goal with E : intTime _ = Return _ _ |- _ =>
      apply intTime_returns in E; subst end.
    do 3 eexists. simpl. intuition eauto.
  - rewrite Hq in H. simpl in H.
    exists (markReview B c s).
    repeat (first [rewrite Hq in H; simpl in H | step_in H]).
    inversion H; subst h. simpl.
    match goal with E : _answerRevCard _ _ _ = Return ?a _ |- _ =>
      destruct a end.
    match goal with E : intTime _ = Return _ _ |- _ =>
      apply intTime_returns in E; subst end.
    do 3 eexists. simpl. intuition eauto.
Qed.

(** A successful answer to a card of the review queue, rescheduling in
    effect: the fields the answer leaves on the card. *)
Lemma answerCard_review_success (ease : Z) (s : Scheduler) (c : Card)
    (h : Heap) :
  queue c = QUEUE_REV ->
  2 <= ease <= 4 ->
  _resched B s c = true ->
  answerCard B lrn ease (s, c) = Return tt h ->
  exists ideal fuzzed adj,
    _nextRevIvl B s c ease = inr ideal /\
    py_index [-150; 0; 150] (ease - 2) = inr adj /\
    ivl (snd h) = Z.min (Z.max fuzzed (ivl c + 1)) (maxIvl (_revConf B s c)) /\
    factor (snd h) = Z.max 1300 (factor c + adj) /\
    due (snd h) = today s + ivl (snd h).
Proof.
  intros Hq He Hr H.
  apply answerCard_review in H; [ | exact Hq | lia].
  destruct H as [s1 [h2 [t [u [Ht [Hd [_ [_ [_ [_ [A [Hh _]]]]]]]]]]]].
  set (c0 := set_wasNew (CardType_eqb (type c) CARD_NEW)
               (set_reps (reps c + 1) c)) in *.
  apply (answerRevCard_success ease s1 c0 h2 He) in A.
  destruct A as [h1 [R [Hc _]]].
  apply rescheduleRev_returns in R;
    [ | rewrite <- Hr; now apply resched_ext | exact He].
  destruct R as [ideal [fuzzed [adj [Hn [_ [Hadj [Hsnd _]]]]]]].
  rewrite (nextRevIvl_ext s1 s c0 c ease) in Hn by (auto; reflexivity).
  rewrite (revConf_ext s1 s c0 c) in Hsnd by (auto; reflexivity).
  exists ideal, fuzzed, adj. split; [exact Hn |]. split; [exact Hadj |].
  rewrite Hh. simpl. rewrite Hc, Hsnd, Ht.
  change (odid c0) with (odid c). change (ivl c0) with (ivl c).
  change (factor c0) with (factor c).
  destruct (odid c =? 0); simpl; repeat split; reflexivity.
Qed.

(** C3 (as amended).  A successful answer (ease 2, 3 or 4) to a card of the
    review queue, rescheduling in effect, leaves
    [ivl = min(max(fuzzed, old ivl + 1), maxIvl)]: the new interval never
    exceeds [maxIvl], it is at least [min(old ivl + 1, maxIvl)], and it is
    at least [old ivl + 1] whenever the old interval is below [maxIvl]. *)
Theorem C3_review_interval_bounds (ease : Z) (s : Scheduler) (c : Card)
    (h : Heap) :
  queue c = QUEUE_REV ->
  2 <= ease <= 4 ->
  _resched B s c = true ->
  answerCard B lrn ease (s, c) = Return tt h ->
  ivl (snd h) <= maxIvl (_revConf B s c) /\
  Z.min (ivl c + 1) (maxIvl (_revConf B s c)) <= ivl (snd h) /\
  (ivl c < maxIvl (_revConf B s c) -> ivl c + 1 <= ivl (snd h)).
Proof.
  intros Hq He Hr H.
  destruct (answerCard_review_success ease s c h Hq He Hr H)
    as [ideal [fuzzed [adj [_ [_ [Hi _]]]]]].
  rewrite Hi. lia.
Qed.

(** C10.  A successful answer (ease 2, 3 or 4) to a card of the review
    queue, rescheduling in effect, leaves a factor of at least 1300: the
    floor is applied to the adjustment [-150, 0, +150] of the answer, so
    also to the -150 of ease 2. *)
Theorem C10_review_factor_floor (ease : Z) (s : Scheduler) (c : Card)
    (h : Heap) :
  queue c = QUEUE_REV ->
  2 <= ease <= 4 ->
  _resched B s c = true ->
  answerCard B lrn ease (s, c) = Return tt h ->
  1300 <= factor (snd h) /\
  (ease = 2 -> factor (snd h) = Z.max 1300 (factor c - 150)) /\
  (ease = 3 -> factor (snd h) = Z.max 1300 (factor c)) /\
  (ease = 4 -> factor (snd h) = Z.max 1300 (factor c + 150)).
Proof.
  intros Hq He Hr H.
  destruct (answerCard_review_success ease s c h Hq He Hr H)
    as [ideal [fuzzed [adj [_ [Hadj [_ [Hf _]]]]]]].
  destruct (factor_adjustment ease He) as [adj' [Hadj' [_ [A2 [A3 A4]]]]].
  rewrite Hadj in Hadj'. inversion Hadj'; subst adj'.
  rewrite Hf. split; [lia |].
  repeat split; intros E.
  - rewrite (A2 E). f_equal.
  - rewrite (A3 E). f_equal. lia.
  - now rewrite (A4 E).
Qed.

(** *** Leeches *)

Lemma is_leech_test (lf lapses_ : Z) :
  negb (lf =? 0) && ((lf <=? lapses_)
     && ((lapses_ - lf) mod (Z.max (lf / 2) 1) =? 0)) = true
  <-> is_leech lf lapses_.
Proof.
  unfold is_leech.
  rewrite !andb_true_iff, negb_true_iff, Z.eqb_neq, Z.leb_le, Z.eqb_eq.
  reflexivity.
Qed.

(** [_checkLeech] always returns; it answers True exactly on a leech, and
    then tags the note, runs the hook and, for the suspend action, unwinds
    and suspends the card; otherwise it changes nothing. *)
Lemma checkLeech_run (conf : LapseConf) (s : Scheduler) (c : Card) :
  exists b : bool,
    _checkLeech conf (s, c) =
      Return b (if b then (runHook "leech" (addTag (nid c) "leech" s),
                           if LeechAction_eqb (leechAction conf) LEECH_SUSPEND
                           then set_queue QUEUE_SUSPENDED (unwound c) else c)
                else (s, c)) /\
    (b = true <-> is_leech (leechFails conf) (lapses c)).
Proof.
  unfold _checkLeech. unfold bind at 1. unfold the_card. simpl.
  destruct (leechFails conf =? 0) eqn:Z0.
  - exists false. split; [reflexivity |].
    split; [discriminate |]. intros [N _]. apply Z.eqb_eq in Z0. contradiction.
  - destruct ((leechFails conf <=? lapses c)
              && ((lapses c - leechFails conf)
                    mod Z.max (leechFails conf / 2) 1 =? 0)) eqn:T.
    + exists true. split.
      * unfold unwound.
        destruct (LeechAction_eqb (leechAction conf) LEECH_SUSPEND);
          destruct (odue c =? 0) eqn:Ou; destruct (odid c =? 0) eqn:Od;
          unfold bind, upd_sched, upd_card, ret; simpl;
          rewrite ?Ou, ?Od; reflexivity.
      * split; [intros _ | reflexivity].
        apply is_leech_test. now rewrite Z0, T.
    + exists false. split; [reflexivity |].
      split; [discriminate |]. intros L. apply is_leech_test in L.
      rewrite Z0, T in L. discriminate L.
Qed.

(** *** Lapses *)


Lemma lapsed_card_fields (t n : Z) (c : Card) :
  lapses (lapsed_card t n c) = lapses c + 1 /\
  ivl (lapsed_card t n c) = n /\
  factor (lapsed_card t n c) = Z.max 1300 (factor c - 200) /\
  due (lapsed_card t n c) = t + n /\
  queue (lapsed_card t n c) = queue c /\
  nid (lapsed_card t n c) = nid c /\
  left (lapsed_card t n c) = left c /\
  odid (lapsed_card t n c) = odid c /\
  (odid c <> 0 -> odue (lapsed_card t n c) = t + n).
Proof.
  unfold lapsed_card. destruct (odid c =? 0) eqn:E; simpl;
    repeat split; try reflexivity; intros N;
    apply Z.eqb_eq in E; contradiction.
Qed.

Lemma unwound_fields (c : Card) :
  lapses (unwound c) = lapses c /\ ivl (unwound c) = ivl c /\
  factor (unwound c) = factor c /\ odue (unwound c) = 0 /\
  odid (unwound c) = 0 /\
  due (unwound c) = (if odue c =? 0 then due c else odue c) /\
  did (unwound c) = (if odid c =? 0 then did c else odid c).
Proof.
  unfold unwound.
  destruct (odue c =? 0); destruct (odid c =? 0); simpl;
    repeat split; reflexivity.
Qed.

Opaque unwound lapsed_card.

(** What [_rescheduleLapse] does when rescheduling is in effect and the
    method returns: the rescheduling block, the leech check on the
    incremented lapse count, and, when the card is suspended as a leech or
    there are no relearning steps, nothing more. *)
Lemma rescheduleLapse_returns (s : Scheduler) (c : Card) (d : num)
    (h : Heap) :
  _resched B s c = true ->
  _rescheduleLapse B (s, c) = Return d h ->
  let conf := _lapseConf B s c in
  exists p t (b : bool),
    PyNum.mul (PInt (ivl c)) (mult conf) = inr p /\ py_int p = inr t /\
    let n := Z.max (minInt conf) t in
    let c1 := lapsed_card (today s) n c in
    (b = true <-> is_leech (leechFails conf) (lapses c + 1)) /\
    let h2 := if b
              then (runHook "leech" (addTag (nid c) "leech" s),
                    if LeechAction_eqb (leechAction conf) LEECH_SUSPEND
                    then set_queue QUEUE_SUSPENDED (unwound c1) else c1)
              else (s, c1) in
    (delays conf = [] \/ (b = true /\ leechAction conf = LEECH_SUSPEND) ->
     h = h2 /\ d = PInt 0) /\
    lapses (snd h) = lapses c + 1 /\ ivl (snd h) = n /\
    factor (snd h) = Z.max 1300 (factor c - 200) /\
    hooks (fst h) = hooks (fst h2) /\
    notes (col (fst h)) = notes (col (fst h2)).
Proof.
  intros Hr H conf.
  unfold _rescheduleLapse in H. unfold_monad_in H. simpl in H.
  change (_resched B s (set_lastIvl (ivl c) c)) with (_resched B s c) in H.
  rewrite Hr in H. simpl in H.
  change (_lapseConf B s c) with conf in H.
  unfold _nextLapseIvl in H. simpl in H.
  destruct (PyNum.mul (PInt (ivl c)) (mult conf)) as [e | p] eqn:Mu;
    simpl in H; try discriminate H.
  destruct (py_int p) as [e | t] eqn:Pi; simpl in H; try discriminate H.
  exists p, t.
  set (n := Z.max (minInt conf) t) in H |- *.
  match type of H with
  | match ?X with _ => _ end = _ =>
      assert (EX : X = Return tt (s, lapsed_card (today s) n c))
        by (with_strategy transparent [lapsed_card]
              (unfold lapsed_card; destruct (odid c =? 0); reflexivity));
      rewrite EX in H; clear EX
  end.
  destruct (lapsed_card_fields (today s) n c)
    as [Fl [Fi [Ff [Fd [Fq [Fn _]]]]]].
  destruct (unwound_fields (lapsed_card (today s) n c))
    as [Ul [Ui [Uf _]]].
  destruct (checkLeech_run conf s (lapsed_card (today s) n c))
    as [b [Hrun Hb]].
  rewrite Hrun in H. rewrite Fl in Hb. rewrite Fn in H.
  exists b. split; [reflexivity |]. split; [exact Pi |].
  split; [exact Hb |]. clear Hrun Hb. simpl.
  destruct b; simpl in H.
  - destruct (leechAction conf) eqn:La; simpl in H |- *.
    + inversion H; subst d h. simpl. rewrite Ul, Ui, Uf. repeat split; auto.
    + destruct (Queue_eqb (queue (lapsed_card (today s) n c))
                          QUEUE_SUSPENDED); simpl in H.
      * inversion H; subst d h. simpl. repeat split; auto.
      * destruct (delays conf) eqn:De.
        -- inversion H; subst d h. simpl. repeat split; auto.
        -- repeat step_in H; inversion H; subst d h; simpl;
             (split; [intros [N | [_ N]]; discriminate N | repeat split; auto]).
  - destruct (delays conf) eqn:De.
    + inversion H; subst d h. simpl. repeat split; auto.
    + repeat step_in H; inversion H; subst d h; simpl;
        (split; [intros [N | [N _]]; discriminate N | repeat split; auto]).
Qed.

Transparent unwound lapsed_card.

(** *** Signs of float products *)

Lemma Qpow2_pos (e : Z) : (0 < Qpow2 e)%Q.
Proof. unfold Qpow2. now apply Qpower_0_lt. Qed.

Lemma finite_value_pos (m : positive) (e : Z) :
  (0 < inject_Z (Zpos m) * Qpow2 e)%Q.
Proof.
  apply Qmult_lt_0_compat; [| apply Qpow2_pos].
  change 0%Q with (inject_Z 0). rewrite <- Zlt_Qlt. apply Pos2Z.is_pos.
Qed.

Lemma fsign_ok_value (f : float) (q : Q) :
  fsign_ok f -> fvalue f = Some q -> (0 <= q)%Q.
Proof.
  destruct f as [s | s | | s m e]; simpl; intros Hs Hv; try discriminate.
  - inversion Hv. apply Qle_refl.
  - destruct s; [contradiction |]. inversion Hv.
    apply Qlt_le_weak, finite_value_pos.
Qed.

Lemma value_fsign_ok (f : float) (q : Q) :
  fvalue f = Some q -> (0 <= q)%Q -> fsign_ok f.
Proof.
  destruct f as [s | s | | s m e]; simpl; auto.
  destruct s; auto. intros Hv Hq. inversion Hv; subst q.
  pose proof (finite_value_pos m e) as P.
  apply Qopp_lt_compat in P. apply (Qle_not_lt _ _ Hq). exact P.
Qed.

(** Rounding keeps the sign it is given. *)
Lemma binary_round_aux_sign (m e : Z) (l : location) :
  fsign_ok (binary_round_aux prec emax false m e l).
Proof.
  unfold binary_round_aux.
  destruct (shr_fexp prec emax m e l) as [mrs' e'].
  destruct (shr_fexp prec emax _ e' loc_Exact) as [mrs'' e''].
  destruct (shr_m mrs''); simpl; auto.
  destruct (e'' <=? emax - prec); simpl; auto.
Qed.

Lemma float_of_int_sign (z : Z) (f : float) :
  0 <= z -> float_of_int z = inr f -> fsign_ok f.
Proof.
  unfold float_of_int, binary_normalize. intros Hz.
  destruct z as [| m | m]; try lia.
  - intros H. inversion H. exact I.
  - unfold binary_round.
    destruct (shl_align m 0 _) as [mz ez].
    pose proof (binary_round_aux_sign (Zpos mz) ez loc_Exact) as P.
    destruct (binary_round_aux prec emax false (Zpos mz) ez loc_Exact);
      intros H; inversion H; subst; exact P.
Qed.

Lemma fmul_sign (a b : float) :
  fsign_ok a -> fsign_ok b -> fsign_ok (fmul a b).
Proof.
  destruct a as [sa | sa | | sa ma ea]; destruct b as [sb | sb | | sb mb eb];
    simpl; auto; intros Ha Hb;
    try (destruct sa; try contradiction); try (destruct sb; try contradiction);
    simpl; auto.
  apply binary_round_aux_sign.
Qed.

(** The product of a non-negative int and a non-negative number is not
    negative. *)
Lemma mul_nonneg (z : Z) (m p : num) (q : Q) :
  0 <= z -> num_nonneg m ->
  PyNum.mul (PInt z) m = inr p -> num_value p = Some q -> (0 <= q)%Q.
Proof.
  intros Hz [v [Hv Hv0]] Hm Hq.
  destruct m as [y | f]; unfold PyNum.mul in Hm; simpl in Hm, Hv.
  - inversion Hm; subst p. simpl in Hq. inversion Hq; subst q.
    inversion Hv; subst v.
    change 0%Q with (inject_Z 0) in *.
    rewrite <- Zle_Qle in Hv0. rewrite <- Zle_Qle. nia.
  - destruct (float_of_int z) as [e | fz] eqn:Fz; simpl in Hm;
      try discriminate Hm.
    inversion Hm; subst p. simpl in Hq.
    apply (fsign_ok_value (fmul fz f)); [| exact Hq].
    apply fmul_sign.
    + now apply (float_of_int_sign z).
    + now apply (value_fsign_ok f v).
Qed.

Lemma py_int_inv (p : num) (t : Z) :
  py_int p = inr t -> exists q, num_value p = Some q /\ t = Qtrunc q.
Proof.
  destruct p as [z | f]; unfold py_int; intros H.
  - inversion H; subst t. exists (inject_Z z).
    split; [reflexivity | now rewrite Qtrunc_inject_Z].
  - unfold int_of_float in H. simpl.
    destruct f as [s | s | | s m e]; try discriminate H;
      simpl in H; inversion H; eexists; split; reflexivity.
Qed.

(** [_answerRevCard] on a lapse: [_rescheduleLapse], then the log. *)
Lemma answerRevCard_lapse (s : Scheduler) (c : Card) (h : Heap) :
  _answerRevCard B 1 (s, c) = Return tt h ->
  exists d h1, _rescheduleLapse B (s, c) = Return d h1 /\
               snd h = snd h1 /\
               _lrnQueue (fst h) = _lrnQueue (fst h1) /\
               lrnCount (fst h) = lrnCount (fst h1) /\
               notes (col (fst h)) = notes (col (fst h1)) /\
               hooks (fst h) = hooks (fst h1).
Proof.
  intros H. unfold _answerRevCard in H.
  change (1 =? BUTTON_ONE) with true in H. cbv iota in H.
  unfold bind in H.
  destruct (_rescheduleLapse B (s, c)) as [d h1 | e h1] eqn:R;
    try discriminate H.
  apply logRev_returns in H.
  exists d, h1. destruct h1 as [s1 c1]. simpl in *. intuition.
Qed.

Opaque unwound lapsed_card.

(** C4 (as amended).  A lapse (ease 1) of a card of the review queue,
    rescheduling in effect: lapses is incremented, the interval becomes
    [max(minInt, int(ivl * mult))], which is [max(minInt, floor(ivl * mult))]
    for a non-negative interval and multiplier, the factor becomes
    [max(1300, factor - 200)]; and when the lapse configuration has no
    delays and the card is not suspended as a leech, the card keeps the
    review queue with due = today + ivl (and odue = due in a filtered
    deck) and no learning step is added.  A leech with the suspend action
    ends in the suspended queue instead. *)
Theorem C4_lapse_reschedule (s : Scheduler) (c : Card) (h : Heap) :
  queue c = QUEUE_REV ->
  _resched B s c = true ->
  answerCard B lrn 1 (s, c) = Return tt h ->
  let conf := _lapseConf B s c in
  exists p q,
    PyNum.mul (PInt (ivl c)) (mult conf) = inr p /\
    num_value p = Some q /\
    lapses (snd h) = lapses c + 1 /\
    ivl (snd h) = Z.max (minInt conf) (Qtrunc q) /\
    (0 <= ivl c -> num_nonneg (mult conf) ->
     ivl (snd h) = Z.max (minInt conf) (Qfloor q)) /\
    factor (snd h) = Z.max 1300 (factor c - 200) /\
    (delays conf = [] ->
     ~ (is_leech (leechFails conf) (lapses c + 1) /\
        leechAction conf = LEECH_SUSPEND) ->
     queue (snd h) = QUEUE_REV /\
     due (snd h) = today s + ivl (snd h) /\
     (odid c <> 0 -> odue (snd h) = due (snd h)) /\
     left (snd h) = left c /\
     _lrnQueue (fst h) = _lrnQueue s /\
     lrnCount (fst h) = lrnCount s) /\
    (is_leech (leechFails conf) (lapses c + 1) /\
     leechAction conf = LEECH_SUSPEND ->
     queue (snd h) = QUEUE_SUSPENDED).
Proof.
  intros Hq Hr H conf.
  apply answerCard_review in H; [ | exact Hq | lia].
  destruct H
    as [s1 [h2 [t0 [u [Ht [Hd [_ [_ [Hlq [Hlc [A [Hh [Gq [Gc _]]]]]]]]]]]]]].
  set (c0 := set_wasNew (CardType_eqb (type c) CARD_NEW)
               (set_reps (reps c + 1) c)) in *.
  apply answerRevCard_lapse in A.
  destruct A as [d [h1 [R [Hc [Kq [Kc _]]]]]].
  apply rescheduleLapse_returns in R;
    [ | rewrite <- Hr; now apply resched_ext ].
  rewrite (lapseConf_ext s1 s c0 c) in R by (auto; reflexivity).
  fold conf in R. rewrite Ht in R.
  change (ivl c0) with (ivl c) in R. change (lapses c0) with (lapses c) in R.
  change (factor c0) with (factor c) in R. change (nid c0) with (nid c) in R.
  destruct R as [p [t [b [Mu [Pi [Hb [Hdone [Fl [Fi [Ff _]]]]]]]]]].
  destruct (py_int_inv p t Pi) as [q [Hv Hq']]. subst t.
  exists p, q. split; [exact Mu |]. split; [exact Hv |].
  assert (Iv : ivl (snd h) = Z.max (minInt conf) (Qtrunc q))
    by (rewrite Hh; simpl; now rewrite Hc).
  split; [rewrite Hh; simpl; now rewrite Hc |].
  split; [exact Iv |].
  split.
  { intros Hi Hm. rewrite Iv. f_equal. apply Qtrunc_floor.
    now apply (mul_nonneg (ivl c) (mult conf) p q). }
  split; [rewrite Hh; simpl; now rewrite Hc |].
  split.
  2:{ intros [L La].
      destruct (Hdone (or_intror (conj (proj2 Hb L) La))) as [Eh _].
      rewrite Hh. simpl. rewrite Hc, Eh.
      rewrite (proj2 Hb L). simpl. now rewrite La. }
  intros De Nl.
  destruct (lapsed_card_fields (today s)
              (Z.max (minInt conf) (Qtrunc q)) c0)
    as [_ [_ [_ [Fd [Fq [_ [Fle [_ Fo]]]]]]]].
  change (queue c0) with (queue c) in Fq. change (left c0) with (left c) in Fle.
  change (odid c0) with (odid c) in Fo.
  destruct (Hdone (or_introl De)) as [Eh _]. clear Hdone.
  rewrite Iv, Hh, Gq, Gc, Kq, Kc. simpl. rewrite Hc, Eh.
  destruct b; simpl.
  - destruct (leechAction conf) eqn:La.
    + exfalso. apply Nl. split; [now apply Hb | reflexivity].
    + simpl. rewrite Fq, Fd, Fle, Hq, Hlq, Hlc.
      repeat split; try reflexivity. intros N. now rewrite (Fo N).
  - rewrite Fq, Fd, Fle, Hq, Hlq, Hlc.
    repeat split; try reflexivity. intros N. now rewrite (Fo N).
Qed.

Transparent unwound lapsed_card.

(** *** Leech detection *)

Lemma addTag_tags (n : Z) (tag : string) (s : Scheduler) (x : Note) :
  In x (notes (col s)) -> note_id x = n ->
  exists x', In x' (notes (col (addTag n tag s))) /\
             note_id x' = n /\ In tag (tags x').
Proof.
  intros Hin Hn. unfold addTag. simpl.
  exists (if existsb (String.eqb tag) (tags x) then x
          else mkNote (note_id x) (tags x ++ [tag])).
  split.
  - apply in_map_iff. exists x. split; [| exact Hin].
    apply Z.eqb_eq in Hn. now rewrite Hn.
  - destruct (existsb (String.eqb tag) (tags x)) eqn:E; simpl.
    + split; [exact Hn |].
      apply existsb_exists in E. destruct E as [y [Hy Ey]].
      apply String.eqb_eq in Ey. now subst y.
    + split; [exact Hn |]. apply in_or_app. right. now left.
Qed.

Lemma suspended_fields (c : Card) :
  queue (set_queue QUEUE_SUSPENDED (unwound c)) = QUEUE_SUSPENDED /\
  odue (set_queue QUEUE_SUSPENDED (unwound c)) = 0 /\
  odid (set_queue QUEUE_SUSPENDED (unwound c)) = 0 /\
  due (set_queue QUEUE_SUSPENDED (unwound c))
    = (if odue c =? 0 then due c else odue c) /\
  did (set_queue QUEUE_SUSPENDED (unwound c))
    = (if odid c =? 0 then did c else odid c).
Proof.
  unfold unwound.
  destruct (odue c =? 0); destruct (odid c =? 0); simpl;
    repeat split; reflexivity.
Qed.

(** C5.  The leech check always returns and answers True exactly when the
    threshold [lf = leechFails] is non-zero, [lapses >= lf] and
    [(lapses - lf) mod max(lf div 2, 1) = 0]; it then tags the note "leech",
    runs the hook, and for the suspend action restores and clears
    odue/odid and suspends the card; with [leechFails = 0] it never answers
    True.  After a lapse the test is made on the incremented count. *)
Theorem C5_leech_check (conf : LapseConf) (s : Scheduler) (c : Card) :
  (exists (b : bool) (h : Heap),
    _checkLeech conf (s, c) = Return b h /\
    (b = true <-> is_leech (leechFails conf) (lapses c)) /\
    (leechFails conf = 0 -> b = false) /\
    (b = false -> h = (s, c)) /\
    (b = true ->
     (forall n, In n (notes (col s)) -> note_id n = nid c ->
        exists n', In n' (notes (col (fst h))) /\ note_id n' = nid c /\
                   In "leech"%string (tags n')) /\
     hooks (fst h) = hooks s ++ ["leech"%string] /\
     (leechAction conf = LEECH_SUSPEND ->
        queue (snd h) = QUEUE_SUSPENDED /\
        odue (snd h) = 0 /\ odid (snd h) = 0 /\
        due (snd h) = (if odue c =? 0 then due c else odue c) /\
        did (snd h) = (if odid c =? 0 then did c else odid c)) /\
     (leechAction conf <> LEECH_SUSPEND -> snd h = c))) /\
  (forall d h,
     _resched B s c = true ->
     _rescheduleLapse B (s, c) = Return d h ->
     (hooks (fst h) = hooks s ++ ["leech"%string]
      <-> is_leech (leechFails (_lapseConf B s c)) (lapses c + 1)) /\
     (~ is_leech (leechFails (_lapseConf B s c)) (lapses c + 1) ->
      hooks (fst h) = hooks s /\ notes (col (fst h)) = notes (col s))).
Proof.
  split.
  - destruct (checkLeech_run conf s c) as [b [Hrun Hb]].
    exists b. eexists. split; [exact Hrun |]. split; [exact Hb |].
    split; [| split].
    + intros Z0. destruct b; [| reflexivity].
      destruct (proj1 Hb eq_refl) as [N _]. contradiction.
    + intros Eb. now subst b.
    + intros Eb. subst b. cbv beta iota delta [fst snd].
      split; [| split; [reflexivity | split]].
      * intros n Hin Hn. exact (addTag_tags (nid c) "leech" s n Hin Hn).
      * intros La. rewrite La. exact (suspended_fields c).
      * intros La. destruct (leechAction conf); [contradiction | reflexivity].
  - intros d h Hr H.
    apply rescheduleLapse_returns in H; [| exact Hr].
    destruct H as [p [t [b [_ [_ [Hb [_ [_ [_ [_ [Hh Hn]]]]]]]]]]].
    rewrite Hh, Hn. destruct b; simpl.
    + split; [split; [intros _; now apply Hb | reflexivity] |].
      intros N. exfalso. apply N. now apply Hb.
    + split; [| intros _; split; reflexivity].
      split.
      * intros E. exfalso.
        apply (f_equal (@List.length string)) in E.
        rewrite length_app in E. simpl in E. lia.
      * intros L. apply Hb in L. discriminate L.
Qed.

(** *** Sibling bury and unbury *)

Lemma mem_In (x : Z) (l : list Z) : mem x l = true <-> In x l.
Proof.
  unfold mem. rewrite existsb_exists. split.
  - intros [y [Hy E]]. apply Z.eqb_eq in E. now subst y.
  - intros H. exists x. split; [exact H | apply Z.eqb_refl].
Qed.



(** *** The picker *)







(** *** Filling the review queue *)









(** One turn of the loop of [_fillRev], spelled out. *)
Lemma fillRev_loop_step (d : Z) (rest : list Z) (s : Scheduler) :
  fillRev_loop B (d :: rest) s =
  let lim := Z.min (queueLimit s) (_deckRevLimit B s d) in
  if negb (lim =? 0) then
    match rev_fetch s d lim with
    | x :: l =>
        let q := if deck_is_dyn s d then rev (x :: l)
                 else shuffle B (today s) (x :: l) in
        Return true
          (if Z.of_nat (List.length (x :: l)) <? lim
           then set_revDids rest (set_revQueue q s)
           else set_revQueue q s)
    | [] => fillRev_loop B rest (set_revDids rest (set_revQueue [] s))
    end
  else fillRev_loop B rest (set_revDids rest s).
Proof.
  simpl fillRev_loop. unfold bind at 1. unfold get. cbv zeta.
  destruct (negb (Z.min (queueLimit s) (_deckRevLimit B s d) =? 0));
    [| reflexivity].
  fold (rev_fetch s d (Z.min (queueLimit s) (_deckRevLimit B s d))).
  destruct (rev_fetch s d _) as [| x l]; [reflexivity |].
  unfold bind, modify, ret.
  destruct (deck_is_dyn s d);
    destruct (Z.of_nat (List.length (x :: l)) <? _); reflexivity.
Qed.






(** *** Filtered decks *)

Lemma sql_update_nth (w : Card -> bool) (f : Card -> Card) (rows : list Card)
    (k : nat) (c : Card) :
  nth_error rows k = Some c ->
  nth_error (sql_update w f rows) k = Some (if w c then f c else c).
Proof.
  intros H. unfold sql_update. now rewrite (map_nth_error _ _ _ H).
Qed.

(** A row whose id is not listed is left alone by [_moveToDyn]; a row whose
    id is listed once is moved once. *)
Lemma moveToDyn_rows_nth (d t u : Z) (ids : list Z) :
  forall (c0 : Z) (rows : list Card) (k : nat) (c : Card),
    nth_error rows k = Some c ->
    (~ In (id c) ids ->
     nth_error (moveToDyn_rows d t u c0 ids rows) k = Some c) /\
    (In (id c) ids -> NoDup ids ->
     exists j, nth_error (moveToDyn_rows d t u c0 ids rows) k
               = Some (moveToDyn_row d t (-100000 + j) u c)).
Proof.
  induction ids as [| i rest IH]; intros c0 rows k c Hk.
  - simpl. split; [auto | intros []].
  - simpl moveToDyn_rows.
    pose proof (sql_update_nth (fun x => id x =? i)
                  (moveToDyn_row d t (-100000 + c0) u) rows k c Hk) as H1.
    cbv beta in H1. split.
    + intros Hn. assert (id c <> i) by (intros E; apply Hn; now left).
      apply Z.eqb_neq in H. rewrite H in H1.
      apply (IH (c0 + 1) _ k c H1). intros Hin. apply Hn. now right.
    + intros Hin Hnd. inversion Hnd as [| ? ? Hni Hnd']; subst.
      destruct (Z.eq_dec (id c) i) as [E | E].
      * apply Z.eqb_eq in E. rewrite E in H1. apply Z.eqb_eq in E.
        exists c0. apply (IH (c0 + 1) _ k _ H1).
        simpl. now rewrite E.
      * apply Z.eqb_neq in E. rewrite E in H1. apply Z.eqb_neq in E.
        destruct Hin as [Hin | Hin]; [congruence |].
        apply (IH (c0 + 1) _ k c H1); assumption.
Qed.

Lemma fillDyn_returns (did_ : Z) (search : string) (limit order : Z)
    (s s1 : Scheduler) (ids : list Z) :
  _fillDyn B did_ search limit order s = Return ids s1 ->
  ids = [] /\ s1 = s \/
  cards (col s1) =
    moveToDyn_rows did_ (today s) (col_usn (col s)) 0 ids (cards (col s)) /\
  col_usn (col s1) = col_usn (col s).
Proof.
  unfold _fillDyn, _moveToDyn. intros H. unfold bind at 1 in H.
  unfold get in H.
  destruct (findCards B (col s) _ _) as [l |]; [| left; now inversion H].
  right. unfold bind in H.
  destruct (intTime s) as [t s' | e s'] eqn:T; try discriminate H.
  apply intTime_returns in T. subst s'.
  unfold modify, ret in H. inversion H; subst. split; reflexivity.
Qed.

(** C8.  Filling a filtered deck and emptying it again gives back to every
    moved card that was not in a filtered deck (odid = odue = 0) its deck
    and its due date, and leaves it with odid = 0 and odue = 0; a card
    whose type is not LEARNING keeps its type, its queue being that of the
    type. *)
Theorem C8_dyn_round_trip (did_ : Z) (search : string) (limit order : Z)
    (s s1 s2 : Scheduler) (ids : list Z) (k : nat) (c : Card) :
  _fillDyn B did_ search limit order s = Return ids s1 ->
  emptyDyn did_ None s1 = Return tt s2 ->
  NoDup ids ->
  nth_error (cards (col s)) k = Some c ->
  In (id c) ids ->
  odid c = 0 -> odue c = 0 ->
  exists c',
    nth_error (cards (col s2)) k = Some c' /\
    id c' = id c /\ did c' = did c /\ due c' = due c /\
    odid c' = 0 /\ odue c' = 0 /\
    (type c <> CARD_LRN ->
     type c' = type c /\ queue c' = queue_of_type (type c)).
Proof.
  intros Hf He Hnd Hk Hin Hod Hou.
  apply fillDyn_returns in Hf.
  destruct Hf as [[E _] | [Hc Hu]]; [subst ids; destruct Hin |].
  destruct (moveToDyn_rows_nth did_ (today s) (col_usn (col s)) ids 0
              (cards (col s)) k c Hk) as [_ Hm].
  destruct (Hm Hin Hnd) as [j Hj]. rewrite <- Hc in Hj.
  unfold emptyDyn, modify in He. injection He as He.
  assert (Hc2 : cards (col s2) =
                sql_update (fun x => did x =? did_)
                           (emptyDyn_row (col_usn (col s1)))
                           (cards (col s1)))
    by (rewrite <- He; reflexivity).
  pose proof (sql_update_nth (fun x => did x =? did_)
                (emptyDyn_row (col_usn (col s1))) _ k _ Hj) as H2.
  rewrite <- Hc2 in H2. cbv beta in H2.
  change (did (moveToDyn_row did_ (today s) (-100000 + j)
                 (col_usn (col s)) c)) with did_ in H2.
  rewrite Z.eqb_refl in H2.
  eexists. split; [exact H2 |].
  unfold emptyDyn_row, moveToDyn_row. simpl.
  rewrite Hod, Hou. simpl.
  repeat split; try reflexivity;
    destruct (type c); simpl; try reflexivity; congruence.
Qed.

(** *** Exceptions *)

Lemma exc_ok_inr {A} (a : A) : exc_ok (inr a).
Proof. intros e H. discriminate H. Qed.

Lemma exc_ok_ebind {A C} (x : exc A) (f : A -> exc C) :
  exc_ok x -> (forall a, exc_ok (f a)) -> exc_ok (ebind x f).
Proof.
  intros Hx Hf e H. destruct x as [e' | a]; simpl in H.
  - inversion H; subst. now apply Hx.
  - now apply (Hf a).
Qed.

Lemma exc_ok_float_of_int (z : Z) : exc_ok (float_of_int z).
Proof.
  intros e H. unfold float_of_int in H.
  destruct (binary_normalize prec emax z 0 false); inversion H; discriminate.
Qed.

Lemma exc_ok_to_float (x : num) : exc_ok (to_float x).
Proof.
  destruct x; simpl; [apply exc_ok_float_of_int | apply exc_ok_inr].
Qed.

Lemma exc_ok_mul (a b : num) : exc_ok (PyNum.mul a b).
Proof.
  unfold PyNum.mul.
  destruct a, b; try apply exc_ok_inr;
    (apply exc_ok_ebind; [apply exc_ok_to_float | intros];
     apply exc_ok_ebind; [apply exc_ok_to_float | intros];
     apply exc_ok_inr).
Qed.

Lemma exc_ok_add (a b : num) : exc_ok (PyNum.add a b).
Proof.
  unfold PyNum.add.
  destruct a, b; try apply exc_ok_inr;
    (apply exc_ok_ebind; [apply exc_ok_to_float | intros];
     apply exc_ok_ebind; [apply exc_ok_to_float | intros];
     apply exc_ok_inr).
Qed.

Lemma exc_ok_truediv (a b : num) : exc_ok (truediv a b).
Proof.
  unfold truediv.
  destruct a as [x | fx], b as [y | fy];
    [ apply exc_ok_ebind; [| intros; apply exc_ok_inr];
      intros e H; destruct (int_truediv_raises x y e H) as [[-> _] | [-> _]];
      discriminate
    | | | ];
    (apply exc_ok_ebind; [apply exc_ok_to_float | intros fa];
     apply exc_ok_ebind; [apply exc_ok_to_float | intros fb];
     (destruct (fis_zero fb); [| apply exc_ok_inr]);
     intros e H; inversion H; discriminate).
Qed.

Lemma exc_ok_py_int (x : num) : exc_ok (py_int x).
Proof.
  destruct x as [z | f]; unfold py_int; [apply exc_ok_inr |].
  unfold int_of_float. intros e H.
  destruct f; simpl in H; inversion H; discriminate.
Qed.

Lemma exc_ok_py_index {A} (l : list A) (i : Z) : exc_ok (py_index l i).
Proof.
  unfold py_index. intros e H.
  destruct (_ || _); [inversion H; discriminate |].
  destruct (nth_error l _); inversion H; discriminate.
Qed.

Lemma exc_ok_constrainedIvl (x : num) (conf : RevConf) (prev : Z) :
  exc_ok (_constrainedIvl x conf prev).
Proof.
  unfold _constrainedIvl.
  apply exc_ok_ebind; [apply exc_ok_mul | intros; apply exc_ok_py_int].
Qed.

Ltac exc_ok_tac :=
  repeat match goal with
  | |- exc_ok (inr _) => apply exc_ok_inr
  | |- exc_ok (inl _) => let H := fresh in intros ? H; inversion H; discriminate
  | |- exc_ok (ebind _ _) => apply exc_ok_ebind; [| intros]
  | |- exc_ok (truediv _ _) => apply exc_ok_truediv
  | |- exc_ok (PyNum.mul _ _) => apply exc_ok_mul
  | |- exc_ok (PyNum.add _ _) => apply exc_ok_add
  | |- exc_ok (py_int _) => apply exc_ok_py_int
  | |- exc_ok (py_index _ _) => apply exc_ok_py_index
  | |- exc_ok (_constrainedIvl _ _ _) => apply exc_ok_constrainedIvl
  | |- exc_ok (if ?b then _ else _) => destruct b
  end.

Lemma exc_ok_nextRevIvl (s : Scheduler) (c : Card) (ease : Z) :
  exc_ok (_nextRevIvl B s c ease).
Proof. unfold _nextRevIvl. exc_ok_tac. Qed.

Lemma exc_ok_nextLapseIvl (c : Card) (conf : LapseConf) :
  exc_ok (_nextLapseIvl c conf).
Proof.
  unfold _nextLapseIvl.
  apply exc_ok_ebind; [apply exc_ok_mul | intros].
  apply exc_ok_ebind; [apply exc_ok_py_int | intros; apply exc_ok_inr].
Qed.

Lemma exc_ok_dynIvlBoost (s : Scheduler) (c : Card) :
  exc_ok (_dynIvlBoost B s c).
Proof.
  unfold _dynIvlBoost. exc_ok_tac.
Qed.

(** The monad operations preserve [never_invalid_queue]. *)
Lemma niq_ret {St A} (a : A) : never_invalid_queue (@ret St A a).
Proof. intros s e s' H. discriminate H. Qed.

Lemma niq_bind {St A C} (m : M St A) (k : A -> M St C) :
  never_invalid_queue m -> (forall a, never_invalid_queue (k a)) ->
  never_invalid_queue (bind m k).
Proof.
  intros Hm Hk s e s' H. unfold bind in H.
  destruct (m s) as [a s1 | e1 s1] eqn:E.
  - now apply (Hk a s1 e s').
  - inversion H; subst. now apply (Hm s e s').
Qed.

Lemma niq_of_exc {St A} (x : exc A) :
  exc_ok x -> never_invalid_queue (@of_exc St A x).
Proof.
  intros Hx s e s' H. destruct x as [e' | a]; simpl in H.
  - inversion H; subst. now apply Hx.
  - discriminate H.
Qed.

Lemma niq_raise {St A} (e : exn) :
  e <> InvalidQueue -> never_invalid_queue (@raise St A e).
Proof. intros He s e' s' H. inversion H; subst. exact He. Qed.

Lemma niq_state {St A} (f : St -> A * St) :
  never_invalid_queue (fun s => Return (fst (f s)) (snd (f s))).
Proof. intros s e s' H. discriminate H. Qed.

Lemma niq_on_sched {A} (m : M Scheduler A) :
  never_invalid_queue m -> never_invalid_queue (on_sched m).
Proof.
  intros Hm h e h' H. unfold on_sched in H.
  destruct (m (fst h)) as [a s1 | e1 s1] eqn:E; inversion H; subst.
  now apply (Hm (fst h) e s1).
Qed.

Lemma niq_try_except {St A} (m h : M St A) :
  never_invalid_queue h -> never_invalid_queue (try_except m h).
Proof.
  intros Hh s e s' H. unfold try_except in H.
  destruct (m s) as [a s1 | e1 s1]; [discriminate H |].
  now apply (Hh s1 e s').
Qed.

Lemma niq_the_card : never_invalid_queue the_card.
Proof. intros s e s' H. discriminate H. Qed.

Lemma niq_the_sched : never_invalid_queue the_sched.
Proof. intros s e s' H. discriminate H. Qed.

Lemma niq_upd_card (f : Card -> Card) : never_invalid_queue (upd_card f).
Proof. intros s e s' H. discriminate H. Qed.

Lemma niq_upd_sched (f : Scheduler -> Scheduler) :
  never_invalid_queue (upd_sched f).
Proof. intros s e s' H. discriminate H. Qed.

Lemma niq_get {St} : never_invalid_queue (@get St).
Proof. intros s e s' H. discriminate H. Qed.

Lemma niq_modify {St} (f : St -> St) : never_invalid_queue (modify f).
Proof. intros s e s' H. discriminate H. Qed.

Ltac niq :=
  repeat match goal with
  | |- never_invalid_queue (ret _) => apply niq_ret
  | |- never_invalid_queue (bind _ _) => apply niq_bind; [| intros]
  | |- never_invalid_queue (on_sched _) => apply niq_on_sched
  | |- never_invalid_queue (try_except _ _) => apply niq_try_except
  | |- never_invalid_queue (of_exc _) => apply niq_of_exc
  | |- never_invalid_queue (raise _) => apply niq_raise; discriminate
  | |- never_invalid_queue the_card => apply niq_the_card
  | |- never_invalid_queue the_sched => apply niq_the_sched
  | |- never_invalid_queue (upd_card _) => apply niq_upd_card
  | |- never_invalid_queue (upd_sched _) => apply niq_upd_sched
  | |- never_invalid_queue get => apply niq_get
  | |- never_invalid_queue (modify _) => apply niq_modify
  | |- never_invalid_queue (if ?b then _ else _) => destruct b
  | |- never_invalid_queue (match ?x with _ => _ end) => destruct x
  | |- exc_ok (_nextRevIvl _ _ _ _) => apply exc_ok_nextRevIvl
  | |- exc_ok (_nextLapseIvl _ _) => apply exc_ok_nextLapseIvl
  | |- exc_ok (_dynIvlBoost _ _ _) => apply exc_ok_dynIvlBoost
  | |- exc_ok _ => progress exc_ok_tac
  end.

Lemma niq_time_time : never_invalid_queue time_time.
Proof. intros s e s' H. discriminate H. Qed.

Lemma niq_intTime : never_invalid_queue intTime.
Proof.
  unfold intTime. apply niq_bind; [apply niq_time_time | intros f].
  apply niq_of_exc. intros e H. unfold int_of_float in H.
  destruct f; simpl in H; inversion H; discriminate.
Qed.

Lemma niq_burySiblings (c : Card) : never_invalid_queue (_burySiblings c).
Proof.
  unfold _burySiblings. niq. apply niq_intTime.
Qed.

Lemma niq_answerRevCard (ease : Z) :
  never_invalid_queue (_answerRevCard B ease).
Proof.
  unfold _answerRevCard, _rescheduleLapse, _rescheduleRev, _logRev,
    _updateRevIvl, _adjRevIvl, _checkLeech.
  niq; apply niq_time_time.
Qed.

(** C9.  [answerCard] raises at once, nothing changed, when the ease is
    outside 1..4; for a card whose queue is none of new, learning,
    day-learning and review it raises the invalid-queue error right after
    the sibling bury, the card object having only [reps] and [wasNew] set
    and nothing being counted, stamped or flushed; for an ease in 1..4 and
    a card of one of those four queues it never raises the invalid-queue
    error. *)
Theorem C9_answerCard_errors (ease : Z) (s : Scheduler) (c : Card) :
  (~ (1 <= ease <= 4) ->
   answerCard B lrn ease (s, c) = Raise AssertionError (s, c)) /\
  (1 <= ease <= 4 -> ~ answerable (queue c) ->
   match answer_prelude B c s with
   | Return _ s1 =>
       answerCard B lrn ease (s, c) =
       Raise InvalidQueue
         (s1, set_wasNew (CardType_eqb (type c) CARD_NEW)
                (set_reps (reps c + 1) c))
   | Raise e s1 =>
       answerCard B lrn ease (s, c) = Raise e (s1, c) /\ e <> InvalidQueue
   end) /\
  (1 <= ease <= 4 -> answerable (queue c) ->
   never_invalid_queue (lrn ease) ->
   forall e h', answerCard B lrn ease (s, c) = Raise e h' ->
                e <> InvalidQueue).
Proof.
  split; [| split].
  - intros He. unfold answerCard.
    assert (E1 : negb ((1 <=? ease) && (ease <=? 4)) = true).
    { apply negb_true_iff, andb_false_iff.
      destruct (Z.leb_spec 1 ease); [right | now left].
      apply Z.leb_gt. lia. }
    now rewrite E1.
  - intros He Hq. unfold answerCard, answer_prelude.
    assert (E1 : negb ((1 <=? ease) && (ease <=? 4)) = false).
    { apply negb_false_iff, andb_true_iff. split; apply Z.leb_le; lia. }
    rewrite E1. unfold bind, ret, raise, the_card, the_sched, upd_card,
      upd_sched, on_sched. simpl.
    destruct (_burySiblingsOnAnswer s); simpl.
    + destruct (_burySiblings c (markReview B c s)) as [[] s1 | e s1] eqn:Sb;
        simpl.
      * destruct (queue c) eqn:Q; simpl; rewrite ?Q; simpl; try reflexivity;
          exfalso; apply Hq; unfold answerable; auto.
      * split; [reflexivity |]. exact (niq_burySiblings c _ e s1 Sb).
    + destruct (queue c) eqn:Q; simpl; rewrite ?Q; simpl; try reflexivity;
        exfalso; apply Hq; unfold answerable; auto.
  - intros He Hq Hlrn e h' H Ee. subst e. unfold answerCard in H.
    assert (E1 : negb ((1 <=? ease) && (ease <=? 4)) = false).
    { apply negb_false_iff, andb_true_iff. split; apply Z.leb_le; lia. }
    rewrite E1 in H. unfold_monad_in H. simpl in H.
    destruct Hq as [Q | [Q | [Q | Q]]]; rewrite Q in H; simpl in H;
      repeat (first [rewrite Q in H; simpl in H | step_in H]);
      inversion H; subst;
      match goal with
      | E : lrn _ _ = Raise InvalidQueue _ |- _ =>
          exact (Hlrn _ _ _ E eq_refl)
      | E : _answerRevCard _ _ _ = Raise InvalidQueue _ |- _ =>
          exact (niq_answerRevCard _ _ _ _ E eq_refl)
      | E : intTime _ = Raise InvalidQueue _ |- _ =>
          exact (niq_intTime _ _ _ E eq_refl)
      | E : _burySiblings _ _ = Raise InvalidQueue _ |- _ =>
          exact (niq_burySiblings _ _ _ _ E eq_refl)
      | E : _dynIvlBoost _ _ _ = inl InvalidQueue |- _ =>
          exact (exc_ok_dynIvlBoost _ _ _ E eq_refl)
      end.
Qed.

End SchedFacts.

(** ** The scenarios, and the claims that fail on the code *)

(** A run is known by its returned value and the state it leaves. *)
Lemma returns_heap_of {A} (o : outcome Heap A) (a : A) :
  result_of o = Some a -> o = Return a (heap_of o).
Proof.
  destruct o as [a' h | e h]; simpl; intros H; inversion H. reflexivity.
Qed.

Lemma returns_state_of {A} (o : outcome Scheduler A) (a : A) :
  result_of o = Some a -> o = Return a (state_of o).
Proof.
  destruct o as [a' h | e h]; simpl; intros H; inversion H. reflexivity.
Qed.

(** C1 (as amended).  Each candidate interval is
    [constrain(x, prev) = max(int(x * ivlFct), prev + 1)], [int] rounding
    toward zero (not up), and the selected candidate is capped at
    [maxIvl].  On scenario S3 (ivl=10, factor=2500, two days late,
    ivlFct=1.0, ease4=1.3, maxIvl=36500, no fuzz) Hard is 12 and Good is
    [int(max(27.5, 13))] = 27, and [answerCard(card, 3)] leaves ivl=27,
    factor=2500 and due=today+27. *)
Theorem C1_constrained_interval :
  (forall x conf prev new q,
     PyNum.mul x (match ivlFct conf with Some f => f | None => PInt 1 end)
       = inr new ->
     num_value new = Some q ->
     _constrainedIvl x conf prev = inr (Z.max (Qtrunc q) (prev + 1))) /\
  (forall B s c ease i,
     _nextRevIvl B s c ease = inr i -> i <= maxIvl (_revConf B s c)) /\
  _daysLate s3_sched s3_card = 2 /\
  ebind (PyNum.mul (PInt (10 + 0)) (PFloat f1_2))
        (fun x => _constrainedIvl x demo_rev 10) = inr 12 /\
  ebind (ebind (truediv (PInt 2500) (PInt 1000))
               (fun fct => PyNum.mul (PInt (10 + 1)) fct))
        (fun x => _constrainedIvl x demo_rev 12) = inr 27 /\
  _nextRevIvl s3_base s3_sched s3_card 2 = inr 12 /\
  _nextRevIvl s3_base s3_sched s3_card 3 = inr 27 /\
  exists h, s3_answer 3 = Return tt h /\
            ivl (snd h) = 27 /\ factor (snd h) = 2500 /\
            due (snd h) = today s3_sched + 27.
Proof.
  split.
  { intros x conf prev new q Hm Hv. unfold _constrainedIvl.
    rewrite Hm. simpl ebind. now apply int_max2_value. }
  split; [intros B s c ease i; apply nextRevIvl_capped |].
  split; [reflexivity |].
  split; [vm_compute; reflexivity |].
  split; [vm_compute; reflexivity |].
  split; [vm_compute; reflexivity |].
  split; [vm_compute; reflexivity |].
  exists (heap_of (s3_answer 3)).
  split;
    [apply (returns_heap_of (s3_answer 3) tt); vm_compute; reflexivity |].
  repeat split; vm_compute; reflexivity.
Qed.

(** The general formula of C1 at the Good candidate of scenario S3: the
    product is 27.5 and the interval 27. *)
Lemma C1_witness :
  exists q,
    num_value (PFloat (lit 55 2)) = Some q /\
    _constrainedIvl (PFloat (lit 55 2)) demo_rev 12
    = inr (Z.max (Qtrunc q) (12 + 1)) /\
    Z.max (Qtrunc q) (12 + 1) = 27.
Proof.
  eexists. split; [vm_compute; reflexivity |].
  split.
  - apply (proj1 C1_constrained_interval (PFloat (lit 55 2)) demo_rev 12
             (PFloat (lit 55 2))).
    + vm_compute. reflexivity.
    + vm_compute. reflexivity.
  - vm_compute. reflexivity.
Defined.

(** C1 as stated fails: on scenario S3 the answer does not leave ivl=28
    and due=today+28. *)
Lemma C1_counterexample :
  ~ (exists h, s3_answer 3 = Return tt h /\
               ivl (snd h) = 28 /\ factor (snd h) = 2500 /\
               due (snd h) = today s3_sched + 28).
Proof.
  intros [h [H [Hi _]]].
  assert (E : ivl (snd (heap_of (s3_answer 3))) = 28)
    by (rewrite H; exact Hi).
  vm_compute in E. discriminate E.
Qed.



(** C3 as stated fails: a card whose interval has reached [maxIvl] keeps
    that interval, which is below the old interval plus one. *)
Lemma C3_counterexample :
  exists h, cap_answer 3 = Return tt h /\
            ~ (ivl cap_card + 1 <= ivl (snd h) <= maxIvl demo_rev).
Proof.
  exists (heap_of (cap_answer 3)).
  split; [apply (returns_heap_of (cap_answer 3) tt); vm_compute; reflexivity |].
  vm_compute. intros [H _]. apply H. reflexivity.
Qed.

(** C3 on scenario S3, ease 3. *)
Lemma C3_witness :
  ivl (snd (heap_of (s3_answer 3))) <= maxIvl demo_rev /\
  Z.min (ivl s3_card + 1) (maxIvl demo_rev)
    <= ivl (snd (heap_of (s3_answer 3))) /\
  (ivl s3_card < maxIvl demo_rev ->
   ivl s3_card + 1 <= ivl (snd (heap_of (s3_answer 3)))).
Proof.
  apply (C3_review_interval_bounds s3_base demo_lrn 3 s3_sched s3_card
           (heap_of (s3_answer 3))).
  - reflexivity.
  - lia.
  - reflexivity.
  - apply (returns_heap_of (s3_answer 3) tt). vm_compute. reflexivity.
Defined.

(** C4 as stated fails: on scenario S4 the lapse configuration has no
    delays, and the card leaves the review queue (it is suspended as a
    leech). *)
Lemma C4_counterexample :
  exists h, s4_answer = Return tt h /\
            delays (_lapseConf s3_base s4_sched s4_card) = [] /\
            lapses (snd h) = 8 /\ ivl (snd h) = 5 /\ factor (snd h) = 2300 /\
            queue (snd h) <> QUEUE_REV.
Proof.
  exists (heap_of s4_answer).
  split; [apply (returns_heap_of s4_answer tt); vm_compute; reflexivity |].
  split; [reflexivity |].
  repeat split; try (vm_compute; reflexivity).
  vm_compute. discriminate.
Qed.

(** C4 on the first lapse of scenario S3's card. *)
Lemma C4_witness :
  lapses (snd (heap_of s3_lapse)) = lapses s3_card + 1 /\
  factor (snd (heap_of s3_lapse)) = Z.max 1300 (factor s3_card - 200).
Proof.
  destruct (C4_lapse_reschedule s3_base demo_lrn s3_sched s3_card
              (heap_of s3_lapse))
    as [p [q [_ [_ [Hl [_ [_ [Hf _]]]]]]]].
  - reflexivity.
  - reflexivity.
  - apply (returns_heap_of s3_lapse tt). vm_compute. reflexivity.
  - split; [exact Hl | exact Hf].
Defined.


(** C8 on the first of the three due cards. *)
Lemma C8_witness :
  exists c',
    nth_error (cards (col (state_of dyn_emptied))) 0 = Some c' /\
    id c' = 11 /\ did c' = 1 /\ due c' = 90 /\
    odid c' = 0 /\ odue c' = 0 /\
    (CARD_DUE <> CARD_LRN ->
     type c' = CARD_DUE /\ queue c' = queue_of_type CARD_DUE).
Proof.
  apply (C8_dyn_round_trip s3_base 9 "" 10 0 dyn_sched (state_of dyn_filled)
           (state_of dyn_emptied) [11; 12; 13] 0
           (mkCard 11 1 1 CARD_DUE QUEUE_REV 90 10 2500 4 0 0 0 0 0 0 0
                   false)).
  - apply (returns_state_of dyn_filled [11; 12; 13]).
    vm_compute. reflexivity.
  - apply (returns_state_of dyn_emptied tt). vm_compute. reflexivity.
  - repeat constructor; simpl; intuition discriminate.
  - reflexivity.
  - simpl. auto.
  - reflexivity.
  - reflexivity.
Defined.

(** C10 on scenario S3, ease 2. *)
Lemma C10_witness :
  1300 <= factor (snd (heap_of (s3_answer 2))) /\
  (2 = 2 -> factor (snd (heap_of (s3_answer 2)))
            = Z.max 1300 (factor s3_card - 150)) /\
  (2 = 3 -> factor (snd (heap_of (s3_answer 2)))
            = Z.max 1300 (factor s3_card)) /\
  (2 = 4 -> factor (snd (heap_of (s3_answer 2)))
            = Z.max 1300 (factor s3_card + 150)).
Proof.
  apply (C10_review_factor_floor s3_base demo_lrn 2 s3_sched s3_card
           (heap_of (s3_answer 2))).
  - reflexivity.
  - lia.
  - reflexivity.
  - apply (returns_heap_of (s3_answer 2) tt). vm_compute. reflexivity.
Defined.

(** C5 on the card of scenario S4 before its eighth lapse is counted:
    seven lapses against a threshold of eight is no leech. *)
Lemma C5_witness :
  exists (b : bool) (h : Heap),
    _checkLeech demo_lapse (s4_sched, s4_card) = Return b h /\
    (b = true <-> is_leech 8 7) /\ (b = false -> h = (s4_sched, s4_card)).
Proof.
  destruct (proj1 (C5_leech_check s3_base demo_lapse s4_sched s4_card))
    as [b [h [Hr [Hb [_ [Hf _]]]]]].
  exists b, h. split; [exact Hr |]. split; [exact Hb | exact Hf].
Defined.


(** C9 on a suspended card: the invalid-queue error, after the sibling
    bury. *)
Lemma C9_witness :
  match answer_prelude s3_base susp_card susp_sched with
  | Return _ s1 =>
      answerCard s3_base demo_lrn 3 (susp_sched, susp_card) =
      Raise InvalidQueue
        (s1, set_wasNew (CardType_eqb (type susp_card) CARD_NEW)
               (set_reps (reps susp_card + 1) susp_card))
  | Raise e s1 =>
      answerCard s3_base demo_lrn 3 (susp_sched, susp_card)
      = Raise e (s1, susp_card) /\ e <> InvalidQueue
  end.
Proof.
  apply (proj1 (proj2 (C9_answerCard_errors s3_base demo_lrn 3 susp_sched
                         susp_card))).
  - lia.
  - unfold answerable. simpl. intuition discriminate.
Defined.

(** * Further properties of the scheduler *)

Section MoreFacts.

Variable B : BothScheduler.

Arguments _nextRevIvl : simpl never.
Arguments _nextLapseIvl : simpl never.
Arguments _dynIvlBoost : simpl never.
Arguments _startingLeft : simpl never.
Arguments _constrainedIvl : simpl never.
Arguments int_of_float : simpl never.
Arguments PyNum.mul : simpl never.
Arguments PyNum.add : simpl never.
Arguments truediv : simpl never.
Arguments py_int : simpl never.
Arguments Z.mul : simpl never.
Arguments Z.add : simpl never.
Arguments Z.sub : simpl never.
Arguments Z.max : simpl never.
Arguments Z.min : simpl never.
Arguments Z.div : simpl never.
Arguments Z.modulo : simpl never.
Arguments Z.leb : simpl never.
Arguments Z.ltb : simpl never.
Arguments Z.eqb : simpl never.
Arguments mem : simpl never.
Arguments sql_update : simpl never.
Arguments sqlite_row : simpl never.

(** A candidate interval is above the previous one, whatever the number
    it is computed from. *)
Lemma constrainedIvl_above (x : num) (conf : RevConf) (prev z : Z) :
  _constrainedIvl x conf prev = inr z -> prev + 1 <= z.
Proof.
  unfold _constrainedIvl. intros H.
  destruct (PyNum.mul x _) as [e | new]; simpl in H; simpl; [discriminate |].
  destruct (py_int_inv _ _ H) as [q [Hq Hz]]. subst z.
  unfold max2 in Hq.
  destruct (gt (PInt (prev + 1)) new) eqn:G.
  - simpl in Hq. inversion Hq. rewrite Qtrunc_inject_Z. lia.
  - rewrite (gt_int_value (prev + 1) new q Hq) in G.
    apply Qtrunc_ge.
    destruct (Qcompare q (inject_Z (prev + 1))) eqn:C; try discriminate G.
    + apply Qeq_alt in C. rewrite C. apply Qle_refl.
    + apply Qgt_alt in C. now apply Qlt_le_weak.
Qed.

Lemma nextRevIvl_candidates (s : Scheduler) (c : Card) (ease i : Z) :
  _nextRevIvl B s c ease = inr i ->
  exists r2 r3 r4,
    ivl c + 1 <= r2 /\ r2 + 1 <= r3 /\ r3 + 1 <= r4 /\
    forall e,
      _nextRevIvl B s c e =
      (if e =? 2 then inr (Z.min r2 (maxIvl (_revConf B s c)))
       else if e =? 3 then inr (Z.min r3 (maxIvl (_revConf B s c)))
       else if e =? 4 then inr (Z.min r4 (maxIvl (_revConf B s c)))
       else inl UnboundLocalError).
Proof.
  unfold _nextRevIvl. cbv zeta. intros H.
  destruct (truediv (PInt (factor c)) (PInt 1000)) as [e0 | fct];
    simpl in H; simpl; [discriminate |].
  destruct (PyNum.mul (PInt (ivl c + _daysLate s c / 4)) (PFloat f1_2))
    as [e0 | x2]; simpl in H; simpl; [discriminate |].
  destruct (_constrainedIvl x2 (_revConf B s c) (ivl c)) as [e0 | r2] eqn:C2;
    simpl in H; simpl; [discriminate |].
  destruct (PyNum.mul (PInt (ivl c + _daysLate s c / 2)) fct)
    as [e0 | x3]; simpl in H; simpl; [discriminate |].
  destruct (_constrainedIvl x3 (_revConf B s c) r2) as [e0 | r3] eqn:C3;
    simpl in H; simpl; [discriminate |].
  destruct (PyNum.mul (PInt (ivl c + _daysLate s c)) fct)
    as [e0 | x4']; simpl in H; simpl; [discriminate |].
  destruct (PyNum.mul x4' (ease4 (_revConf B s c)))
    as [e0 | x4]; simpl in H; simpl; [discriminate |].
  destruct (_constrainedIvl x4 (_revConf B s c) r3) as [e0 | r4] eqn:C4;
    simpl in H; simpl; [discriminate |].
  exists r2, r3, r4.
  split; [exact (constrainedIvl_above _ _ _ _ C2) |].
  split; [exact (constrainedIvl_above _ _ _ _ C3) |].
  split; [exact (constrainedIvl_above _ _ _ _ C4) |].
  intros e. unfold BUTTON_TWO, BUTTON_THREE, BUTTON_FOUR.
  destruct (e =? 2); [reflexivity |].
  destruct (e =? 3); [reflexivity |].
  destruct (e =? 4); reflexivity.
Qed.

(** X1.  When [_nextRevIvl] returns an interval the ease is 2, 3 or 4,
    it returns one for each of the three, and the three are ordered:
    [min(ivl + 1, maxIvl) <= Hard <= Good <= Easy <= maxIvl], strictly
    increasing below the cap.  For any other ease the method fails on its
    unassigned local [interval]. *)
Theorem X1_next_interval_order (s : Scheduler) (c : Card) (ease i : Z) :
  _nextRevIvl B s c ease = inr i ->
  let M := maxIvl (_revConf B s c) in
  2 <= ease <= 4 /\
  exists i2 i3 i4,
    _nextRevIvl B s c 2 = inr i2 /\
    _nextRevIvl B s c 3 = inr i3 /\
    _nextRevIvl B s c 4 = inr i4 /\
    Z.min (ivl c + 1) M <= i2 /\ i2 <= i3 /\ i3 <= i4 /\ i4 <= M /\
    (i3 < M -> i2 < i3) /\ (i4 < M -> i3 < i4) /\
    forall e, ~ (2 <= e <= 4) ->
              _nextRevIvl B s c e = inl UnboundLocalError.
Proof.
  intros H M.
  destruct (nextRevIvl_candidates s c ease i H)
    as [r2 [r3 [r4 [H2 [H3 [H4 Hall]]]]]].
  fold M in Hall.
  split.
  { rewrite Hall in H.
    destruct (Z.eqb_spec ease 2); [lia |].
    destruct (Z.eqb_spec ease 3); [lia |].
    destruct (Z.eqb_spec ease 4); [lia | discriminate H]. }
  exists (Z.min r2 M), (Z.min r3 M), (Z.min r4 M).
  split; [rewrite Hall; reflexivity |].
  split; [rewrite Hall; reflexivity |].
  split; [rewrite Hall; reflexivity |].
  repeat split; try lia.
  intros e He. rewrite Hall.
  destruct (Z.eqb_spec e 2); [lia |].
  destruct (Z.eqb_spec e 3); [lia |].
  destruct (Z.eqb_spec e 4); [lia | reflexivity].
Qed.


Variable lrn : Z -> M Heap unit.

Arguments _updateRevIvl : simpl never.
Arguments _rescheduleRev : simpl never.
Arguments _rescheduleLapse : simpl never.
Arguments _checkLeech : simpl never.
Arguments _logRev : simpl never.
Arguments _answerRevCard : simpl never.
Arguments _burySiblings : simpl never.
Arguments _resched : simpl never.
Arguments _revConf : simpl never.
Arguments _lapseConf : simpl never.
Arguments intTime : simpl never.
Arguments time_time : simpl never.
Arguments _updateStats : simpl never.
Arguments flushSched : simpl never.
Arguments markReview : simpl never.

(** An answer to a card of the review queue, step by step: the prelude
    (undo mark and sibling bury), [_answerRevCard] on the card with
    [reps] and [wasNew] set, the two statistics, the time stamp and the
    flush. *)
Lemma answerCard_rev_steps (ease : Z) (s : Scheduler) (c : Card) (h : Heap) :
  queue c = QUEUE_REV ->
  1 <= ease <= 4 ->
  answerCard B lrn ease (s, c) = Return tt h ->
  exists s1 h2 t s4,
    answer_prelude B c s = Return tt s1 /\
    _answerRevCard B ease
      (s1, set_wasNew (CardType_eqb (type c) CARD_NEW)
             (set_reps (reps c + 1) c)) = Return tt h2 /\
    (let s3 := _updateStats B (snd h2) "rev" 1 (fst h2) in
     intTime (_updateStats B (snd h2) "time" (timeTaken B s3 (snd h2)) s3)
     = Return t s4) /\
    (let cf := set_usn (col_usn (col s4)) (set_mod t (snd h2)) in
     h = (flushSched cf s4, cf)).
Proof.
  intros Hq He H. unfold answerCard in H.
  assert (E1 : negb ((1 <=? ease) && (ease <=? 4)) = false).
  { apply negb_false_iff, andb_true_iff. split; apply Z.leb_le; lia. }
  rewrite E1 in H. unfold_monad_in H. simpl in H.
  unfold answer_prelude.
  destruct (_burySiblingsOnAnswer s); simpl in H.
  - destruct (_burySiblings c (markReview B c s)) as [[] s1 | e s1] eqn:Sb;
      simpl in H; try discriminate H.
    rewrite Hq in H. simpl in H.
    exists s1. repeat (first [rewrite Hq in H; simpl in H | step_in H]).
    inversion H; subst h. simpl.
    match goal with E : _answerRevCard _ _ _ = Return ?a _ |- _ =>
      destruct a end.
    do 3 eexists. split; [reflexivity |]. split; [reflexivity |].
    split; [eassumption | reflexivity].
  - rewrite Hq in H. simpl in H.
    exists (markReview B c s).
    repeat (first [rewrite Hq in H; simpl in H | step_in H]).
    inversion H; subst h. simpl.
    match goal with E : _answerRevCard _ _ _ = Return ?a _ |- _ =>
      destruct a end.
    do 3 eexists. split; [reflexivity |]. split; [reflexivity |].
    split; [eassumption | reflexivity].
Qed.


(** [_logRev], spelled out: [stamp] is the millisecond stamp
    [int(time.time()*1000)] of a clock reading, [second] the retry. *)
Lemma logRev_run (ease : Z) (delay : num) (s : Scheduler) (c : Card) :
  let stamp (n : nat) :=
    ebind (PyNum.mul (PFloat (clock s n)) (PInt 1000)) py_int in
  let row (ms : Z) (s' : Scheduler) :=
    mkRevlog ms (id c) (col_usn (col s)) ease
             (if truthy (neg delay) then neg delay else PInt (ivl c))
             (lastIvl c) (factor c) (timeTaken B s' c) 1 in
  let logged (ms : Z) (s' : Scheduler) : Heap :=
    (set_col (set_revlog (revlog (col s) ++ [row ms s']) (col s)) s', c) in
  let taken (ms : Z) := existsb (fun r => rl_id r =? ms) (revlog (col s)) in
  let s1 := set_ticks (S (ticks s)) s in
  let s2 := set_ticks (S (S (ticks s))) s in
  let second : outcome Heap unit :=
    match stamp (S (ticks s)) with
    | inl e' => Raise e' (s2, c)
    | inr ms' =>
        if negb (sqlite_row (row ms' s2)) then Raise OverflowError (s2, c)
        else if taken ms' then Raise IntegrityError (s2, c)
        else Return tt (logged ms' s2)
    end in
  _logRev B ease delay (s, c) =
  match stamp (ticks s) with
  | inl e => second
  | inr ms =>
      if negb (sqlite_row (row ms s1)) then second
      else if taken ms then second
      else Return tt (logged ms s1)
  end.
Proof.
  cbv zeta. unfold _logRev, try_except.
  unfold bind, ret, raise, get, modify, of_exc, the_card, the_sched,
    upd_card, upd_sched, on_sched, time_time.
  cbn -[PyNum.mul py_int existsb timeTaken sqlite_row].
  destruct (ebind (PyNum.mul (PFloat (clock s (ticks s))) (PInt 1000)) py_int)
    as [e | ms];
    cbn -[PyNum.mul py_int existsb timeTaken sqlite_row];
    repeat match goal with
           | |- context [negb (sqlite_row ?r)] =>
               destruct (negb (sqlite_row r));
               cbn -[PyNum.mul py_int existsb timeTaken sqlite_row]
           | |- context [existsb ?f ?l] =>
               destruct (existsb f l);
               cbn -[PyNum.mul py_int existsb timeTaken sqlite_row]
           end;
    try reflexivity;
    (destruct (ebind (PyNum.mul (PFloat (clock s (S (ticks s)))) (PInt 1000))
                 py_int) as [e' | ms']);
    cbn -[PyNum.mul py_int existsb timeTaken sqlite_row];
    try change (set_ticks (S (S (ticks s))) (set_ticks (S (ticks s)) s))
      with (set_ticks (S (S (ticks s))) s);
    repeat match goal with
           | |- context [negb (sqlite_row ?r)] =>
               destruct (negb (sqlite_row r));
               cbn -[PyNum.mul py_int existsb timeTaken sqlite_row]
           | |- context [existsb ?f ?l] =>
               destruct (existsb f l);
               cbn -[PyNum.mul py_int existsb timeTaken sqlite_row]
           end;
    reflexivity.
Qed.


(** [_answerRevCard] is the rescheduling of the answer followed by the
    log. *)
Lemma answerRevCard_steps (ease : Z) (s : Scheduler) (c : Card) (h : Heap) :
  _answerRevCard B ease (s, c) = Return tt h ->
  exists d h1,
    (if ease =? 1 then _rescheduleLapse B (s, c) = Return d h1
     else _rescheduleRev B ease (s, c) = Return tt h1 /\ d = PInt 0) /\
    _logRev B ease d h1 = Return tt h.
Proof.
  unfold _answerRevCard, BUTTON_ONE. intros H.
  destruct (ease =? 1).
  - unfold bind in H.
    destruct (_rescheduleLapse B (s, c)) as [d h1 | e h1]; [| discriminate H].
    exists d, h1. split; [reflexivity | exact H].
  - unfold bind at 1 2 in H.
    destruct (_rescheduleRev B ease (s, c)) as [[] h1 | e h1];
      [| discriminate H].
    exists (PInt 0), h1. split; [split; reflexivity | exact H].
Qed.

(** [_burySiblings], spelled out: nothing happens without siblings to
    bury, otherwise the clock is read and the listed rows are rewritten. *)
Lemma burySiblings_run (card : Card) (s : Scheduler) :
  _burySiblings card s =
  match super_burySiblings card s with
  | [] => Return tt s
  | _ :: _ =>
      match int_of_float (clock s (ticks s)) with
      | inl e => Raise e (set_ticks (S (ticks s)) s)
      | inr t =>
          Return tt
            (set_col (set_cards
               (sql_update
                  (fun c => mem (id c) (super_burySiblings card s))
                  (fun c => set_usn (col_usn (col s))
                              (set_mod t (set_queue QUEUE_USER_BURIED c)))
                  (cards (col s))) (col s))
               (set_ticks (S (ticks s)) s))
      end
  end.
Proof.
  unfold _burySiblings, intTime, time_time.
  unfold bind, ret, get, modify, of_exc, raise.
  destruct (super_burySiblings card s) as [| i l]; [reflexivity |].
  destruct (int_of_float (clock s (ticks s))); reflexivity.
Qed.

(** The ids listed for burying are siblings of the card in the new or the
    review queue. *)
Lemma burySiblings_listed (card : Card) (s : Scheduler) (i : Z) :
  In i (super_burySiblings card s) ->
  exists c, In c (cards (col s)) /\ id c = i /\ nid c = nid card /\
            id c <> id card /\
            (queue c = QUEUE_NEW_CRAM \/ queue c = QUEUE_REV).
Proof.
  unfold super_burySiblings. intros H.
  apply in_map_iff in H. destruct H as [c [Hi Hin]].
  apply filter_In in Hin. destruct Hin as [Hin Hf].
  apply andb_true_iff in Hf. destruct Hf as [Hf Hq].
  apply andb_true_iff in Hf. destruct Hf as [Hn Hd].
  exists c. split; [exact Hin |]. split; [exact Hi |].
  split; [now apply Z.eqb_eq |].
  split.
  - apply negb_true_iff in Hd. now apply Z.eqb_neq.
  - apply orb_true_iff in Hq.
    destruct Hq as [Hq | Hq]; [left | right];
      destruct (queue c); simpl in Hq; try discriminate; reflexivity.
Qed.

Lemma ids_unique (l : list Card) (a b : Card) :
  NoDup (map id l) -> In a l -> In b l -> id a = id b -> a = b.
Proof.
  induction l as [| x l IH]; simpl; intros Hn Ha Hb E; [contradiction |].
  inversion Hn as [| ? ? Hx Hn']; subst.
  destruct Ha as [Ha | Ha]; destruct Hb as [Hb | Hb]; subst.
  - reflexivity.
  - exfalso. apply Hx. rewrite E. now apply in_map.
  - exfalso. apply Hx. rewrite <- E. now apply in_map.
  - now apply IH.
Qed.

(** X2.  [_burySiblings] never touches the row of the answered card; it
    changes nothing at all when the base class lists no sibling; and with
    unique card ids it leaves alone every card of another note and every
    card outside the new and review queues. *)
Theorem X2_bury_siblings_frame (card : Card) (s s' : Scheduler) :
  _burySiblings card s = Return tt s' ->
  (super_burySiblings card s = [] -> s' = s) /\
  (forall k c,
     nth_error (cards (col s)) k = Some c ->
     id c = id card ->
     nth_error (cards (col s')) k = Some c) /\
  (NoDup (map id (cards (col s))) ->
   forall k c,
     nth_error (cards (col s)) k = Some c ->
     nid c <> nid card \/
     (queue c <> QUEUE_NEW_CRAM /\ queue c <> QUEUE_REV) ->
     nth_error (cards (col s')) k = Some c).
Proof.
  rewrite burySiblings_run. intros H.
  destruct (super_burySiblings card s) as [| i l] eqn:L.
  - inversion H; subst s'. repeat split; auto.
  - destruct (int_of_float (clock s (ticks s))) as [e | t];
      [discriminate H |].
    inversion H; subst s'. clear H. simpl.
    split; [discriminate |].
    assert (Hkeep : forall k c,
      nth_error (cards (col s)) k = Some c ->
      ~ In (id c) (i :: l) ->
      nth_error
        (sql_update (fun c0 => mem (id c0) (i :: l))
           (fun c0 => set_usn (col_usn (col s))
                        (set_mod t (set_queue QUEUE_USER_BURIED c0)))
           (cards (col s))) k = Some c).
    { intros k c Hk Hn.
      rewrite (sql_update_nth _ _ _ k c Hk).
      destruct (mem (id c) (i :: l)) eqn:Me; [| reflexivity].
      apply mem_In in Me. contradiction. }
    split.
    + intros k c Hk Hid. apply Hkeep; [exact Hk |].
      intros Hin. rewrite <- L in Hin.
      apply burySiblings_listed in Hin.
      destruct Hin as [c2 [_ [E [_ [N _]]]]]. congruence.
    + intros Hnd k c Hk Hc. apply Hkeep; [exact Hk |].
      intros Hin. rewrite <- L in Hin.
      apply burySiblings_listed in Hin.
      destruct Hin as [c2 [Hin2 [E [Hn [_ Hq]]]]].
      assert (c2 = c).
      { apply (ids_unique (cards (col s))); auto.
        eapply nth_error_In; eauto. }
      subst c2. destruct Hc as [Hc | [Hc1 Hc2]]; [contradiction |].
      destruct Hq; contradiction.
Qed.

(** The prelude of an answer changes the undo record, and on a sibling
    bury the rows of the siblings and the clock. *)
Lemma answer_prelude_frame (c : Card) (s s1 : Scheduler) :
  answer_prelude B c s = Return tt s1 ->
  today s1 = today s /\ dayCutoff s1 = dayCutoff s /\
  decks (col s1) = decks (col s) /\ notes (col s1) = notes (col s) /\
  revlog (col s1) = revlog (col s) /\ col_usn (col s1) = col_usn (col s) /\
  hooks s1 = hooks s /\ _lrnQueue s1 = _lrnQueue s /\
  lrnCount s1 = lrnCount s /\ _spreadRev s1 = _spreadRev s /\
  rng s1 = rng s /\
  (forall k c0, nth_error (cards (col s)) k = Some c0 ->
     exists c1, nth_error (cards (col s1)) k = Some c1 /\ id c1 = id c0 /\
                (c1 = c0 \/ (id c0 <> id c /\ queue c1 = QUEUE_USER_BURIED))).
Proof.
  unfold answer_prelude. intros H.
  assert (Hm : forall k c0,
            nth_error (cards (col (markReview B c s))) k = Some c0 <->
            nth_error (cards (col s)) k = Some c0) by (intros; reflexivity).
  destruct (_burySiblingsOnAnswer s).
  - rewrite burySiblings_run in H.
    destruct (super_burySiblings c (markReview B c s)) as [| i l] eqn:L.
    + inversion H; subst s1. unfold markReview. simpl.
      repeat (split; [reflexivity |]).
      intros k c0 Hk. exists c0. auto.
    + destruct (int_of_float _) as [e | t]; [discriminate H |].
      inversion H; subst s1. clear H. unfold markReview. simpl.
      repeat (split; [reflexivity |]).
      intros k c0 Hk.
      rewrite (sql_update_nth _ _ _ k c0 Hk).
      destruct (mem (id c0) (i :: l)) eqn:Me.
      * eexists. split; [reflexivity |]. split; [reflexivity |].
        right. split; [| reflexivity].
        apply mem_In in Me. rewrite <- L in Me.
        apply burySiblings_listed in Me.
        destruct Me as [c2 [_ [E [_ [N _]]]]]. congruence.
      * exists c0. auto.
  - inversion H; subst s1. unfold markReview. simpl.
    repeat (split; [reflexivity |]).
    intros k c0 Hk. exists c0. auto.
Qed.

(** [_rescheduleRev] works on the card object and the random generator
    only. *)
Lemma rescheduleRev_frame (ease : Z) (s : Scheduler) (c : Card) (h : Heap) :
  _rescheduleRev B ease (s, c) = Return tt h ->
  id (snd h) = id c /\ reps (snd h) = reps c /\ lastIvl (snd h) = ivl c /\
  col (fst h) = col s /\ ticks (fst h) = ticks s /\ clock (fst h) = clock s /\
  today (fst h) = today s.
Proof.
  unfold _rescheduleRev, _updateRevIvl, _adjRevIvl. intros H.
  unfold_monad_in H. simpl in H.
  repeat step_in H; inversion H; subst h; simpl; repeat split; reflexivity.
Qed.

(** [_rescheduleLapse] leaves the stored rows, the log and the decks
    alone. *)
Lemma rescheduleLapse_frame (s : Scheduler) (c : Card) (d : num) (h : Heap) :
  _rescheduleLapse B (s, c) = Return d h ->
  id (snd h) = id c /\ reps (snd h) = reps c /\ lastIvl (snd h) = ivl c /\
  cards (col (fst h)) = cards (col s) /\
  revlog (col (fst h)) = revlog (col s) /\
  decks (col (fst h)) = decks (col s) /\
  col_usn (col (fst h)) = col_usn (col s) /\
  clock (fst h) = clock s /\ today (fst h) = today s.
Proof.
  unfold _rescheduleLapse, _checkLeech. intros H.
  unfold_monad_in H. unfold time_time, addTag, runHook in H. simpl in H.
  repeat step_in H; inversion H; subst h; simpl; repeat split; reflexivity.
Qed.

(** A logged review: one row appended under a fresh stamp, after one or
    two readings of the clock. *)
Lemma logRev_row (ease : Z) (delay : num) (s : Scheduler) (c : Card)
    (h : Heap) :
  _logRev B ease delay (s, c) = Return tt h ->
  exists ms s',
    (s' = set_ticks (S (ticks s)) s \/ s' = set_ticks (S (S (ticks s))) s) /\
    existsb (fun r => rl_id r =? ms) (revlog (col s)) = false /\
    h = (set_col
           (set_revlog
              (revlog (col s) ++
               [mkRevlog ms (id c) (col_usn (col s)) ease
                  (if truthy (neg delay) then neg delay else PInt (ivl c))
                  (lastIvl c) (factor c) (timeTaken B s' c) 1])
              (col s)) s', c).
Proof.
  rewrite logRev_run. cbv zeta. intros H.
  assert (Second :
    match
      ebind (PyNum.mul (PFloat (clock s (S (ticks s)))) (PInt 1000)) py_int
    with
    | inl e' => Raise e' (set_ticks (S (S (ticks s))) s, c)
    | inr ms' =>
        if negb (sqlite_row
             (mkRevlog ms' (id c) (col_usn (col s)) ease
                (if truthy (neg delay) then neg delay else PInt (ivl c))
                (lastIvl c) (factor c)
                (timeTaken B (set_ticks (S (S (ticks s))) s) c) 1))
        then Raise OverflowError (set_ticks (S (S (ticks s))) s, c)
        else if existsb (fun r => rl_id r =? ms') (revlog (col s))
        then Raise IntegrityError (set_ticks (S (S (ticks s))) s, c)
        else Return tt
               (set_col (set_revlog
                  (revlog (col s) ++
                   [mkRevlog ms' (id c) (col_usn (col s)) ease
                      (if truthy (neg delay) then neg delay
                       else PInt (ivl c))
                      (lastIvl c) (factor c)
                      (timeTaken B (set_ticks (S (S (ticks s))) s) c) 1])
                  (col s)) (set_ticks (S (S (ticks s))) s), c)
    end = Return tt h ->
    exists ms s',
      (s' = set_ticks (S (ticks s)) s \/ s' = set_ticks (S (S (ticks s))) s) /\
      existsb (fun r => rl_id r =? ms) (revlog (col s)) = false /\
      h = (set_col
             (set_revlog
                (revlog (col s) ++
                 [mkRevlog ms (id c) (col_usn (col s)) ease
                    (if truthy (neg delay) then neg delay else PInt (ivl c))
                    (lastIvl c) (factor c) (timeTaken B s' c) 1])
                (col s)) s', c)).
  { destruct (ebind (PyNum.mul (PFloat (clock s (S (ticks s)))) (PInt 1000))
                py_int) as [e' | ms']; [discriminate |].
    destruct (negb (sqlite_row _)); [discriminate |].
    destruct (existsb _ _) eqn:T; [discriminate |].
    intros R. inversion R. exists ms', (set_ticks (S (S (ticks s))) s). auto. }
  destruct (ebind (PyNum.mul (PFloat (clock s (ticks s))) (PInt 1000)) py_int)
    as [e | ms]; [exact (Second H) |].
  destruct (negb (sqlite_row _)); [exact (Second H) |].
  destruct (existsb (fun r => rl_id r =? ms) (revlog (col s))) eqn:T1;
    [exact (Second H) |].
  inversion H. exists ms, (set_ticks (S (ticks s)) s). auto.
Qed.

Lemma existsb_stamp (ms : Z) (l : list RevlogRow) :
  existsb (fun r => rl_id r =? ms) l = false -> ~ In ms (map rl_id l).
Proof.
  intros H Hin. apply in_map_iff in Hin. destruct Hin as [r [E Hr]].
  assert (T : existsb (fun r => rl_id r =? ms) l = true).
  { apply existsb_exists. exists r. split; [exact Hr | now apply Z.eqb_eq]. }
  congruence.
Qed.



(** X4.  Answering a card of the review queue with ease 1 to 4, when it
    returns: the card keeps its id, [reps] grows by one, [lastIvl] is the
    old interval and [usn] the collection's; the stored row of the card is
    the final card object; every other row keeps its id and is unchanged
    or was moved to the buried queue; and exactly one log row is appended,
    for this card and ease, with the old and the new interval. *)
Theorem X4_answer_review_record (ease : Z) (s : Scheduler) (c : Card)
    (h : Heap) :
  queue c = QUEUE_REV ->
  1 <= ease <= 4 ->
  answerCard B lrn ease (s, c) = Return tt h ->
  id (snd h) = id c /\ reps (snd h) = reps c + 1 /\
  lastIvl (snd h) = ivl c /\ usn (snd h) = col_usn (col s) /\
  (forall k c0,
     nth_error (cards (col s)) k = Some c0 -> id c0 = id c ->
     nth_error (cards (col (fst h))) k = Some (snd h)) /\
  (forall k c0,
     nth_error (cards (col s)) k = Some c0 -> id c0 <> id c ->
     exists c1, nth_error (cards (col (fst h))) k = Some c1 /\
                id c1 = id c0 /\
                (c1 = c0 \/ queue c1 = QUEUE_USER_BURIED)) /\
  exists row,
    revlog (col (fst h)) = revlog (col s) ++ [row] /\
    ~ In (rl_id row) (map rl_id (revlog (col s))) /\
    rl_cid row = id c /\ rl_ease row = ease /\
    rl_lastIvl row = ivl c /\ rl_factor row = factor (snd h) /\
    (2 <= ease -> rl_ivl row = PInt (ivl (snd h))).
Proof.
  intros Hq He H.
  destruct (answerCard_rev_steps ease s c h Hq He H)
    as [s1 [h2 [t [s4 [Hp [Ha [Ht Hh]]]]]]].
  cbv zeta in Ht, Hh.
  destruct (answer_prelude_frame c s s1 Hp)
    as [_ [_ [_ [_ [Prl [Pusn [_ [_ [_ [_ [_ Pcards]]]]]]]]]]].
  set (c0 := set_wasNew (CardType_eqb (type c) CARD_NEW)
               (set_reps (reps c + 1) c)) in Ha.
  destruct (answerRevCard_steps ease s1 c0 h2 Ha) as [d [h1 [Hr Hl]]].
  assert (F : id (snd h1) = id c /\ reps (snd h1) = reps c + 1 /\
              lastIvl (snd h1) = ivl c /\
              cards (col (fst h1)) = cards (col s1) /\
              revlog (col (fst h1)) = revlog (col s1) /\
              col_usn (col (fst h1)) = col_usn (col s1) /\
              (2 <= ease -> d = PInt 0)).
  { destruct (Z.eqb_spec ease 1) as [E1 | E1].
    - apply rescheduleLapse_frame in Hr.
      destruct Hr as [R1 [R2 [R3 [R4 [R5 [_ [R7 _]]]]]]].
      repeat split; try assumption. lia.
    - destruct Hr as [Hr Hd]. apply rescheduleRev_frame in Hr.
      destruct Hr as [R1 [R2 [R3 [R4 _]]]].
      rewrite R4. repeat split; try assumption. intros _. exact Hd. }
  destruct F as [F1 [F2 [F3 [F4 [F5 [F6 F7]]]]]].
  destruct h1 as [sa ca]. simpl in F1, F2, F3, F4, F5, F6.
  apply logRev_row in Hl.
  destruct Hl as [ms [s' [Hs' [Hfresh Hh2]]]]. subst h2.
  simpl in Ht.
  apply intTime_returns in Ht.
  assert (E4 : cards (col s4) = cards (col s1) /\
               revlog (col s4) = revlog (col s1) ++
                 [mkRevlog ms (id ca) (col_usn (col sa)) ease
                    (if truthy (neg d) then neg d else PInt (ivl ca))
                    (lastIvl ca) (factor ca) (timeTaken B s' ca) 1] /\
               col_usn (col s4) = col_usn (col s1)).
  { subst s4. unfold _updateStats. simpl.
    rewrite F4, F5, F6. repeat split; reflexivity. }
  destruct E4 as [E4c [E4r E4u]].
  subst h. simpl snd. simpl fst. cbv beta.
  split; [exact F1 |]. split; [exact F2 |]. split; [exact F3 |].
  split; [simpl; congruence |].
  split; [| split].
  - intros k r Hk Hid.
    destruct (Pcards k r Hk) as [r1 [Hk1 [Hid1 _]]].
    unfold flushSched. simpl.
    rewrite E4c, (sql_update_nth _ _ _ k r1 Hk1). simpl.
    replace (id r1 =? id ca) with true; [reflexivity |].
    symmetry. apply Z.eqb_eq. congruence.
  - intros k r Hk Hid.
    destruct (Pcards k r Hk) as [r1 [Hk1 [Hid1 Hor]]].
    exists r1. unfold flushSched. simpl.
    rewrite E4c, (sql_update_nth _ _ _ k r1 Hk1). simpl.
    replace (id r1 =? id ca) with false
      by (symmetry; apply Z.eqb_neq; congruence).
    split; [reflexivity |]. split; [exact Hid1 |].
    destruct Hor as [Hor | [_ Hor]]; auto.
  - eexists. unfold flushSched. simpl. rewrite E4r, Prl.
    split; [reflexivity |]. simpl.
    split; [rewrite <- Prl, <- F5; now apply existsb_stamp |].
    repeat split; try assumption; try reflexivity.
    intros G. rewrite (F7 G). reflexivity.
Qed.

Variable nlrn : Z -> M Heap num.

(** An answer to a card of the review queue leaves on the card the
    interval its rescheduling computed. *)
Lemma answerCard_rev_card (ease : Z) (s : Scheduler) (c : Card) (h : Heap) :
  queue c = QUEUE_REV ->
  1 <= ease <= 4 ->
  answerCard B lrn ease (s, c) = Return tt h ->
  exists s1 d h1 t u,
    today s1 = today s /\ decks (col s1) = decks (col s) /\
    _spreadRev s1 = _spreadRev s /\ dayCutoff s1 = dayCutoff s /\
    _lrnQueue s1 = _lrnQueue s /\ lrnCount s1 = lrnCount s /\
    (if ease =? 1
     then _rescheduleLapse B
            (s1, set_wasNew (CardType_eqb (type c) CARD_NEW)
                   (set_reps (reps c + 1) c)) = Return d h1
     else _rescheduleRev B ease
            (s1, set_wasNew (CardType_eqb (type c) CARD_NEW)
                   (set_reps (reps c + 1) c)) = Return tt h1) /\
    snd h = set_usn u (set_mod t (snd h1)).
Proof.
  intros Hq He H.
  destruct (answerCard_rev_steps ease s c h Hq He H)
    as [s1 [h2 [t [s4 [Hp [Ha [_ Hh]]]]]]].
  cbv zeta in Hh.
  destruct (answer_prelude_frame c s s1 Hp)
    as [P1 [P2 [P3 [_ [_ [_ [_ [P8 [P9 [P10 _]]]]]]]]]].
  destruct (answerRevCard_steps ease s1 _ h2 Ha) as [d [h1 [Hr Hl]]].
  destruct h1 as [sa ca].
  apply logRev_row in Hl. destruct Hl as [ms [s' [_ [_ Hh2]]]].
  subst h2 h. simpl.
  exists s1, d, (sa, ca), t. eexists.
  repeat (split; [assumption |]).
  split; [| reflexivity].
  destruct (ease =? 1); [exact Hr | exact (proj1 Hr)].
Qed.

(** X5.  For a card of the review queue that reschedules, the interval
    [nextIvl] reports for a button is the one [answerCard] then gives the
    card, in seconds: for ease 2 to 4 when reviews are not spread, and for
    ease 1 without relearning steps.  With relearning steps, ease 1
    reports the first step in seconds.  The preview changes no state. *)
Theorem X5_preview_is_outcome (ease : Z) (s : Scheduler) (c : Card)
    (h : Heap) :
  queue c = QUEUE_REV ->
  1 <= ease <= 4 ->
  _resched B s c = true ->
  answerCard B lrn ease (s, c) = Return tt h ->
  (2 <= ease -> _spreadRev s = false ->
   nextIvl B nlrn ease (s, c) = Return (PInt (ivl (snd h) * 86400)) (s, c)) /\
  (ease = 1 -> delays (_lapseConf B s c) = [] ->
   nextIvl B nlrn ease (s, c) = Return (PInt (ivl (snd h) * 86400)) (s, c)) /\
  (ease = 1 ->
   forall d0 rest, delays (_lapseConf B s c) = d0 :: rest ->
   nextIvl B nlrn ease (s, c) = of_exc (PyNum.mul d0 (PInt 60)) (s, c)).
Proof.
  intros Hq He Hrs H.
  destruct (answerCard_rev_card ease s c h Hq He H)
    as [s1 [d [h1 [t [u [Ht [Hd [Hsp [_ [_ [_ [Hr Hh]]]]]]]]]]]].
  set (c0 := set_wasNew (CardType_eqb (type c) CARD_NEW)
               (set_reps (reps c + 1) c)) in Hr.
  assert (Hrs1 : _resched B s1 c0 = true)
    by (rewrite <- Hrs; now apply resched_ext).
  assert (Hn : forall e', nextIvl B nlrn e' (s, c) =
            if e' =? 1 then
              match delays (_lapseConf B s c) with
              | d0 :: _ => of_exc (PyNum.mul d0 (PInt 60)) (s, c)
              | [] => match _nextLapseIvl c (_lapseConf B s c) with
                      | inl e => Raise e (s, c)
                      | inr r => Return (PInt (r * 86400)) (s, c)
                      end
              end
            else match _nextRevIvl B s c e' with
                 | inl e => Raise e (s, c)
                 | inr r => Return (PInt (r * 86400)) (s, c)
                 end).
  { intros e'. unfold nextIvl, BUTTON_ONE.
    unfold bind, the_card, the_sched, of_exc, ret, raise. simpl.
    rewrite Hq. simpl.
    destruct (e' =? 1).
    - destruct (delays (_lapseConf B s c)); [| reflexivity].
      destruct (_nextLapseIvl c (_lapseConf B s c)); reflexivity.
    - destruct (_nextRevIvl B s c e'); reflexivity. }
  split; [| split].
  - intros G Hns. rewrite Hn.
    assert (E1 : (ease =? 1) = false) by (apply Z.eqb_neq; lia).
    rewrite E1 in Hr |- *.
    apply rescheduleRev_returns in Hr; [| exact Hrs1 | lia].
    destruct Hr as [ideal [fuzzed [adj [Hi [Hf [_ [Hc _]]]]]]].
    cbv zeta in Hc.
    rewrite (nextRevIvl_ext B s1 s c0 c ease) in Hi by (auto; reflexivity).
    rewrite (revConf_ext B s1 s c0 c) in Hc by (auto; reflexivity).
    rewrite Hsp, Hns in Hf. subst fuzzed.
    rewrite Hi.
    destruct (nextRevIvl_candidates s c ease ideal Hi)
      as [r2 [r3 [r4 [G2 [G3 [G4 Hall]]]]]].
    assert (Hlow : Z.min (ivl c + 1) (maxIvl (_revConf B s c)) <= ideal
                   /\ ideal <= maxIvl (_revConf B s c)).
    { rewrite Hall in Hi.
      destruct (ease =? 2); [inversion Hi; lia |].
      destruct (ease =? 3); [inversion Hi; lia |].
      destruct (ease =? 4); [inversion Hi; lia | discriminate Hi]. }
    assert (Hivl : ivl (snd h) = ideal).
    { rewrite Hh. simpl. rewrite Hc.
      change (ivl c0) with (ivl c). change (odid c0) with (odid c).
      destruct (negb (odid c =? 0)); simpl; lia. }
    rewrite Hivl. reflexivity.
  - intros E De. subst ease. rewrite Hn. simpl (1 =? 1). cbv iota.
    rewrite De.
    change (1 =? 1) with true in Hr. cbv iota in Hr.
    apply rescheduleLapse_returns in Hr; [| exact Hrs1].
    cbv zeta in Hr.
    destruct Hr as [p [t' [b [Hm [Hp [_ [_ [_ [Hi _]]]]]]]]].
    rewrite (lapseConf_ext B s1 s c0 c) in Hm, Hi by (auto; reflexivity).
    change (ivl c0) with (ivl c) in Hm.
    unfold _nextLapseIvl. rewrite Hm. simpl. rewrite Hp. simpl.
    rewrite Hh. simpl. rewrite Hi. reflexivity.
  - intros E d0 rest De. subst ease. rewrite Hn. simpl (1 =? 1). cbv iota.
    rewrite De. reflexivity.
Qed.

Lemma lapsed_card_more (t n : Z) (c : Card) :
  type (lapsed_card t n c) = type c /\ id (lapsed_card t n c) = id c /\
  (odid c = 0 -> odue (lapsed_card t n c) = odue c).
Proof.
  unfold lapsed_card. destruct (odid c =? 0) eqn:E; simpl;
    repeat split; try reflexivity; intros N;
    apply Z.eqb_neq in E; contradiction.
Qed.

Opaque unwound lapsed_card.

(** X6.  A lapse with relearning steps, of a card that reschedules and is
    not suspended as a leech, returns the delay of the first step, keeps
    the card type, reads the clock once, saves the review due date in
    [odue] when the card had none there, and puts the card either in the
    learning queue (due before the day cutoff, pushed on [_lrnQueue],
    counted in [lrnCount]) or in the day-learning queue (due tomorrow or
    later, nothing queued or counted). *)
Theorem X6_lapse_enters_relearning (s : Scheduler) (c : Card) (d : num)
    (h : Heap) :
  queue c = QUEUE_REV ->
  _resched B s c = true ->
  _rescheduleLapse B (s, c) = Return d h ->
  let conf := _lapseConf B s c in
  delays conf <> [] ->
  ~ (is_leech (leechFails conf) (lapses c + 1) /\
     leechAction conf = LEECH_SUSPEND) ->
  d = _delayForGrade B conf 0 /\
  type (snd h) = type c /\
  ticks (fst h) = S (ticks s) /\
  (odue c = 0 \/ odid c <> 0 -> odue (snd h) = today s + ivl (snd h)) /\
  (queue (snd h) = QUEUE_LRN /\
   due (snd h) < dayCutoff s /\
   _lrnQueue (fst h) = heappush (_lrnQueue s) (due (snd h), id c) /\
   lrnCount (fst h) = lrnCount s + left (snd h) / 1000
   \/
   queue (snd h) = QUEUE_DAY_LRN /\
   today s + 1 <= due (snd h) /\
   _lrnQueue (fst h) = _lrnQueue s /\
   lrnCount (fst h) = lrnCount s).
Proof.
  intros Hq Hr H conf Hde Hnl.
  unfold _rescheduleLapse in H. unfold_monad_in H. simpl in H.
  change (_resched B s (set_lastIvl (ivl c) c)) with (_resched B s c) in H.
  rewrite Hr in H. simpl in H.
  change (_lapseConf B s c) with conf in H.
  unfold _nextLapseIvl in H. simpl in H.
  destruct (PyNum.mul (PInt (ivl c)) (mult conf)) as [e | p] eqn:Mu;
    simpl in H; try discriminate H.
  destruct (py_int p) as [e | t] eqn:Pi; simpl in H; try discriminate H.
  set (n := Z.max (minInt conf) t) in H |- *.
  match type of H with
  | match ?X with _ => _ end = _ =>
      assert (EX : X = Return tt (s, lapsed_card (today s) n c))
        by (with_strategy transparent [lapsed_card]
              (unfold lapsed_card; destruct (odid c =? 0); reflexivity));
      rewrite EX in H; clear EX
  end.
  destruct (checkLeech_run conf s (lapsed_card (today s) n c))
    as [b [Hrun Hb]].
  rewrite Hrun in H. clear Hrun.
  destruct (lapsed_card_fields (today s) n c)
    as [Fl [Fi [Ff [Fd [Fq [Fn [Fle [Fod Fou]]]]]]]].
  rewrite Fl in Hb.
  assert (Hact : b = true -> leechAction conf = LEECH_TAGONLY).
  { intros Eb. destruct (leechAction conf) eqn:La; [| reflexivity].
    exfalso. apply Hnl. split; [now apply Hb | reflexivity]. }
  set (c1 := lapsed_card (today s) n c) in *.
  assert (Hc1 : exists s2,
            (if b
             then (runHook "leech" (addTag (nid c1) "leech" s),
                   if LeechAction_eqb (leechAction conf) LEECH_SUSPEND
                   then set_queue QUEUE_SUSPENDED (unwound c1) else c1)
             else (s, c1)) = (s2, c1) /\
            ticks s2 = ticks s /\ clock s2 = clock s /\
            dayCutoff s2 = dayCutoff s /\ today s2 = today s /\
            _lrnQueue s2 = _lrnQueue s /\ lrnCount s2 = lrnCount s /\
            decks (col s2) = decks (col s)).
  { destruct b.
    - rewrite (Hact eq_refl). simpl. eexists. split; [reflexivity |].
      unfold runHook, addTag. simpl. repeat split; reflexivity.
    - exists s. repeat split; reflexivity. }
  destruct Hc1 as [s2 [E2 [T1 [T2 [T3 [T4 [T5 [T6 T7]]]]]]]].
  rewrite E2 in H. simpl in H.
  rewrite Fq, Hq in H. simpl in H. rewrite andb_false_r in H.
  destruct (delays conf) as [| d0 rest] eqn:De; [contradiction |].
  destruct (lapsed_card_more (today s) n c) as [Fty [Fid Fo0]].
  fold c1 in Fty, Fid, Fo0.
  assert (Hdiv : forall a, dayCutoff s <= a ->
                 today s + 1 <= today s + ((a - dayCutoff s) / 86400 + 1)).
  { intros a Ha.
    assert (0 <= (a - dayCutoff s) / 86400)
      by (apply Z.div_pos; lia). lia. }
  assert (Hod : odue c = 0 \/ odid c <> 0 ->
                (if odue c1 =? 0 then today s + n else odue c1)
                = today s + n).
  { intros Ho. destruct (odue c1 =? 0) eqn:Od1; [reflexivity |].
    destruct (Z.eq_dec (odid c) 0) as [Z0 | Z0].
    - destruct Ho as [Ho | Ho]; [| contradiction].
      rewrite (Fo0 Z0), Ho in Od1. discriminate Od1.
    - now apply Fou. }
  assert (Hdue : due c1 = today s + n) by exact Fd.
  destruct (odue c1 =? 0) eqn:Od1; simpl in H;
    rewrite ?T1, ?T2, ?T3, ?T4, ?T5, ?T6 in H;
    (destruct (ebind (PyNum.add (_delayForGrade B conf 0)
                        (PFloat (clock s (ticks s)))) py_int)
       as [e | a0]; simpl in H; [discriminate H |]);
    rewrite ?T3, ?T4, ?T5, ?T6 in H;
    destruct (a0 <? dayCutoff s) eqn:Lt; simpl in H;
    inversion H; subst d h; clear H; simpl;
    rewrite ?T1, ?T5, ?T6, ?Fty, ?Fid, ?Fi, ?Hdue;
    (split; [reflexivity |]); (split; [reflexivity |]);
    (split; [reflexivity |]); (split; [exact Hod |]).
  1, 3: left; apply Z.ltb_lt in Lt; repeat split; auto.
  all: right; apply Z.ltb_ge in Lt; repeat split; auto.
Qed.


(** The review queue, for a shuffle that permutes its argument
    ([random.shuffle]). *)
Section Shuffled.

Hypothesis shuffle_perm :
  forall seed l, Permutation (shuffle B seed l) l.




Lemma In_firstn {A} (n : nat) (l : list A) (x : A) :
  In x (firstn n l) -> In x l.
Proof.
  intros H. rewrite <- (firstn_skipn n l). apply in_or_app. now left.
Qed.

Lemma rev_fetch_cards (s : Scheduler) (d lim x : Z) :
  In x (rev_fetch s d lim) ->
  exists c, In c (cards (col s)) /\ id c = x /\ did c = d /\
            queue c = QUEUE_REV /\ due c <= today s.
Proof.
  unfold rev_fetch, sql_select_ids. intros H.
  assert (Hin : In x (map id (filter
            (fun c => (did c =? d) && Queue_eqb (queue c) QUEUE_REV
                      && (due c <=? today s)) (cards (col s))))).
  { apply in_map_iff.
    assert (Hb : In x (map id (filter
              (fun c => (did c =? d) && Queue_eqb (queue c) QUEUE_REV
                        && (due c <=? today s)) (by_due (cards (col s))))))
      by (destruct (lim <? 0); [exact H | eapply In_firstn; eauto]).
    apply in_map_iff in Hb. destruct Hb as [c [Hi Hc]].
    exists c. split; [exact Hi |].
    apply filter_In in Hc. apply filter_In.
    destruct Hc as [Hc Hf]. split; [now apply by_due_In | exact Hf]. }
  apply in_map_iff in Hin. destruct Hin as [c [Hi Hc]].
  apply filter_In in Hc. destruct Hc as [Hc Hf].
  apply andb_true_iff in Hf. destruct Hf as [Hf Hd].
  apply andb_true_iff in Hf. destruct Hf as [Hdid Hq].
  exists c. split; [exact Hc |]. split; [exact Hi |].
  split; [now apply Z.eqb_eq |].
  split; [destruct (queue c); simpl in Hq; try discriminate; reflexivity |].
  now apply Z.leb_le.
Qed.

Lemma rev_fetch_length (s : Scheduler) (d lim : Z) :
  0 <= lim -> Z.of_nat (List.length (rev_fetch s d lim)) <= lim.
Proof.
  intros H. unfold rev_fetch, sql_select_ids.
  destruct (lim <? 0) eqn:L; [apply Z.ltb_lt in L; lia |].
  rewrite length_firstn. lia.
Qed.

(** X22.  With a shuffle that permutes, a successful fill of the review
    queue takes all its cards from one deck, the first of the pending
    list whose limited fetch is not empty: the queue is a permutation of
    that fetch (its reverse for a filtered deck), every queued id is a due
    review card of that deck, the length respects the limit and equals
    [_revForDeck] under the report limit, and the pending list drops the
    decks passed over. *)
Theorem X22_review_queue_one_deck (dids : list Z) :
  forall s s',
  fillRev_loop B dids s = Return true s' ->
  exists skipped d rest,
    dids = skipped ++ d :: rest /\
    (forall d0, In d0 skipped ->
       rev_fetch s d0 (Z.min (queueLimit s) (_deckRevLimit B s d0)) = []) /\
    let lim := Z.min (queueLimit s) (_deckRevLimit B s d) in
    lim <> 0 /\
    _revQueue s' <> [] /\
    Permutation (_revQueue s') (rev_fetch s d lim) /\
    (deck_is_dyn s d = true -> _revQueue s' = rev (rev_fetch s d lim)) /\
    (forall x, In x (_revQueue s') ->
       exists c, In c (cards (col s)) /\ id c = x /\ did c = d /\
                 queue c = QUEUE_REV /\ due c <= today s) /\
    (0 <= lim -> Z.of_nat (List.length (_revQueue s')) <= lim) /\
    (lim <= reportLimit s ->
     Z.of_nat (List.length (_revQueue s')) = _revForDeck s d lim) /\
    _revDids s' =
      (if Z.of_nat (List.length (_revQueue s')) <? lim then rest
       else match skipped with [] => _revDids s | _ => d :: rest end).
Proof.
  induction dids as [| d rest IH]; intros s s' H.
  - discriminate H.
  - rewrite fillRev_loop_step in H. cbv zeta in H.
    destruct (negb (Z.min (queueLimit s) (_deckRevLimit B s d) =? 0)) eqn:L.
    + destruct (rev_fetch s d (Z.min (queueLimit s) (_deckRevLimit B s d)))
        as [| x l] eqn:F.
      * destruct (IH _ _ H) as [sk [d1 [r1 [E [Hsk Hrest]]]]].
        exists (d :: sk), d1, r1. split; [simpl; now rewrite E |].
        split.
        { intros d0 [E0 | Hin]; [subst d0; exact F | exact (Hsk d0 Hin)]. }
        cbv zeta in Hrest |- *.
        destruct Hrest as [R1 [R2 [R3 [R4 [R5 [R6 [R7 R8]]]]]]].
        repeat (split; [assumption |]).
        rewrite R8. simpl _revDids. rewrite E.
        destruct (_ <? _); [reflexivity |]. now destruct sk.
      * exists [], d, rest. split; [reflexivity |].
        split; [intros d0 []|]. cbv zeta. rewrite F.
        set (lim := Z.min (queueLimit s) (_deckRevLimit B s d)) in *.
        set (q := if deck_is_dyn s d then rev (x :: l)
                  else shuffle B (today s) (x :: l)) in H.
        assert (Hq : _revQueue s' = q).
        { destruct (_ <? _); inversion H; reflexivity. }
        assert (Hp : Permutation q (x :: l)).
        { unfold q. destruct (deck_is_dyn s d).
          - apply Permutation_sym, Permutation_rev.
          - apply shuffle_perm. }
        assert (Hlen : List.length q = List.length (x :: l))
          by (now apply Permutation_length).
        rewrite Hq.
        split; [apply negb_true_iff, Z.eqb_neq in L; exact L |].
        split.
        { intros N. rewrite N in Hp. apply Permutation_nil in Hp.
          discriminate Hp. }
        split; [exact Hp |].
        split; [intros Dy; unfold q; now rewrite Dy |].
        split.
        { intros y Hy. apply (rev_fetch_cards s d lim). rewrite F.
          eapply Permutation_in; eauto. }
        split.
        { intros H0. rewrite Hlen, <- F. now apply rev_fetch_length. }
        split.
        { intros Hl. unfold _revForDeck. rewrite Z.min_l by exact Hl.
          rewrite <- select_length_by_due.
          fold (rev_fetch s d lim). now rewrite F, Hlen. }
        rewrite Hlen.
        destruct (_ <? _); inversion H; reflexivity.
    + destruct (IH _ _ H) as [sk [d1 [r1 [E [Hsk Hrest]]]]].
      exists (d :: sk), d1, r1. split; [simpl; now rewrite E |].
      split.
      { intros d0 [E0 | Hin]; [subst d0 | exact (Hsk d0 Hin)].
        apply negb_false_iff, Z.eqb_eq in L. rewrite L.
        reflexivity. }
      cbv zeta in Hrest |- *.
      destruct Hrest as [R1 [R2 [R3 [R4 [R5 [R6 [R7 R8]]]]]]].
      repeat (split; [assumption |]).
      rewrite R8. simpl _revDids. rewrite E.
      destruct (_ <? _); [reflexivity |]. now destruct sk.
Qed.

End Shuffled.

(** [_updateCutoff], spelled out. *)
Lemma updateCutoff_run (s : Scheduler) :
  _updateCutoff s =
  let s1 := set_ticks (S (ticks s)) s in
  match ebind (PyNum.sub (PFloat (clock s (ticks s))) (PInt (crt (col s))))
          (fun e => ebind (floordiv e (PInt 86400)) py_int) with
  | inl e => Raise e s1
  | inr d =>
      let s3 := set_dayCutoff (crt (col s) + (d + 1) * 86400)
                  (set_today d s1) in
      let s4 :=
        set_col (set_decks
          (map (fun g => mkDeck (deck_id g) (deck_dyn g)
                                (roll d (newToday g)) (roll d (revToday g))
                                (roll d (lrnToday g)) (roll d (timeToday g))
                                (deck_rev_perDay g) (deck_perDay g))
               (decks (col s))) (col s)) s3 in
      Return tt
        (if match lastUnburied (col s) with Some u => u | None => 0 end <? d
         then unburyCards s4 else s4)
  end.
Proof.
  unfold _updateCutoff, time_time.
  unfold bind, ret, get, modify, of_exc, raise. cbv zeta.
  cbn -[PyNum.sub floordiv py_int Z.mul Z.add Z.ltb unburyCards roll].
  destruct (ebind (PyNum.sub (PFloat (clock s (ticks s)))
                     (PInt (crt (col s)))) _) as [e | d];
    cbn -[PyNum.sub floordiv py_int Z.mul Z.add Z.ltb unburyCards roll];
    [reflexivity |].
  destruct (_ <? d); reflexivity.
Qed.

Lemma roll_today (d : Z) (x : Z * Z) : fst (roll d x) = d.
Proof.
  unfold roll. destruct (Z.eqb_spec (fst x) d); [assumption | reflexivity].
Qed.

Lemma roll_same (d : Z) (x : Z * Z) : fst x = d -> roll d x = x.
Proof.
  unfold roll. intros H. apply Z.eqb_eq in H. now rewrite H.
Qed.

(** X7.  After [_updateCutoff] the cutoff is the end of the new day, all
    four daily counters of every deck are dated today, a counter already
    dated today is kept and the review count of any other day is reset to
    zero, and the last unbury is dated today or later.  A second call on
    the same day changes no deck, no card and not the cutoff. *)
Theorem X7_cutoff_rolls_counters (s s' : Scheduler) :
  _updateCutoff s = Return tt s' ->
  dayCutoff s' = crt (col s') + (today s' + 1) * 86400 /\
  Forall (fun g => fst (newToday g) = today s' /\
                   fst (revToday g) = today s' /\
                   fst (lrnToday g) = today s' /\
                   fst (timeToday g) = today s') (decks (col s')) /\
  (forall k g, nth_error (decks (col s)) k = Some g ->
     exists g', nth_error (decks (col s')) k = Some g' /\
       deck_id g' = deck_id g /\
       (fst (newToday g) = today s' -> newToday g' = newToday g) /\
       (fst (revToday g) = today s' -> revToday g' = revToday g) /\
       (fst (lrnToday g) = today s' -> lrnToday g' = lrnToday g) /\
       (fst (timeToday g) = today s' -> timeToday g' = timeToday g) /\
       (fst (revToday g) <> today s' -> revToday g' = (today s', 0))) /\
  today s' <= match lastUnburied (col s') with Some u => u | None => 0 end /\
  (forall s'', _updateCutoff s' = Return tt s'' -> today s'' = today s' ->
     decks (col s'') = decks (col s') /\ cards (col s'') = cards (col s') /\
     dayCutoff s'' = dayCutoff s').
Proof.
  rewrite updateCutoff_run. cbv zeta. intros H.
  destruct (ebind _ _) as [e | d]; [discriminate H |].
  injection H as Hs. symmetry in Hs.
  set (u0 := match lastUnburied (col s) with Some u => u | None => 0 end)
    in *.
  assert (Ht : today s' = d)
    by (subst s'; destruct (u0 <? d); reflexivity).
  assert (Hd : decks (col s') =
               map (fun g => mkDeck (deck_id g) (deck_dyn g)
                                (roll d (newToday g)) (roll d (revToday g))
                                (roll d (lrnToday g)) (roll d (timeToday g))
                                (deck_rev_perDay g) (deck_perDay g))
                   (decks (col s)))
    by (subst s'; destruct (u0 <? d); reflexivity).
  assert (Hc : dayCutoff s' = crt (col s') + (d + 1) * 86400)
    by (subst s'; destruct (u0 <? d); reflexivity).
  assert (Hu : d <= match lastUnburied (col s') with
                    | Some u => u | None => 0 end).
  { subst s'. destruct (u0 <? d) eqn:L.
    - simpl. lia.
    - apply Z.ltb_ge in L. exact L. }
  assert (Hall : Forall (fun g => fst (newToday g) = d /\
                   fst (revToday g) = d /\ fst (lrnToday g) = d /\
                   fst (timeToday g) = d) (decks (col s'))).
  { rewrite Hd. apply Forall_forall. intros g Hg.
    apply in_map_iff in Hg. destruct Hg as [g0 [E _]]. subst g.
    simpl. repeat split; apply roll_today. }
  rewrite Ht. clear Hs.
  split; [exact Hc |]. split; [exact Hall |].
  split.
  { intros k g Hk. rewrite Hd. eexists.
    split; [apply map_nth_error; exact Hk |]. simpl.
    split; [reflexivity |].
    repeat (split; [intros E; now apply roll_same |]).
    intros N. unfold roll. apply Z.eqb_neq in N. now rewrite N. }
  split; [exact Hu |].
  intros s'' H2 Ht2. rewrite updateCutoff_run in H2. cbv zeta in H2.
  destruct (ebind _ _) as [e | d2]; [discriminate H2 |].
  injection H2 as Hs2. symmetry in Hs2.
  set (u1 := match lastUnburied (col s') with Some u => u | None => 0 end)
    in *.
  assert (Ht3 : today s'' = d2)
    by (subst s''; destruct (u1 <? d2); reflexivity).
  assert (E2 : d2 = d) by congruence. rewrite E2 in Hs2.
  assert (L : (u1 <? d) = false) by (apply Z.ltb_ge; exact Hu).
  rewrite L in Hs2. rewrite Hs2. simpl.
  split; [| split; [reflexivity | rewrite Hc; reflexivity]].
  rewrite <- (map_id (decks (col s'))) at 2.
  apply map_ext_in. intros g Hg.
  rewrite Forall_forall in Hall. destruct (Hall g Hg) as [A1 [A2 [A3 A4]]].
  rewrite !roll_same by assumption. now destruct g.
Qed.

Variable remFromDyn : list Z -> M Scheduler unit.
Variable forgetCards : list Z -> M Scheduler unit.
Variable allIds : Collection -> list Z.

Lemma queue_of_type_active (t : CardType) :
  queue_of_type t = QUEUE_NEW_CRAM \/ queue_of_type t = QUEUE_LRN \/
  queue_of_type t = QUEUE_REV.
Proof. destruct t; simpl; auto. Qed.

Lemma Queue_eqb_eq (a b : Queue) : Queue_eqb a b = true <-> a = b.
Proof. destruct a, b; simpl; split; intros H; congruence. Qed.

Lemma sql_update_In (w : Card -> bool) (f : Card -> Card) (rows : list Card)
    (c' : Card) :
  In c' (sql_update w f rows) ->
  exists c, In c rows /\ c' = (if w c then f c else c).
Proof.
  unfold sql_update. intros H. apply in_map_iff in H.
  destruct H as [c [E Hin]]. exists c. split; [exact Hin | now symmetry].
Qed.

(** X8.  After [unburyCards] no card is in the buried queue: each buried
    card is back in the queue of its type, every other row is unchanged,
    the last unbury is dated today, and a second call changes no card. *)
Theorem X8_unbury_all (s : Scheduler) :
  lastUnburied (col (unburyCards s)) = Some (today s) /\
  (forall c', In c' (cards (col (unburyCards s))) ->
     queue c' <> QUEUE_USER_BURIED) /\
  (forall k c, nth_error (cards (col s)) k = Some c ->
     exists c', nth_error (cards (col (unburyCards s))) k = Some c' /\
       (queue c = QUEUE_USER_BURIED ->
        c' = set_queue (queue_of_type (type c)) c) /\
       (queue c <> QUEUE_USER_BURIED -> c' = c)) /\
  cards (col (unburyCards (unburyCards s))) = cards (col (unburyCards s)).
Proof.
  unfold unburyCards. simpl.
  split; [reflexivity |].
  assert (Hnone : forall c',
    In c' (sql_update (fun c => Queue_eqb (queue c) QUEUE_USER_BURIED)
             (fun c => set_queue (queue_of_type (type c)) c)
             (cards (col s))) -> queue c' <> QUEUE_USER_BURIED).
  { intros c' Hin. apply sql_update_In in Hin.
    destruct Hin as [c [_ E]]. subst c'.
    destruct (Queue_eqb (queue c) QUEUE_USER_BURIED) eqn:Q.
    - simpl. destruct (queue_of_type_active (type c)) as [T | [T | T]];
        rewrite T; discriminate.
    - intros N. apply Queue_eqb_eq in N. congruence. }
  split; [exact Hnone |].
  split.
  - intros k c Hk. eexists.
    split; [apply sql_update_nth; exact Hk |]. cbv beta.
    split; intros Hq.
    + apply Queue_eqb_eq in Hq. now rewrite Hq.
    + destruct (Queue_eqb (queue c) QUEUE_USER_BURIED) eqn:Q;
        [apply Queue_eqb_eq in Q; contradiction | reflexivity].
  - unfold sql_update at 1. rewrite <- (map_id (sql_update _ _ _)) at 2.
    apply map_ext_in. intros c' Hin. apply Hnone in Hin.
    destruct (Queue_eqb (queue c') QUEUE_USER_BURIED) eqn:Q;
      [apply Queue_eqb_eq in Q; contradiction | reflexivity].
Qed.

(** [unburyCardsForDeck], spelled out. *)
Lemma unburyCardsForDeck_run (s : Scheduler) :
  unburyCardsForDeck s =
  match int_of_float (clock s (ticks s)) with
  | inl e => Raise e (set_ticks (S (ticks s)) s)
  | inr t =>
      Return tt
        (set_col (set_cards
           (sql_update
              (fun c => Queue_eqb (queue c) QUEUE_USER_BURIED
                        && mem (did c) (active (col s)))
              (fun c => set_queue (queue_of_type (type c))
                          (set_usn (col_usn (col s)) (set_mod t c)))
              (cards (col s))) (col s))
           (set_ticks (S (ticks s)) s))
  end.
Proof.
  unfold unburyCardsForDeck, intTime, time_time.
  unfold bind, ret, get, modify, of_exc, raise. simpl.
  destruct (int_of_float (clock s (ticks s))); reflexivity.
Qed.

(** X9.  [unburyCardsForDeck] unburies the cards of the active decks
    only: afterwards no card of an active deck is buried, a buried card of
    an active deck is in the queue of its type and carries the
    collection's [usn], every other row is unchanged, and the date of the
    last unbury is not touched. *)
Theorem X9_unbury_active_decks (s s' : Scheduler) :
  unburyCardsForDeck s = Return tt s' ->
  lastUnburied (col s') = lastUnburied (col s) /\
  (forall c', In c' (cards (col s')) -> In (did c') (active (col s)) ->
     queue c' <> QUEUE_USER_BURIED) /\
  (forall k c, nth_error (cards (col s)) k = Some c ->
     exists c', nth_error (cards (col s')) k = Some c' /\
       id c' = id c /\ did c' = did c /\ type c' = type c /\
       (queue c = QUEUE_USER_BURIED -> In (did c) (active (col s)) ->
        queue c' = queue_of_type (type c) /\
        usn c' = col_usn (col s)) /\
       (queue c <> QUEUE_USER_BURIED \/ ~ In (did c) (active (col s)) ->
        c' = c)).
Proof.
  rewrite unburyCardsForDeck_run. intros H.
  destruct (int_of_float (clock s (ticks s))) as [e | t]; [discriminate H |].
  injection H as Hs. subst s'. simpl.
  split; [reflexivity |].
  split.
  - intros c' Hin Hact. apply sql_update_In in Hin.
    destruct Hin as [c [_ E]]. subst c'.
    destruct (Queue_eqb (queue c) QUEUE_USER_BURIED) eqn:Q; simpl in *.
    + destruct (mem (did c) (active (col s))) eqn:Me; simpl in *.
      * destruct (queue_of_type_active (type c)) as [T | [T | T]];
          rewrite T; discriminate.
      * apply mem_In in Hact. congruence.
    + intros N. apply Queue_eqb_eq in N. congruence.
  - intros k c Hk. eexists.
    split; [apply sql_update_nth; exact Hk |]. cbv beta.
    destruct (Queue_eqb (queue c) QUEUE_USER_BURIED) eqn:Q;
      destruct (mem (did c) (active (col s))) eqn:Me; simpl;
      repeat (split; [reflexivity |]).
    + split; [intros _ _; split; reflexivity |].
      intros [N | N].
      * apply Queue_eqb_eq in Q. contradiction.
      * apply mem_In in Me. contradiction.
    + split; [| reflexivity]. intros _ N. apply mem_In in N. congruence.
    + split; [| reflexivity]. intros N. apply Queue_eqb_eq in N. congruence.
    + split; [| reflexivity]. intros N. apply Queue_eqb_eq in N. congruence.
Qed.

(** The final UPDATE of [suspendCards] and [buryCards], spelled out. *)
Lemma set_queue_of_run (q : Queue) (ids : list Z) (s : Scheduler) :
  set_queue_of q ids s =
  match int_of_float (clock s (ticks s)) with
  | inl e => Raise e (set_ticks (S (ticks s)) s)
  | inr t =>
      Return tt
        (set_col (set_cards
           (sql_update (fun c => mem (id c) ids)
              (fun c => set_usn (col_usn (col s)) (set_mod t (set_queue q c)))
              (cards (col s))) (col s))
           (set_ticks (S (ticks s)) s))
  end.
Proof.
  unfold set_queue_of, intTime, time_time.
  unfold bind, ret, get, modify, of_exc, raise. simpl.
  destruct (int_of_float (clock s (ticks s))); reflexivity.
Qed.

Lemma set_queue_of_listed (q : Queue) (ids : list Z) (s s' : Scheduler) :
  set_queue_of q ids s = Return tt s' ->
  (forall c', In c' (cards (col s')) -> In (id c') ids -> queue c' = q) /\
  (forall k c, nth_error (cards (col s)) k = Some c ->
     exists c', nth_error (cards (col s')) k = Some c' /\
                id c' = id c /\ type c' = type c /\
                (~ In (id c) ids -> c' = c)).
Proof.
  rewrite set_queue_of_run. intros H.
  destruct (int_of_float (clock s (ticks s))) as [e | t]; [discriminate H |].
  injection H as Hs. subst s'. simpl. split.
  - intros c' Hin Hid. apply sql_update_In in Hin.
    destruct Hin as [c [_ E]]. subst c'.
    destruct (mem (id c) ids) eqn:Me; [reflexivity |].
    apply mem_In in Hid. congruence.
  - intros k c Hk. eexists.
    split; [apply sql_update_nth; exact Hk |]. cbv beta.
    destruct (mem (id c) ids) eqn:Me; simpl;
      repeat (split; [reflexivity |]).
    + intros N. apply mem_In in Me. contradiction.
    + reflexivity.
Qed.

(** [unsuspendCards], spelled out. *)
Lemma unsuspendCards_run (ids : list Z) (s : Scheduler) :
  unsuspendCards ids s =
  match int_of_float (clock s (ticks s)) with
  | inl e => Raise e (set_ticks (S (ticks s)) s)
  | inr t =>
      Return tt
        (set_col (set_cards
           (sql_update
              (fun c => Queue_eqb (queue c) QUEUE_SUSPENDED
                        && mem (id c) ids)
              (fun c => set_usn (col_usn (col s))
                          (set_mod t
                             (set_queue (queue_of_type (type c)) c)))
              (cards (col s))) (col s))
           (set_ticks (S (ticks s)) s))
  end.
Proof.
  unfold unsuspendCards, intTime, time_time.
  unfold bind, ret, get, modify, of_exc, raise. simpl.
  destruct (int_of_float (clock s (ticks s))); reflexivity.
Qed.

(** X10.  After [suspendCards ids] every listed card is in the suspended
    queue; [unsuspendCards ids] then puts each listed card in the queue of
    its type and leaves every other row as it was. *)
Theorem X10_suspend_then_unsuspend (ids : list Z) (s s1 : Scheduler) :
  suspendCards remFromDyn forgetCards allIds ids s = Return tt s1 ->
  (forall c, In c (cards (col s1)) -> In (id c) ids ->
             queue c = QUEUE_SUSPENDED) /\
  (forall s2, unsuspendCards ids s1 = Return tt s2 ->
   forall k c, nth_error (cards (col s1)) k = Some c ->
     exists c', nth_error (cards (col s2)) k = Some c' /\
       id c' = id c /\ type c' = type c /\
       (In (id c) ids -> queue c' = queue_of_type (type c)) /\
       (~ In (id c) ids -> c' = c)).
Proof.
  unfold suspendCards. intros H. unfold bind in H.
  destruct (remFromDyn ids s) as [[] sa | e sa]; [| discriminate H].
  destruct (removeLrn forgetCards allIds (Some ids) sa) as [[] sb | e sb];
    [| discriminate H].
  destruct (set_queue_of_listed _ _ _ _ H) as [Hl _].
  split; [exact Hl |].
  intros s2 H2 k c Hk. rewrite unsuspendCards_run in H2.
  destruct (int_of_float (clock s1 (ticks s1))) as [e | t];
    [discriminate H2 |].
  injection H2 as Hs. subst s2. simpl. eexists.
  split; [apply sql_update_nth; exact Hk |]. cbv beta.
  destruct (mem (id c) ids) eqn:Me.
  - assert (Hq : queue c = QUEUE_SUSPENDED).
    { apply Hl; [eapply nth_error_In; eauto | now apply mem_In]. }
    rewrite Hq. simpl. split; [reflexivity |]. split; [reflexivity |].
    split; [intros _; reflexivity |].
    intros N. apply mem_In in Me. contradiction.
  - rewrite andb_false_r. split; [reflexivity |]. split; [reflexivity |].
    split; [| reflexivity]. intros N. apply mem_In in N. congruence.
Qed.

(** X11.  After [buryCards cids] every listed card is in the buried
    queue; [unburyCards] then puts it back in the queue of its type, while
    [unsuspendCards] on the same ids changes no card: a buried card is not
    a suspended one. *)
Theorem X11_bury_then_unbury (cids : list Z) (s s1 : Scheduler) :
  buryCards remFromDyn forgetCards allIds cids s = Return tt s1 ->
  (forall c, In c (cards (col s1)) -> In (id c) cids ->
             queue c = QUEUE_USER_BURIED) /\
  (forall k c, nth_error (cards (col s1)) k = Some c -> In (id c) cids ->
     nth_error (cards (col (unburyCards s1))) k
     = Some (set_queue (queue_of_type (type c)) c)) /\
  (forall s2, unsuspendCards cids s1 = Return tt s2 ->
              cards (col s2) = cards (col s1)).
Proof.
  unfold buryCards. intros H. unfold bind in H.
  destruct (remFromDyn cids s) as [[] sa | e sa]; [| discriminate H].
  destruct (removeLrn forgetCards allIds (Some cids) sa) as [[] sb | e sb];
    [| discriminate H].
  destruct (set_queue_of_listed _ _ _ _ H) as [Hl _].
  split; [exact Hl |].
  split.
  - intros k c Hk Hid. unfold unburyCards. simpl.
    rewrite (sql_update_nth _ _ _ k c Hk).
    rewrite (Hl c (nth_error_In _ _ Hk) Hid). reflexivity.
  - intros s2 H2. rewrite unsuspendCards_run in H2.
    destruct (int_of_float (clock s1 (ticks s1))) as [e | t];
      [discriminate H2 |].
    injection H2 as Hs. subst s2. simpl.
    unfold sql_update. rewrite <- (map_id (cards (col s1))) at 2.
    apply map_ext_in. intros c Hin.
    destruct (Queue_eqb (queue c) QUEUE_SUSPENDED) eqn:Q; [| reflexivity].
    apply Queue_eqb_eq in Q.
    destruct (mem (id c) cids) eqn:Me; [| reflexivity].
    apply mem_In in Me. rewrite (Hl c Hin Me) in Q. discriminate Q.
Qed.

(** [removeLrn], spelled out: the UPDATE of the relearning cards, then
    [forgetCards] on the cards still in a learning queue. *)
Lemma removeLrn_run (ids : option (list Z)) (s : Scheduler) :
  removeLrn forgetCards allIds ids s =
  let extra := lrn_extra ids (allIds (col s)) in
  match int_of_float (clock s (ticks s)) with
  | inl e => Raise e (set_ticks (S (ticks s)) s)
  | inr t =>
      let s1 :=
        set_col (set_cards
          (sql_update
             (fun c => in_lrn_queues c && CardType_eqb (type c) CARD_DUE
                       && extra c)
             (fun c => set_odue 0
                         (set_usn (col_usn (col s))
                            (set_mod t
                               (set_queue QUEUE_REV (set_due (odue c) c)))))
             (cards (col s))) (col s))
          (set_ticks (S (ticks s)) s) in
      forgetCards
        (map id (filter (fun c => in_lrn_queues c && extra c)
                        (cards (col s1)))) s1
  end.
Proof.
  unfold removeLrn, intTime, time_time.
  unfold bind, ret, get, modify, of_exc, raise. simpl.
  destruct (int_of_float (clock s (ticks s))); reflexivity.
Qed.

Lemma CardType_eqb_eq (a b : CardType) : CardType_eqb a b = true <-> a = b.
Proof. destruct a, b; simpl; split; intros H; congruence. Qed.

(** X12.  [removeLrn] sends a selected review card in relearning back to
    the review queue, due on its saved date with [odue] cleared, and
    changes no other row before it calls [forgetCards]; no selected
    review card is left in a learning queue, every selected card still
    learning is handed to [forgetCards], and every id handed over is that
    of a card still learning that is not a review card. *)
Theorem X12_remove_lrn_keeps_reviews (ids : option (list Z)) (s s' : Scheduler) :
  removeLrn forgetCards allIds ids s = Return tt s' ->
  let extra := lrn_extra ids (allIds (col s)) in
  exists s1 forgotten,
    forgetCards forgotten s1 = Return tt s' /\
    (forall k c, nth_error (cards (col s)) k = Some c ->
       exists c1, nth_error (cards (col s1)) k = Some c1 /\
         id c1 = id c /\ did c1 = did c /\ type c1 = type c /\
         (in_lrn_queues c = true -> type c = CARD_DUE -> extra c = true ->
          queue c1 = QUEUE_REV /\ due c1 = odue c /\ odue c1 = 0) /\
         (in_lrn_queues c = false \/ type c <> CARD_DUE \/ extra c = false ->
          c1 = c)) /\
    (forall c1, In c1 (cards (col s1)) -> type c1 = CARD_DUE ->
                extra c1 = true -> in_lrn_queues c1 = false) /\
    (forall i, In i forgotten ->
       exists c1, In c1 (cards (col s1)) /\ id c1 = i /\
                  in_lrn_queues c1 = true /\ type c1 <> CARD_DUE) /\
    (forall c1, In c1 (cards (col s1)) -> in_lrn_queues c1 = true ->
                extra c1 = true -> In (id c1) forgotten).
Proof.
  rewrite removeLrn_run. cbv zeta. intros H.
  destruct (int_of_float (clock s (ticks s))) as [e | t]; [discriminate H |].
  set (extra := lrn_extra ids (allIds (col s))) in *.
  set (upd := sql_update
         (fun c => in_lrn_queues c && CardType_eqb (type c) CARD_DUE
                   && extra c)
         (fun c => set_odue 0
                     (set_usn (col_usn (col s))
                        (set_mod t
                           (set_queue QUEUE_REV (set_due (odue c) c)))))
         (cards (col s))) in *.
  simpl in H.
  assert (Hdone : forall c1, In c1 upd -> type c1 = CARD_DUE ->
                  extra c1 = true -> in_lrn_queues c1 = false).
  { intros c1 Hin Ht He. apply sql_update_In in Hin.
    destruct Hin as [c [_ E]]. subst c1.
    destruct (in_lrn_queues c && CardType_eqb (type c) CARD_DUE && extra c)
      eqn:W; [reflexivity |].
    destruct (in_lrn_queues c) eqn:Q; [| reflexivity].
    apply CardType_eqb_eq in Ht. rewrite Ht, He in W. discriminate W. }
  eexists. eexists. split; [exact H |]. simpl.
  fold upd.
  split; [| split; [exact Hdone | split]].
  - intros k c Hk. eexists.
    split; [apply sql_update_nth; exact Hk |]. cbv beta.
    destruct (in_lrn_queues c) eqn:Q;
      destruct (CardType_eqb (type c) CARD_DUE) eqn:T;
      destruct (extra c) eqn:X; simpl;
      repeat (split; [reflexivity |]);
      (split; [try (intros; repeat split; reflexivity);
               try (intros; try apply CardType_eqb_eq in H1; congruence)
              | try reflexivity]).
    all: intros [N | [N | N]]; try discriminate N.
    apply CardType_eqb_eq in T. contradiction.
  - intros i Hin. apply in_map_iff in Hin. destruct Hin as [c1 [E Hin]].
    apply filter_In in Hin. destruct Hin as [Hin Hf].
    apply andb_true_iff in Hf. destruct Hf as [Hq Hx].
    exists c1. split; [exact Hin |]. split; [exact E |].
    split; [exact Hq |].
    intros N. rewrite (Hdone c1 Hin N Hx) in Hq. discriminate Hq.
  - intros c1 Hin Hq Hx. apply in_map. apply filter_In.
    split; [exact Hin |]. now rewrite Hq, Hx.
Qed.

Variable nextID_pos : M Scheduler Z.
Variable Conf : Type.
Variable _rescheduleNew : Conf -> bool -> M Heap unit.

(** X13.  [_rescheduleAsRev] on a lapsed review card never fails: the card
    becomes a review card of its home deck, [odue] and [odid] cleared,
    interval and factor kept, due on its saved date or, when it
    reschedules, tomorrow at the earliest.  Any other card is first
    rescheduled as new, then leaves its filtered deck, and becomes a
    review card unless the filtered deck does not reschedule, in which
    case it is a new card again at the next position. *)
Theorem X13_graduation_leaves_filtered_deck (conf : Conf) (early : bool)
    (s : Scheduler) (c : Card) :
  (type c = CARD_DUE ->
   exists c',
     _rescheduleAsRev B nextID_pos Conf _rescheduleNew conf early (s, c)
     = Return tt (s, c') /\
     queue c' = QUEUE_REV /\ type c' = CARD_DUE /\
     odue c' = 0 /\ odid c' = 0 /\
     did c' = (if odid c =? 0 then did c else odid c) /\
     due c' = (if _resched B s c then Z.max (today s + 1) (odue c)
               else odue c) /\
     ivl c' = ivl c /\ factor c' = factor c /\ id c' = id c) /\
  (type c <> CARD_DUE ->
   forall h,
     _rescheduleAsRev B nextID_pos Conf _rescheduleNew conf early (s, c)
     = Return tt h ->
     exists h1,
       _rescheduleNew conf early (s, c) = Return tt h1 /\
       odid (snd h) = 0 /\
       did (snd h) = (if odid (snd h1) =? 0 then did (snd h1)
                      else odid (snd h1)) /\
       (odid (snd h1) = 0 \/ _resched B (fst h1) (snd h1) = true ->
        fst h = fst h1 /\
        queue (snd h) = QUEUE_REV /\ type (snd h) = CARD_DUE /\
        due (snd h) = due (snd h1) /\ ivl (snd h) = ivl (snd h1)) /\
       (odid (snd h1) <> 0 -> _resched B (fst h1) (snd h1) = false ->
        queue (snd h) = QUEUE_NEW_CRAM /\ type (snd h) = CARD_NEW /\
        odue (snd h) = 0 /\
        nextID_pos (fst h1) = Return (due (snd h)) (fst h))).
Proof.
  split.
  - intros Ht. unfold _rescheduleAsRev.
    unfold bind, ret, the_card, the_sched, upd_card, upd_sched. simpl.
    rewrite Ht. simpl.
    destruct (_resched B s c); simpl;
      destruct (odid c =? 0) eqn:Od; simpl; rewrite ?Od, ?andb_false_r;
      eexists; (split; [reflexivity |]); simpl; repeat split;
      try reflexivity; apply Z.eqb_eq in Od; exact Od.
  - intros Ht h H. unfold _rescheduleAsRev in H.
    unfold bind at 1 2 in H. unfold the_card at 1 in H. simpl in H.
    assert (E : CardType_eqb (type c) CARD_DUE = false).
    { destruct (CardType_eqb (type c) CARD_DUE) eqn:T; [| reflexivity].
      apply CardType_eqb_eq in T. contradiction. }
    rewrite E in H.
    destruct (_rescheduleNew conf early (s, c)) as [[] [s1 c1] | e h1];
      [| discriminate H].
    exists (s1, c1). split; [reflexivity |]. simpl.
    unfold bind, ret, the_card, the_sched, upd_card, upd_sched, on_sched
      in H. simpl in H.
    change (_resched B s1 (set_type CARD_DUE (set_queue QUEUE_REV c1)))
      with (_resched B s1 c1) in H.
    destruct (odid c1 =? 0) eqn:Od; simpl in H.
    + inversion H; subst h. simpl. apply Z.eqb_eq in Od.
      split; [exact Od |]. split; [reflexivity |].
      split; [intros _; repeat split; reflexivity |].
      intros N. contradiction.
    + destruct (_resched B s1 c1) eqn:R; simpl in H.
      * inversion H; subst h. simpl.
        split; [reflexivity |]. split; [reflexivity |].
        split; [intros _; repeat split; reflexivity |].
        intros _ N. discriminate N.
      * destruct (nextID_pos s1) as [p s2 | e s2]; [| discriminate H].
        inversion H; subst h. simpl.
        split; [reflexivity |]. split; [reflexivity |].
        split.
        -- intros [N | N]; [apply Z.eqb_neq in Od; contradiction
                           | discriminate N].
        -- intros _ _. repeat split; reflexivity.
Qed.

(** A row whose id stands at place [j] of the list is moved with the due
    number [-100000 + c0 + j]. *)
Lemma moveToDyn_rows_at (d t u : Z) (ids : list Z) :
  forall (c0 : Z) (rows : list Card) (k : nat) (c : Card) (j : nat),
    NoDup ids ->
    nth_error rows k = Some c ->
    nth_error ids j = Some (id c) ->
    nth_error (moveToDyn_rows d t u c0 ids rows) k
    = Some (moveToDyn_row d t (-100000 + (c0 + Z.of_nat j)) u c).
Proof.
  induction ids as [| i rest IH]; intros c0 rows k c j Hnd Hk Hj.
  - destruct j; discriminate Hj.
  - simpl moveToDyn_rows. inversion Hnd as [| ? ? Hni Hnd']; subst.
    pose proof (sql_update_nth (fun x => id x =? i)
                  (moveToDyn_row d t (-100000 + c0) u) rows k c Hk) as H1.
    cbv beta in H1.
    destruct j as [| j].
    + simpl in Hj. inversion Hj; subst i.
      rewrite Z.eqb_refl in H1.
      destruct (moveToDyn_rows_nth d t u rest (c0 + 1) _ k _ H1) as [Hn _].
      rewrite Hn; [| exact Hni].
      simpl Z.of_nat. now rewrite Z.add_0_r.
    + simpl in Hj.
      assert (Hne : id c <> i).
      { intros E. apply Hni. rewrite <- E. eapply nth_error_In; eauto. }
      apply Z.eqb_neq in Hne. rewrite Hne in H1.
      rewrite (IH (c0 + 1) _ k c j Hnd' H1 Hj).
      do 2 f_equal. lia.
Qed.

(** X14.  [_fillDyn] changes only the cards it returns.  With distinct
    ids, the card at position [j] of the result is moved to the filtered
    deck with due number [-100000 + j], its home deck and due date saved
    in [odid] and [odue] unless already set, type and interval kept; it
    goes to the review queue exactly when it is a review card that was
    due, to the new queue otherwise. *)
Theorem X14_fill_dyn_due_order (did_ : Z) (search : string) (limit order : Z)
    (s s1 : Scheduler) (ids : list Z) :
  _fillDyn B did_ search limit order s = Return ids s1 ->
  (ids = [] -> cards (col s1) = cards (col s)) /\
  (forall k c, nth_error (cards (col s)) k = Some c -> ~ In (id c) ids ->
     nth_error (cards (col s1)) k = Some c) /\
  (NoDup ids ->
   forall k c j,
     nth_error (cards (col s)) k = Some c ->
     nth_error ids j = Some (id c) ->
     exists c',
       nth_error (cards (col s1)) k = Some c' /\
       id c' = id c /\ type c' = type c /\ ivl c' = ivl c /\
       did c' = did_ /\ due c' = -100000 + Z.of_nat j /\
       odid c' = (if odid c =? 0 then did c else odid c) /\
       odue c' = (if odue c =? 0 then due c else odue c) /\
       (queue c' = QUEUE_REV \/ queue c' = QUEUE_NEW_CRAM) /\
       (queue c' = QUEUE_REV <->
        type c = CARD_DUE /\
        (if odue c =? 0 then due c else odue c) <= today s)).
Proof.
  intros H. apply fillDyn_returns in H.
  destruct H as [[E1 E2] | [Hc _]].
  - subst. split; [reflexivity |].
    split; [intros; assumption |].
    intros _ k c j _ Hj. destruct j; discriminate Hj.
  - rewrite Hc. split; [intros E; subst ids; reflexivity |].
    split.
    + intros k c Hk Hn.
      now apply (moveToDyn_rows_nth did_ (today s) (col_usn (col s)) ids 0
                   _ k c Hk).
    + intros Hnd k c j Hk Hj.
      rewrite (moveToDyn_rows_at _ _ _ ids 0 _ k c j Hnd Hk Hj).
      eexists. split; [reflexivity |].
      unfold moveToDyn_row. simpl.
      repeat (split; [reflexivity |]).
      split; [destruct (odid c =? 0); reflexivity |].
      split; [destruct (odue c =? 0); reflexivity |].
      destruct (CardType_eqb (type c) CARD_DUE) eqn:T; simpl.
      * apply CardType_eqb_eq in T.
        destruct (odue c =? 0); simpl;
          match goal with |- context [?a <=? ?b] =>
            destruct (Z.leb_spec a b) end;
          (split; [auto |]); split; intros N; auto;
          try discriminate N; destruct N; lia.
      * split; [auto |]. split; [discriminate |].
        intros [N _]. apply CardType_eqb_eq in N. congruence.
Qed.

(** X15.  [emptyDyn] with no condition never fails.  Cards of other decks
    are unchanged; a card of the emptied deck returns to its home deck
    and due date, [odid] and [odue] cleared, a learning card becomes new,
    the queue is the one of the resulting type, interval and factor are
    kept. *)
Theorem X15_empty_dyn_resets (did_ : Z) (s : Scheduler) :
  exists s',
    emptyDyn did_ None s = Return tt s' /\
    forall k c, nth_error (cards (col s)) k = Some c ->
      exists c', nth_error (cards (col s')) k = Some c' /\
        id c' = id c /\
        (did c <> did_ -> c' = c) /\
        (did c = did_ ->
         did c' = odid c /\ due c' = odue c /\
         odid c' = 0 /\ odue c' = 0 /\
         type c' = (if CardType_eqb (type c) CARD_LRN then CARD_NEW
                    else type c) /\
         queue c' = queue_of_type (type c') /\
         ivl c' = ivl c /\ factor c' = factor c).
Proof.
  eexists. split; [reflexivity |]. simpl.
  intros k c Hk. eexists.
  split; [apply sql_update_nth; exact Hk |]. cbv beta.
  destruct (Z.eqb_spec (did c) did_) as [E | E].
  - split; [reflexivity |]. split; [intros N; contradiction |].
    intros _. unfold emptyDyn_row. simpl.
    repeat (split; [reflexivity |]).
    split; [destruct (type c); reflexivity | split; reflexivity].
  - split; [reflexivity |]. split; [reflexivity | intros N; contradiction].
Qed.

(** [int(max(i, e, 1))] is at least [i] and at least 1, whatever the
    number [e]. *)
Lemma int_max3_ge (i : Z) (e : num) (z : Z) :
  py_int (max2 (max2 (PInt i) e) (PInt 1)) = inr z -> Z.max i 1 <= z.
Proof.
  unfold max2 at 2.
  destruct (gt e (PInt i)) eqn:G.
  - destruct e as [y | f].
    + unfold gt in G. simpl in G.
      destruct (Z.compare_spec y i); try discriminate G.
      rewrite (int_max2_value (PInt y) 1 (inject_Z y) eq_refl).
      rewrite Qtrunc_inject_Z. intros H1. inversion H1. lia.
    + unfold gt in G.
      destruct (fvalue f) as [v |] eqn:V.
      * assert (L : (inject_Z i < v)%Q).
        { assert (C : fcompare_Q f (inject_Z i)
                      = Some (Qcompare v (inject_Z i))).
          { destruct f; simpl in V; try discriminate V;
              inversion V; reflexivity. }
          unfold compare in G. rewrite C in G.
          destruct (Qcompare_spec v (inject_Z i)) as [E | L | L'];
            try discriminate G; assumption. }
        rewrite (int_max2_value (PFloat f) 1 v V).
        intros H1. inversion H1.
        assert (i <= Qtrunc v) by (apply Qtrunc_ge; now apply Qlt_le_weak).
        lia.
      * destruct f as [sg | sg | | sg m ex]; simpl in V; try discriminate V.
        -- destruct sg; simpl in G; [discriminate G |].
           unfold max2, gt. simpl. intros H1. discriminate H1.
        -- simpl in G. discriminate G.
  - rewrite (int_max2_value (PInt i) 1 (inject_Z i) eq_refl).
    rewrite Qtrunc_inject_Z. intros H. inversion H. lia.
Qed.

(** X16.  [_dynIvlBoost] fails its assertion on a card that is outside a
    filtered deck, is not a review card or has factor 0; when it returns,
    none of these holds and the interval lies between
    [min(max(ivl, 1), maxIvl)] and [maxIvl]. *)
Theorem X16_dyn_boost_bounds (s : Scheduler) (c : Card) :
  (odid c = 0 \/ type c <> CARD_DUE \/ factor c = 0 ->
   _dynIvlBoost B s c = inl AssertionError) /\
  (forall r, _dynIvlBoost B s c = inr r ->
     odid c <> 0 /\ type c = CARD_DUE /\ factor c <> 0 /\
     r <= maxIvl (_revConf B s c) /\
     Z.min (Z.max (ivl c) 1) (maxIvl (_revConf B s c)) <= r).
Proof.
  unfold _dynIvlBoost. split.
  - intros H.
    destruct (Z.eqb_spec (odid c) 0) as [E | E]; simpl; [reflexivity |].
    destruct (CardType_eqb (type c) CARD_DUE) eqn:T; simpl;
      [| reflexivity].
    destruct (Z.eqb_spec (factor c) 0) as [F | F]; [reflexivity |].
    apply CardType_eqb_eq in T. destruct H as [H | [H | H]]; contradiction.
  - intros r H.
    destruct (Z.eqb_spec (odid c) 0) as [E | E]; simpl in H;
      [discriminate H |].
    destruct (CardType_eqb (type c) CARD_DUE) eqn:T; simpl in H;
      [| discriminate H].
    destruct (Z.eqb_spec (factor c) 0) as [F | F]; [discriminate H |].
    apply CardType_eqb_eq in T.
    split; [exact E |]. split; [exact T |]. split; [exact F |].
    cbv zeta in H.
    repeat match type of H with
           | ebind ?x _ = _ =>
               let E := fresh "E" in
               destruct x eqn:E; simpl in H; try discriminate H
           end.
    inversion H.
    match goal with E : py_int _ = inr ?z |- _ =>
      pose proof (int_max3_ge _ _ _ E) end.
    lia.
Qed.

(** *** What an answer to a review card can raise *)

Lemma eo_inr {A} (a : A) : exc_only arith_or_key (inr a).
Proof. intros e H. discriminate H. Qed.

Lemma eo_ebind {A C} (x : exc A) (f : A -> exc C) :
  exc_only arith_or_key x -> (forall a, exc_only arith_or_key (f a)) ->
  exc_only arith_or_key (ebind x f).
Proof.
  intros Hx Hf e H. destruct x as [e' | a]; simpl in H.
  - inversion H; subst. now apply Hx.
  - now apply (Hf a).
Qed.

Lemma eo_float_of_int (z : Z) : exc_only arith_or_key (float_of_int z).
Proof.
  intros e H. unfold float_of_int in H.
  destruct (binary_normalize prec emax z 0 false); inversion H.
  left. reflexivity.
Qed.

Lemma eo_to_float (x : num) : exc_only arith_or_key (to_float x).
Proof.
  destruct x; simpl; [apply eo_float_of_int | apply eo_inr].
Qed.

Lemma eo_mul (a b : num) : exc_only arith_or_key (PyNum.mul a b).
Proof.
  unfold PyNum.mul.
  destruct a, b; try apply eo_inr;
    (apply eo_ebind; [apply eo_to_float | intros];
     apply eo_ebind; [apply eo_to_float | intros];
     apply eo_inr).
Qed.

Lemma eo_add (a b : num) : exc_only arith_or_key (PyNum.add a b).
Proof.
  unfold PyNum.add.
  destruct a, b; try apply eo_inr;
    (apply eo_ebind; [apply eo_to_float | intros];
     apply eo_ebind; [apply eo_to_float | intros];
     apply eo_inr).
Qed.

Lemma eo_py_int (x : num) : exc_only arith_or_key (py_int x).
Proof.
  destruct x as [z | f]; unfold py_int; [apply eo_inr |].
  unfold int_of_float. intros e H.
  destruct f; simpl in H; inversion H; unfold arith_or_key; auto.
Qed.

(** Division by the literal 1000 never divides by zero. *)
Lemma eo_truediv_1000 (a : num) :
  exc_only arith_or_key (truediv a (PInt 1000)).
Proof.
  unfold truediv. destruct a as [x | fx].
  - apply eo_ebind; [| intros; apply eo_inr].
    intros e H. destruct (int_truediv_raises x 1000 e H) as [[_ N] | [-> _]];
      [discriminate N | unfold arith_or_key; auto].
  - apply eo_ebind; [apply eo_to_float | intros fa].
    change (to_float (PInt 1000)) with (float_of_int 1000).
    assert (E : exists m e, float_of_int 1000 = inr (S754_finite false m e))
      by (do 2 eexists; vm_compute; reflexivity).
    destruct E as [m [e E]]. rewrite E. simpl. apply eo_inr.
Qed.

Lemma eo_constrainedIvl (x : num) (conf : RevConf) (prev : Z) :
  exc_only arith_or_key (_constrainedIvl x conf prev).
Proof.
  unfold _constrainedIvl.
  apply eo_ebind; [apply eo_mul | intros; apply eo_py_int].
Qed.

Lemma eo_nextRevIvl (s : Scheduler) (c : Card) (ease : Z) :
  2 <= ease <= 4 -> exc_only arith_or_key (_nextRevIvl B s c ease).
Proof.
  intros He. unfold _nextRevIvl. cbv zeta.
  apply eo_ebind; [apply eo_truediv_1000 | intros fct].
  apply eo_ebind; [apply eo_mul | intros x2].
  apply eo_ebind; [apply eo_constrainedIvl | intros i2].
  apply eo_ebind; [apply eo_mul | intros x3].
  apply eo_ebind; [apply eo_constrainedIvl | intros i3].
  apply eo_ebind; [apply eo_mul | intros x4'].
  apply eo_ebind; [apply eo_mul | intros x4].
  apply eo_ebind; [apply eo_constrainedIvl | intros i4].
  apply eo_ebind; [| intros; apply eo_inr].
  unfold BUTTON_TWO, BUTTON_THREE, BUTTON_FOUR.
  destruct (Z.eqb_spec ease 2); [apply eo_inr |].
  destruct (Z.eqb_spec ease 3); [apply eo_inr |].
  destruct (Z.eqb_spec ease 4); [apply eo_inr | lia].
Qed.

Lemma eo_nextLapseIvl (c : Card) (conf : LapseConf) :
  exc_only arith_or_key (_nextLapseIvl c conf).
Proof.
  unfold _nextLapseIvl.
  apply eo_ebind; [apply eo_mul | intros].
  apply eo_ebind; [apply eo_py_int | intros; apply eo_inr].
Qed.

Lemma ro_ret {St A} (a : A) : raises_only arith_or_key (@ret St A a).
Proof. intros s e s' H. discriminate H. Qed.

Lemma ro_bind {St A C} (m : M St A) (k : A -> M St C) :
  raises_only arith_or_key m -> (forall a, raises_only arith_or_key (k a)) ->
  raises_only arith_or_key (bind m k).
Proof.
  intros Hm Hk s e s' H. unfold bind in H.
  destruct (m s) as [a s1 | e1 s1] eqn:E.
  - now apply (Hk a s1 e s').
  - inversion H; subst. now apply (Hm s e s').
Qed.

Lemma ro_of_exc {St A} (x : exc A) :
  exc_only arith_or_key x -> raises_only arith_or_key (@of_exc St A x).
Proof.
  intros Hx s e s' H. destruct x as [e' | a]; simpl in H.
  - inversion H; subst. now apply Hx.
  - discriminate H.
Qed.

Lemma ro_on_sched {A} (m : M Scheduler A) :
  raises_only arith_or_key m -> raises_only arith_or_key (on_sched m).
Proof.
  intros Hm h e h' H. unfold on_sched in H.
  destruct (m (fst h)) as [a s1 | e1 s1] eqn:E; inversion H; subst.
  now apply (Hm (fst h) e s1).
Qed.

Lemma ro_try_except {St A} (m h : M St A) :
  raises_only arith_or_key h -> raises_only arith_or_key (try_except m h).
Proof.
  intros Hh s e s' H. unfold try_except in H.
  destruct (m s) as [a s1 | e1 s1]; [discriminate H |].
  now apply (Hh s1 e s').
Qed.

Ltac ro :=
  repeat match goal with
  | |- raises_only _ (ret _) => apply ro_ret
  | |- raises_only _ (bind _ _) => apply ro_bind; [| intros]
  | |- raises_only _ (on_sched _) => apply ro_on_sched
  | |- raises_only _ (try_except _ _) => apply ro_try_except
  | |- raises_only _ (of_exc _) => apply ro_of_exc
  | |- raises_only _ (raise IntegrityError) =>
      let H := fresh in
      intros ? ? ? H; inversion H; right; right; reflexivity
  | |- raises_only _ (raise OverflowError) =>
      let H := fresh in
      intros ? ? ? H; inversion H; left; reflexivity
  | |- raises_only _ the_card => intros ? ? ? H; discriminate H
  | |- raises_only _ the_sched => intros ? ? ? H; discriminate H
  | |- raises_only _ (upd_card _) => intros ? ? ? H; discriminate H
  | |- raises_only _ (upd_sched _) => intros ? ? ? H; discriminate H
  | |- raises_only _ get => intros ? ? ? H; discriminate H
  | |- raises_only _ (modify _) => intros ? ? ? H; discriminate H
  | |- raises_only _ time_time => intros ? ? ? H; discriminate H
  | |- raises_only _ (if ?b then _ else _) => destruct b
  | |- raises_only _ (match ?x with _ => _ end) => destruct x
  | |- exc_only _ (inr _) => apply eo_inr
  | |- exc_only _ (ebind _ _) => apply eo_ebind; [| intros]
  | |- exc_only _ (PyNum.mul _ _) => apply eo_mul
  | |- exc_only _ (PyNum.add _ _) => apply eo_add
  | |- exc_only _ (py_int _) => apply eo_py_int
  | |- exc_only _ (int_of_float _) => apply (eo_py_int (PFloat _))
  | |- exc_only _ (_nextLapseIvl _ _) => apply eo_nextLapseIvl
  end.

Lemma ro_intTime : raises_only arith_or_key intTime.
Proof. unfold intTime. ro. Qed.

Lemma ro_burySiblings (c : Card) :
  raises_only arith_or_key (_burySiblings c).
Proof. unfold _burySiblings. ro. apply ro_intTime. Qed.

Lemma ro_answerRevCard (ease : Z) :
  1 <= ease <= 4 -> raises_only arith_or_key (_answerRevCard B ease).
Proof.
  intros He. unfold _answerRevCard, BUTTON_ONE.
  destruct (Z.eqb_spec ease 1) as [E1 | E1].
  - unfold _rescheduleLapse, _logRev, _checkLeech. ro.
  - destruct (factor_adjustment ease ltac:(lia)) as [adj [Hadj _]].
    unfold _rescheduleRev, _logRev, _updateRevIvl, _adjRevIvl.
    rewrite Hadj. ro.
    all: try (apply eo_nextRevIvl; lia).
Qed.

(** X17.  Answering a card of the review queue with ease 1 to 4 can only
    fail with an overflow or value error of float arithmetic or with the
    integrity error of the review log: never on an unassigned local, an
    assertion, a missing key or an invalid queue. *)
Theorem X17_review_answer_failures (ease : Z) (s : Scheduler) (c : Card)
    (e : exn) (h : Heap) :
  queue c = QUEUE_REV ->
  1 <= ease <= 4 ->
  answerCard B lrn ease (s, c) = Raise e h ->
  e = OverflowError \/ e = ValueError \/ e = IntegrityError.
Proof.
  intros Q He H. unfold answerCard in H.
  assert (E1 : negb ((1 <=? ease) && (ease <=? 4)) = false).
  { apply negb_false_iff, andb_true_iff. split; apply Z.leb_le; lia. }
  rewrite E1 in H. unfold_monad_in H. simpl in H.
  rewrite Q in H; simpl in H;
    repeat (first [rewrite Q in H; simpl in H | step_in H]);
    inversion H; subst;
    match goal with
    | E : _answerRevCard _ _ _ = Raise _ _ |- _ =>
        exact (ro_answerRevCard _ He _ _ _ E)
    | E : intTime _ = Raise _ _ |- _ =>
        exact (ro_intTime _ _ _ E)
    | E : _burySiblings _ _ = Raise _ _ |- _ =>
        exact (ro_burySiblings _ _ _ _ E)
    end.
Qed.

Lemma Queue_eqb_spec (a b : Queue) : reflect (a = b) (Queue_eqb a b).
Proof. destruct a, b; simpl; constructor; congruence. Qed.

(** X18.  [answerButtons] shows 2, 3 or 4 buttons: 4 exactly for a card of
    the review queue that is not in relearning ([odue] unset, or inside a
    filtered deck); 2 exactly for a review card in relearning with at most
    one relearning step. *)
Theorem X18_answer_buttons_table (s : Scheduler) (c : Card) :
  2 <= answerButtons B s c <= 4 /\
  (answerButtons B s c = 4 <->
   queue c = QUEUE_REV /\ (odue c = 0 \/ odid c <> 0)) /\
  (answerButtons B s c = 2 <->
   odue c <> 0 /\ (odid c = 0 \/ queue c <> QUEUE_REV) /\
   type c = CARD_DUE /\
   (List.length (delays (_lapseConf B s c)) <= 1)%nat).
Proof.
  unfold answerButtons, _lrnConf_delays, BUTTON_TWO, BUTTON_THREE,
    BUTTON_FOUR.
  destruct (Z.eqb_spec (odue c) 0) as [Ou | Ou];
    destruct (Z.eqb_spec (odid c) 0) as [Od | Od];
    destruct (Queue_eqb_spec (queue c) QUEUE_REV) as [Q | Q];
    destruct (type c) eqn:T; simpl;
    try destruct (Z.ltb_spec 1
          (Z.of_nat (List.length (delays (_lapseConf B s c)))));
    (split; [lia |]); split; split;
    try discriminate; try tauto;
    try (intros; repeat split; auto; try lia; tauto);
    try (intros [N1 [N2 [N3 N4]]]; try discriminate N3; try lia; try tauto).
Qed.

(** X19.  A review answered in a filtered deck that does not reschedule
    keeps its interval, factor and lapse count, [lastIvl] being set to the
    interval; for ease 2 to 4 it stays a review card due on its saved
    date, goes back to its home deck with [odid] and [odue] cleared, and
    draws no random number. *)
Theorem X19_review_without_rescheduling (ease : Z) (s : Scheduler) (c : Card)
    (h : Heap) :
  queue c = QUEUE_REV ->
  1 <= ease <= 4 ->
  _resched B s c = false ->
  answerCard B lrn ease (s, c) = Return tt h ->
  ivl (snd h) = ivl c /\ factor (snd h) = factor c /\
  lapses (snd h) = lapses c /\ lastIvl (snd h) = ivl c /\
  (2 <= ease ->
   queue (snd h) = QUEUE_REV /\
   due (snd h) = odue c /\
   did (snd h) = (if odid c =? 0 then did c else odid c) /\
   odid (snd h) = (if odid c =? 0 then odid c else 0) /\
   odue (snd h) = (if odid c =? 0 then odue c else 0) /\
   rng (fst h) = rng s).
Proof.
  intros Hq He Hrs H.
  assert (Hrng : 2 <= ease -> rng (fst h) = rng s).
  { intros G.
    destruct (answerCard_rev_steps ease s c h Hq He H)
      as [s1 [h2 [t [s4 [Hp [Ha [Ht Hh]]]]]]].
    cbv zeta in Ht, Hh.
    destruct (answer_prelude_frame c s s1 Hp)
      as [_ [_ [Pd [_ [_ [_ [_ [_ [_ [_ [Pr _]]]]]]]]]]].
    destruct (answerRevCard_steps ease s1 _ h2 Ha) as [d [h1 [Hr Hl]]].
    assert (E1 : (ease =? 1) = false) by (apply Z.eqb_neq; lia).
    rewrite E1 in Hr. destruct Hr as [Hr _].
    unfold _rescheduleRev in Hr. unfold_monad_in Hr. simpl in Hr.
    match type of Hr with context [_resched B s1 ?x] =>
      replace (_resched B s1 x) with false in Hr
        by (rewrite <- Hrs; now apply resched_ext) end.
    simpl in Hr.
    assert (Hs1 : fst h1 = s1)
      by (destruct (odid c =? 0); simpl in Hr; inversion Hr; reflexivity).
    apply logRev_row in Hl. destruct Hl as [ms [s' [Hs' [_ Hh2]]]].
    subst h2. simpl in Ht. apply intTime_returns in Ht.
    subst h s4. unfold flushSched, _updateStats. simpl.
    destruct Hs' as [Hs' | Hs']; subst s'; simpl; now rewrite Hs1. }
  destruct (answerCard_rev_card ease s c h Hq He H)
    as [s1 [d [h1 [t [u [Ht [Hd [Hsp [_ [_ [_ [Hr Hh]]]]]]]]]]]].
  set (c0 := set_wasNew (CardType_eqb (type c) CARD_NEW)
               (set_reps (reps c + 1) c)) in Hr.
  assert (Hrs1 : _resched B s1 c0 = false)
    by (rewrite <- Hrs; now apply resched_ext).
  rewrite Hh. simpl.
  destruct (Z.eqb_spec ease 1) as [E1 | E1].
  - unfold _rescheduleLapse, _checkLeech in Hr.
    unfold_monad_in Hr. unfold time_time, addTag, runHook in Hr.
    simpl in Hr.
    change (_resched B s1 (set_lastIvl (ivl c) c0)) with (_resched B s1 c0)
      in Hr.
    rewrite Hrs1 in Hr. simpl in Hr.
    repeat step_in Hr; inversion Hr; subst h1; simpl;
      (repeat split; try reflexivity; lia).
  - unfold _rescheduleRev in Hr. unfold_monad_in Hr. simpl in Hr.
    change (_resched B s1 (set_lastIvl (ivl c) c0)) with (_resched B s1 c0)
      in Hr.
    rewrite Hrs1 in Hr. simpl in Hr.
    destruct (odid c =? 0) eqn:Od; simpl in Hr; inversion Hr; subst h1;
      simpl; repeat (split; [reflexivity |]); intros G; rewrite ?Hq;
      repeat split; try reflexivity; now apply Hrng.
Qed.

Lemma dynIvlBoost_ext (s s' : Scheduler) (c c' : Card) :
  today s = today s' -> decks (col s) = decks (col s') ->
  did c = did c' -> odid c = odid c' -> ivl c = ivl c' ->
  factor c = factor c' -> odue c = odue c' -> type c = type c' ->
  _dynIvlBoost B s c = _dynIvlBoost B s' c'.
Proof.
  intros Ht Hd H1 H2 H3 H4 H5 H6.
  unfold _dynIvlBoost, _revConf.
  now rewrite Ht, Hd, H1, H2, H3, H4, H5, H6.
Qed.

Ltac new_card_cases H Hq Hp Pt Pd s1 :=
  let Hres := fresh "Hres" in
  let Hbo := fresh "Hbo" in
  let T := fresh "T" in
  let Od := fresh "Od" in
  match goal with
  | |- context [_resched ?B ?s ?c = true] =>
    assert (Hres : forall x, did x = did c ->
                   _resched B s1 x = _resched B s c)
      by (intros x Hx; now apply resched_ext);
    assert (Hbo : forall x, did x = did c -> odid x = odid c ->
                  ivl x = ivl c -> factor x = factor c -> odue x = odue c ->
                  type x = type c ->
                  _dynIvlBoost B s1 x = _dynIvlBoost B s c)
      by (intros; now apply dynIvlBoost_ext);
    destruct (type c) eqn:T; simpl in H;
    destruct (odid c =? 0) eqn:Od; simpl in H;
    try (rewrite Hres in H by reflexivity);
    try (rewrite Hbo in H by (try reflexivity; now rewrite T));
    repeat (first [rewrite Hq in H; simpl in H
                  | rewrite T in H; simpl in H | step_in H]);
    inversion H; subst; clear H;
    match goal with
    | E2 : _ _ (_, ?c1) = Return ?a ?h2,
      E3 : intTime _ = Return ?t ?s4 |- _ =>
        destruct a; exists c1, h2, t, s4
    end;
    (split; [exact Hp |]);
    (split; [simpl; rewrite ?T; reflexivity |]);
    (split; [simpl; rewrite ?T; reflexivity |]);
    (split; [simpl; rewrite ?T; reflexivity |]);
    (split; [simpl; rewrite ?T; reflexivity |]);
    (split; [simpl; rewrite ?T; reflexivity |]);
    (split; [| split; [| split; [assumption | split;
                                   [assumption | reflexivity]]]]);
    simpl; rewrite ?Pt;
    try (intros _ N; discriminate N);
    try (intros N; apply Z.eqb_eq in Od; contradiction);
    try (intros; split; reflexivity);
    try (intros; split; [assumption | reflexivity]);
    try (intros [N | [N | N]];
         [apply Z.eqb_neq in Od; contradiction
         | contradiction | congruence]);
    try (intros _ _ N; discriminate N);
    try (intros _ _ _; split; [| reflexivity];
         match goal with
         | E : _dynIvlBoost _ _ _ = inr _ |- _ =>
             rewrite <- E; symmetry; apply Hbo; try reflexivity; assumption
         end)
  end.

(** X20.  Answering a card of the new queue puts it in the learning queue
    before the learning handler sees it: type learning for a new card,
    [reps] one more, [wasNew] recording whether it was new, [left] set by
    [_startingLeft]; a lapsed review of a rescheduling filtered deck gets
    the boosted interval and the matching [odue], any other card keeps
    both.  The handler then runs with the "new" counter updated, and the
    answer ends with the time counter, one clock reading and the flush of
    the card. *)
Theorem X20_new_card_enters_learning (ease : Z) (s : Scheduler) (c : Card)
    (h : Heap) :
  queue c = QUEUE_NEW_CRAM ->
  1 <= ease <= 4 ->
  answerCard B lrn ease (s, c) = Return tt h ->
  exists s1 c1 h2 t s4,
    answer_prelude B c s = Return tt s1 /\
    queue c1 = QUEUE_LRN /\
    type c1 = (if CardType_eqb (type c) CARD_NEW then CARD_LRN
               else type c) /\
    reps c1 = reps c + 1 /\
    wasNew c1 = CardType_eqb (type c) CARD_NEW /\
    left c1 = _startingLeft B s1 c1 /\
    (odid c <> 0 -> type c = CARD_DUE -> _resched B s c = true ->
     _dynIvlBoost B s c = inr (ivl c1) /\ odue c1 = today s + ivl c1) /\
    (odid c = 0 \/ type c <> CARD_DUE \/ _resched B s c = false ->
     ivl c1 = ivl c /\ odue c1 = odue c) /\
    lrn ease (_updateStats B c1 "new" 1 s1, c1) = Return tt h2 /\
    intTime (_updateStats B (snd h2) "time" (timeTaken B (fst h2) (snd h2))
               (fst h2)) = Return t s4 /\
    h = (flushSched (set_usn (col_usn (col s4)) (set_mod t (snd h2))) s4,
         set_usn (col_usn (col s4)) (set_mod t (snd h2))).
Proof.
  intros Hq He H. unfold answerCard in H.
  assert (E1 : negb ((1 <=? ease) && (ease <=? 4)) = false).
  { apply negb_false_iff, andb_true_iff. split; apply Z.leb_le; lia. }
  rewrite E1 in H. clear E1. unfold_monad_in H. simpl in H.
  destruct (_burySiblingsOnAnswer s) eqn:Bu; simpl in H.
  - destruct (_burySiblings c (markReview B c s)) as [[] s1 | e s1] eqn:Sb;
      simpl in H; try discriminate H.
    assert (Hp : answer_prelude B c s = Return tt s1)
      by (unfold answer_prelude; now rewrite Bu).
    apply burySiblings_returns in Sb. destruct Sb as [Pt [Pd _]].
    change (today (markReview B c s)) with (today s) in Pt.
    change (decks (col (markReview B c s))) with (decks (col s)) in Pd.
    exists s1. rewrite Hq in H. simpl in H.
    new_card_cases H Hq Hp Pt Pd s1.
  - assert (Hp : answer_prelude B c s = Return tt (markReview B c s))
      by (unfold answer_prelude; now rewrite Bu).
    assert (Pt : today (markReview B c s) = today s) by reflexivity.
    assert (Pd : decks (col (markReview B c s)) = decks (col s))
      by reflexivity.
    exists (markReview B c s). rewrite Hq in H. simpl in H.
    new_card_cases H Hq Hp Pt Pd (markReview B c s).
Qed.

Transparent unwound lapsed_card.

End MoreFacts.

(** ** The further properties on the scenarios *)

(** The shuffle of the demonstration instance is a rotation, hence a
    permutation. *)
Lemma rotate_perm (seed : Z) (l : list Z) : Permutation (rotate seed l) l.
Proof.
  unfold rotate.
  set (k := Z.to_nat (seed mod Z.max 1 (Z.of_nat (List.length l)))).
  rewrite <- (firstn_skipn k l) at 3. apply Permutation_app_comm.
Qed.

Lemma raises_heap_of {A} (o : outcome Heap A) (e : exn) :
  error_of o = Some e -> o = Raise e (heap_of o).
Proof.
  destruct o as [a h | e' h]; simpl; intros H; inversion H. reflexivity.
Qed.

(** X1 on scenario S3: Hard 12, Good 27, Easy above. *)
Lemma X1_witness :
  exists i2 i3 i4,
    _nextRevIvl s3_base s3_sched s3_card 2 = inr i2 /\
    _nextRevIvl s3_base s3_sched s3_card 3 = inr i3 /\
    _nextRevIvl s3_base s3_sched s3_card 4 = inr i4 /\
    i2 <= i3 /\ i3 <= i4.
Proof.
  destruct (X1_next_interval_order s3_base s3_sched s3_card 3 27)
    as [_ [i2 [i3 [i4 [H2 [H3 [H4 [_ [L1 [L2 _]]]]]]]]]].
  - vm_compute. reflexivity.
  - exists i2, i3, i4. repeat split; assumption.
Defined.

(** X2 on the sibling scenario: the answered card's own row is left
    alone. *)
Lemma X2_witness :
  nth_error (cards (col (state_of sib_buried))) 0 = Some s3_card.
Proof.
  apply (proj1 (proj2 (X2_bury_siblings_frame s3_card sib_sched
                         (state_of sib_buried)
                         (returns_state_of sib_buried tt eq_refl)))
               0%nat s3_card).
  - reflexivity.
  - reflexivity.
Defined.


(** X4 on scenario S3, ease 3. *)
Lemma X4_witness :
  reps (snd (heap_of (s3_answer 3))) = reps s3_card + 1 /\
  nth_error (cards (col (fst (heap_of (s3_answer 3))))) 0
  = Some (snd (heap_of (s3_answer 3))).
Proof.
  destruct (X4_answer_review_record s3_base demo_lrn 3 s3_sched s3_card
              (heap_of (s3_answer 3)))
    as [_ [Hr [_ [_ [Hrow _]]]]].
  - reflexivity.
  - lia.
  - apply (returns_heap_of (s3_answer 3) tt). vm_compute. reflexivity.
  - split; [exact Hr |]. apply (Hrow 0%nat s3_card); reflexivity.
Defined.

(** X5 on scenario S3, ease 3: the preview is the interval the answer
    then sets, in seconds. *)
Lemma X5_witness :
  nextIvl s3_base demo_nextLrnIvl 3 (s3_sched, s3_card)
  = Return (PInt (ivl (snd (heap_of (s3_answer 3))) * 86400))
           (s3_sched, s3_card).
Proof.
  destruct (X5_preview_is_outcome s3_base demo_lrn demo_nextLrnIvl 3
              s3_sched s3_card (heap_of (s3_answer 3)))
    as [Hgood _].
  - reflexivity.
  - lia.
  - reflexivity.
  - apply (returns_heap_of (s3_answer 3) tt). vm_compute. reflexivity.
  - apply Hgood; [lia | reflexivity].
Defined.

(** X6 on a lapse with one relearning step of ten minutes. *)
Lemma X6_witness :
  type (snd (heap_of (_rescheduleLapse relrn_base (s3_sched, s3_card))))
  = CARD_DUE /\
  ticks (fst (heap_of (_rescheduleLapse relrn_base (s3_sched, s3_card))))
  = S (ticks s3_sched).
Proof.
  destruct (X6_lapse_enters_relearning relrn_base s3_sched s3_card
              (_delayForGrade relrn_base
                 (_lapseConf relrn_base s3_sched s3_card) 0)
              (heap_of (_rescheduleLapse relrn_base (s3_sched, s3_card))))
    as [_ [Ht [Hk _]]].
  - reflexivity.
  - reflexivity.
  - apply (returns_heap_of
             (_rescheduleLapse relrn_base (s3_sched, s3_card))).
    vm_compute. reflexivity.
  - vm_compute. discriminate.
  - intros [[_ [Hl _]] _]. vm_compute in Hl. apply Hl. reflexivity.
  - split; [exact Ht | exact Hk].
Defined.

(** X7 on the three-card scenario: after the roll every deck's counters
    are dated today. *)
Lemma X7_witness :
  Forall (fun g : Deck =>
            fst (newToday g) = today (state_of (_updateCutoff det_sched_a)) /\
            fst (revToday g) = today (state_of (_updateCutoff det_sched_a)) /\
            fst (lrnToday g) = today (state_of (_updateCutoff det_sched_a)) /\
            fst (timeToday g) = today (state_of (_updateCutoff det_sched_a)))
         (decks (col (state_of (_updateCutoff det_sched_a)))).
Proof.
  apply (proj1 (proj2 (X7_cutoff_rolls_counters det_sched_a
                         (state_of (_updateCutoff det_sched_a))
                         (returns_state_of (_updateCutoff det_sched_a) tt
                            eq_refl)))).
Defined.

(** X8 on the sibling scenario after a bury: a second unbury changes
    nothing. *)
Lemma X8_witness :
  cards (col (unburyCards (unburyCards (state_of sib_buried))))
  = cards (col (unburyCards (state_of sib_buried))).
Proof.
  apply (proj2 (proj2 (proj2 (X8_unbury_all (state_of sib_buried))))).
Defined.

(** X9 on the sibling scenario after a bury. *)
Lemma X9_witness :
  lastUnburied (col (state_of (unburyCardsForDeck (state_of sib_buried))))
  = lastUnburied (col (state_of sib_buried)).
Proof.
  apply (proj1 (X9_unbury_active_decks (state_of sib_buried)
                  (state_of (unburyCardsForDeck (state_of sib_buried)))
                  (returns_state_of
                     (unburyCardsForDeck (state_of sib_buried)) tt
                     eq_refl))).
Defined.

(** X10 on the three-card scenario: card 11 is suspended. *)
Lemma X10_witness :
  Forall (fun c => In (id c) [11] -> queue c = QUEUE_SUSPENDED)
         (cards (col (state_of (suspendCards demo_remFromDyn
                                  demo_forgetCards demo_allIds [11]
                                  dyn_sched)))).
Proof.
  apply Forall_forall.
  apply (proj1 (X10_suspend_then_unsuspend demo_remFromDyn demo_forgetCards
                  demo_allIds [11] dyn_sched
                  (state_of (suspendCards demo_remFromDyn demo_forgetCards
                               demo_allIds [11] dyn_sched))
                  (returns_state_of
                     (suspendCards demo_remFromDyn demo_forgetCards
                        demo_allIds [11] dyn_sched) tt eq_refl))).
Defined.

(** X11 on the three-card scenario: card 11 is buried. *)
Lemma X11_witness :
  Forall (fun c => In (id c) [11] -> queue c = QUEUE_USER_BURIED)
         (cards (col (state_of (buryCards demo_remFromDyn
                                  demo_forgetCards demo_allIds [11]
                                  dyn_sched)))).
Proof.
  apply Forall_forall.
  apply (proj1 (X11_bury_then_unbury demo_remFromDyn demo_forgetCards
                  demo_allIds [11] dyn_sched
                  (state_of (buryCards demo_remFromDyn demo_forgetCards
                               demo_allIds [11] dyn_sched))
                  (returns_state_of
                     (buryCards demo_remFromDyn demo_forgetCards
                        demo_allIds [11] dyn_sched) tt eq_refl))).
Defined.

(** X12 on a relearning card: it is a review again and nothing is
    forgotten. *)
Lemma X12_witness :
  exists s1 forgotten,
    demo_forgetCards forgotten s1
    = Return tt (state_of (removeLrn demo_forgetCards demo_allIds None
                             relrn_sched)) /\
    forall i, In i forgotten ->
      exists c1, In c1 (cards (col s1)) /\ id c1 = i /\
                 in_lrn_queues c1 = true /\ type c1 <> CARD_DUE.
Proof.
  destruct (X12_remove_lrn_keeps_reviews demo_forgetCards demo_allIds None
              relrn_sched
              (state_of (removeLrn demo_forgetCards demo_allIds None
                           relrn_sched)))
    as [s1 [fg [Hf [_ [_ [Hi _]]]]]].
  - apply (returns_state_of
             (removeLrn demo_forgetCards demo_allIds None relrn_sched) tt).
    vm_compute. reflexivity.
  - exists s1, fg. split; [exact Hf | exact Hi].
Defined.

(** X13 on the relearning card: it graduates as a review. *)
Lemma X13_witness :
  exists c',
    _rescheduleAsRev relrn_base demo_nextID unit demo_rescheduleNew tt false
                     (relrn_sched, relrn_card)
    = Return tt (relrn_sched, c') /\
    queue c' = QUEUE_REV /\ odue c' = 0.
Proof.
  destruct (proj1 (X13_graduation_leaves_filtered_deck relrn_base demo_nextID
                     unit demo_rescheduleNew tt false relrn_sched
                     relrn_card) eq_refl)
    as [c' [Hr [Hq [_ [Ho _]]]]].
  exists c'. repeat split; assumption.
Defined.

(** X14 on the three-card scenario: card 12 is the second one gathered. *)
Lemma X14_witness :
  exists c',
    nth_error (cards (col (state_of dyn_filled))) 1 = Some c' /\
    did c' = 9 /\ due c' = -99999 /\ odid c' = 1 /\ odue c' = 95.
Proof.
  destruct (X14_fill_dyn_due_order s3_base 9 "" 10 0 dyn_sched
              (state_of dyn_filled) [11; 12; 13])
    as [_ [_ Hd]].
  - apply (returns_state_of dyn_filled). vm_compute. reflexivity.
  - destruct (Hd ltac:(repeat constructor; simpl; intuition lia)
                1%nat (mkCard 12 2 1 CARD_DUE QUEUE_REV 95 20 2300 6 1 0 0 0
                              0 0 0 false) 1%nat eq_refl eq_refl)
      as [c' [Hn [_ [_ [_ [H1 [H2 [H3 [H4 _]]]]]]]]].
    exists c'. repeat split; assumption.
Defined.

(** X15 on the filled filtered deck. *)
Lemma X15_witness :
  exists s', emptyDyn 9 None (state_of dyn_filled) = Return tt s'.
Proof.
  destruct (X15_empty_dyn_resets 9 (state_of dyn_filled)) as [s' [H _]].
  exists s'. exact H.
Defined.

(** X16 on a review shown ahead of time in a filtered deck. *)
Lemma X16_witness :
  25 <= 27 <= maxIvl (_revConf s3_base s3_sched boost_card).
Proof.
  destruct (proj2 (X16_dyn_boost_bounds s3_base s3_sched boost_card) 27
                  eq_refl) as [_ [_ [_ [Hle Hge]]]].
  split; [lia | exact Hle].
Defined.

(** X17 on a revision log that already holds both candidate stamps. *)
Lemma X17_witness :
  exists e,
    error_of (answerCard s3_base demo_lrn 3 (dup_sched, s3_card)) = Some e /\
    (e = OverflowError \/ e = ValueError \/ e = IntegrityError).
Proof.
  exists IntegrityError. split; [vm_compute; reflexivity |].
  apply (X17_review_answer_failures s3_base demo_lrn 3 dup_sched s3_card
           IntegrityError
           (heap_of (answerCard s3_base demo_lrn 3 (dup_sched, s3_card)))).
  - reflexivity.
  - lia.
  - apply raises_heap_of. vm_compute. reflexivity.
Defined.

(** X18 on scenario S3: a review card has four buttons. *)
Lemma X18_witness : answerButtons s3_base s3_sched s3_card = 4.
Proof.
  apply (proj2 (proj1 (proj2 (X18_answer_buttons_table s3_base s3_sched
                                s3_card)))).
  split; [reflexivity | left; reflexivity].
Defined.

(** X19 on a review in a filtered deck that does not reschedule. *)
Lemma X19_witness :
  ivl (snd (heap_of (answerCard cram_base demo_lrn 3
                       (cram_sched, cram_card)))) = ivl cram_card /\
  did (snd (heap_of (answerCard cram_base demo_lrn 3
                       (cram_sched, cram_card)))) = 1.
Proof.
  destruct (X19_review_without_rescheduling cram_base demo_lrn 3 cram_sched
              cram_card
              (heap_of (answerCard cram_base demo_lrn 3
                          (cram_sched, cram_card))))
    as [Hi [_ [_ [_ Hg]]]].
  - reflexivity.
  - lia.
  - reflexivity.
  - apply (returns_heap_of
             (answerCard cram_base demo_lrn 3 (cram_sched, cram_card)) tt).
    vm_compute. reflexivity.
  - split; [exact Hi |].
    destruct (Hg ltac:(lia)) as [_ [_ [Hd _]]]. exact Hd.
Defined.

(** X20 on the new sibling card. *)
Lemma X20_witness :
  exists s1 c1,
    answer_prelude s3_base sib_card sib_sched = Return tt s1 /\
    queue c1 = QUEUE_LRN /\ type c1 = CARD_LRN /\ wasNew c1 = true.
Proof.
  destruct (X20_new_card_enters_learning s3_base demo_lrn 3 sib_sched sib_card
              (heap_of (answerCard s3_base demo_lrn 3 (sib_sched, sib_card))))
    as [s1 [c1 [h2 [t [s4 [Hp [Hq [Ht [_ [Hw _]]]]]]]]]].
  - reflexivity.
  - lia.
  - apply (returns_heap_of
             (answerCard s3_base demo_lrn 3 (sib_sched, sib_card)) tt).
    vm_compute. reflexivity.
  - exists s1, c1. repeat split; assumption.
Defined.


(** X22 on the three-card scenario: the queue comes from one deck. *)
Lemma X22_witness :
  exists skipped d rest,
    [1] = skipped ++ d :: rest /\
    _revQueue (state_of (fillRev_loop s3_base [1] det_sched_a)) <> [].
Proof.
  destruct (X22_review_queue_one_deck s3_base rotate_perm [1] det_sched_a
              (state_of (fillRev_loop s3_base [1] det_sched_a)))
    as [sk [d [rest [Hd [_ [_ [Hq _]]]]]]].
  - apply (returns_state_of (fillRev_loop s3_base [1] det_sched_a) true).
    vm_compute. reflexivity.
  - exists sk, d, rest. split; [exact Hd | exact Hq].
Defined.
